(** * A shallow embedding of the torrent client core

    The development follows the Go sources [metainfo/metainfo.go] and
    [client.go].  Go [int], [int64] and [time.Duration] values are carried
    as [Z]; where the source does arithmetic whose result can leave the
    64-bit range the wrap-around is written out with [wrap64].  Go maps used
    as sets are [gset]s, maps used as dictionaries are [gmap]s, slices are
    lists.  A function that can panic returns an [outcome]; a function that
    returns a Go [error] returns an [option error] next to its result.
    Counters that count events one at a time from zero (chunks sent, chunks
    received, pieces dirtied, expvars) are carried without the wrap-around:
    2^63 events are out of their reach.  Objects that the source shares
    through pointers ([*connection], [*Torrent]) live in a heap indexed by
    address.  What [client.go] calls but does not define is taken as a
    parameter of the section that needs it, or, where a property depends on
    what it does, is modelled from the specification and marked so. *)

From Stdlib Require Import ZArith List String Bool Lia.
From stdpp Require Import gmap strings list fin_maps fin_sets functions.

Local Open Scope Z_scope.

Set Warnings "-clear-no-such-hyp".

(** ** Common definitions *)

(** What a call does when it does not simply return: Go panics are kept
    apart from ordinary results. *)
Inductive outcome (A : Type) : Type :=
  | Returns (a : A)
  | Panics (msg : string).
Arguments Returns {A} a.
Arguments Panics {A} msg.

(** Two's complement reduction of a mathematical integer to Go's 64-bit
    [int]/[int64]. *)
Definition wrap64 (z : Z) : Z := (z + 2 ^ 63) mod 2 ^ 64 - 2 ^ 63.

Definition minInt64 : Z := - 2 ^ 63.
Definition maxInt64 : Z := 2 ^ 63 - 1.

Definition inInt64 (z : Z) : Prop := minInt64 <= z <= maxInt64.

(** Go's [byte]. *)
Abbreviation byte := Init.Byte.byte.

(** Length of a slice, as the Go [int] that [len] returns. *)
Definition len {A} (l : list A) : Z := Z.of_nat (length l).

(** ** metainfo/metainfo.go *)

Module metainfo.

(** Go [error] values produced in this package.  [fmt.Errorf] wrappers keep
    the wrapped cause; errors coming from the operating system are opaque
    messages. *)
Inductive error : Type :=
  | EOF                                   (* io.EOF *)
  | ErrOS (msg : string)                  (* an error returned by package os *)
  | ErrPieceLengthZero                    (* "piece length must be non-zero" *)
  | ErrIsDir                              (* "%s is dir" *)
  | ErrOpening (cause : error)            (* "error opening %v: %s" *)
  | ErrHashing (cause : error)            (* "error hashing %v: %s" *)
  | ErrHashingShort                       (* the same, with a nil cause *)
  | ErrGeneratingPieces (cause : error).  (* "error generating pieces: %s" *)

Definition is_EOF (e : option error) : bool :=
  match e with Some EOF => true | _ => false end.

(** [err != nil] *)
Definition notNil (e : option error) : bool :=
  match e with Some _ => true | None => false end.

Module FileInfo.
(** Information specific to a single file inside the MetaInfo structure. *)
Record t : Type := mk { Length : Z; Path : list string }.
End FileInfo.

(** The info dictionary. *)
Record Info : Type := mkInfo {
  PieceLength : Z;
  Pieces : list byte;
  Name : string;
  Length : Z;
  Private : option bool;
  Files : list FileInfo.t
}.

Definition set_Name (v : string) (i : Info) : Info :=
  mkInfo (PieceLength i) (Pieces i) v (Length i) (Private i) (Files i).
Definition set_Files (v : list FileInfo.t) (i : Info) : Info :=
  mkInfo (PieceLength i) (Pieces i) (Name i) (Length i) (Private i) v.
Definition set_Length (v : Z) (i : Info) : Info :=
  mkInfo (PieceLength i) (Pieces i) (Name i) v (Private i) (Files i).
Definition set_Pieces (v : list byte) (i : Info) : Info :=
  mkInfo (PieceLength i) v (Name i) (Length i) (Private i) (Files i).

(** [func (info *Info) NumPieces() int]: panics with the length when the
    piece string is not a whole number of 20-byte digests. *)
Definition NumPieces (info : Info) : outcome Z :=
  if negb (Z.rem (len (Pieces info)) 20 =? 0)
  then Panics "len(info.Pieces)"
  else Returns (Z.quot (len (Pieces info)) 20).

(** [func (info *Info) IsDir() bool] *)
Definition IsDir (info : Info) : bool :=
  negb (len (Files info) =? 0).

(** [func (info *Info) UpvertedFiles() []FileInfo] *)
Definition UpvertedFiles (info : Info) : list FileInfo.t :=
  if len (Files info) =? 0
  then [FileInfo.mk (Length info) []]
  else Files info.

(** A byte source as [io.CopyN] sees it: the bytes it will deliver and how
    it ends, with [io.EOF] ([None]) or with an error. *)
Record Reader : Type := mkReader { data : list byte; fails : option error }.

(** [io.CopyN(dst, src, n)]: the bytes handed to [dst], what is left of
    [src], the count written and the error.  A non-positive [n] copies
    nothing and reports no error; a source that ends before [n] bytes gives
    its own error, or [io.EOF]. *)
Definition CopyN (src : Reader) (n : Z)
  : list byte * Reader * Z * option error :=
  if n <=? 0 then ([], src, 0, None)
  else if n <=? len (data src)
  then (take (Z.to_nat n) (data src),
        mkReader (drop (Z.to_nat n) (data src)) (fails src), n, None)
  else (data src, mkReader [] (fails src), len (data src),
        Some (match fails src with Some e => e | None => EOF end)).

Section Build.

(** SHA-1, [hasher.Sum(pieces)] appends the digest of what was written. *)
Variable sha1 : list byte -> list byte.

(** [func (info *Info) writeFiles(w, open) error]: the bytes that reach
    the pipe before the function returns, and its error. *)
Fixpoint writeFilesFrom (files : list FileInfo.t)
    (open : FileInfo.t -> Reader + error) (w : list byte)
  : list byte * option error :=
  match files with
  | [] => (w, None)
  | fi :: rest =>
    match open fi with
    | inr err => (w, Some (ErrOpening err))
    | inl r =>
      let '(written, _, wn, err) := CopyN r (FileInfo.Length fi) in
      let w := w ++ written in
      if negb (wn =? FileInfo.Length fi) || notNil err
      then (w, Some (match err with
                     | Some e => ErrHashing e
                     | None => ErrHashingShort
                     end))
      else writeFilesFrom rest open w
    end
  end.

Definition writeFiles (info : Info) (open : FileInfo.t -> Reader + error)
  : list byte * option error :=
  writeFilesFrom (UpvertedFiles info) open [].

(** The [for] loop of [GeneratePieces] over the read end of the pipe.
    [None] is an exhausted budget of iterations. *)
Fixpoint hashLoop (fuel : nat) (pieceLength : Z) (pr : Reader)
    (pieces : list byte) : option (list byte + error) :=
  match fuel with
  | O => None
  | S fuel =>
    let '(hashed, pr, wn, err) := CopyN pr pieceLength in
    let err := if is_EOF err then None else err in
    match err with
    | Some e => Some (inr e)
    | None =>
      if wn =? 0 then Some (inl pieces)
      else
        let pieces := pieces ++ sha1 hashed in
        if wn <? pieceLength then Some (inl pieces)
        else hashLoop fuel pieceLength pr pieces
    end
  end.

(** [func (info *Info) GeneratePieces(open) error].  The goroutine feeds
    [writeFiles] into the pipe and closes it with that function's error;
    the loop sees those bytes followed by that error.  The loop is given
    one iteration per byte of the stream and one more; [None] would be a
    loop that needs more than that ([GeneratePieces_returns] shows there
    is none). *)
Definition GeneratePieces (info : Info)
    (open : FileInfo.t -> Reader + error) : option (Info * option error) :=
  if PieceLength info =? 0 then Some (info, Some ErrPieceLengthZero)
  else
    let '(stream, werr) := writeFiles info open in
    match hashLoop (S (length stream)) (PieceLength info)
                   (mkReader stream werr) [] with
    | Some (inl pieces) => Some (set_Pieces pieces info, None)
    | Some (inr err) => Some (info, Some err)
    | None => None
    end.

(** What [os.Stat] returns for a file that exists. *)
Record osFileInfo : Type := mkStat { fiIsDir : bool; fiSize : Z }.

Variable Base : string -> string.                  (* filepath.Base *)
Variable Stat : string -> osFileInfo + error.      (* os.Stat *)
Variable Open : string -> Reader + error.          (* os.Open *)

(** [func (info *Info) BuildFromFile(path string) (err error)] *)
Definition BuildFromFile (info : Info) (path : string)
  : option (Info * option error) :=
  let info := set_Name (Base path) info in
  let info := set_Files [] info in
  match Stat path with
  | inr err => Some (info, None)
  | inl fi =>
    if fiIsDir fi then Some (info, Some ErrIsDir)
    else
      let info :=
        set_Files (Files info ++ [FileInfo.mk (fiSize fi) []]) info in
      let info := set_Length (fiSize fi) info in
      match GeneratePieces info (fun _ => Open path) with
      | Some (info, Some e) => Some (info, Some (ErrGeneratingPieces e))
      | Some (info, None) => Some (info, None)
      | None => None
      end
  end.

(** [BuildFromFile] as the specification words it, to be compared with
    the function above: the stat error is swallowed and the function goes
    on as if the call had succeeded, generating pieces over a file whose
    size it does not know.  [assumed] is what it goes on with in place of
    the result that [os.Stat] did not give. *)
Definition BuildFromFile_continuing (assumed : osFileInfo) (info : Info)
    (path : string) : option (Info * option error) :=
  let info := set_Name (Base path) info in
  let info := set_Files [] info in
  let fi := match Stat path with inl fi => fi | inr _ => assumed end in
  if fiIsDir fi then Some (info, Some ErrIsDir)
  else
    let info :=
      set_Files (Files info ++ [FileInfo.mk (fiSize fi) []]) info in
    let info := set_Length (fiSize fi) info in
    match GeneratePieces info (fun _ => Open path) with
    | Some (info, Some e) => Some (info, Some (ErrGeneratingPieces e))
    | Some (info, None) => Some (info, None)
    | None => None
    end.

End Build.

(** [func (info *Info) TotalLength() (ret int64)]: [ret += fi.Length] is
    an [int64] addition. *)
Definition TotalLength (info : Info) : Z :=
  if IsDir info
  then foldl (fun ret fi => wrap64 (ret + FileInfo.Length fi)) 0 (Files info)
  else Length info.

(** The declared lengths of a list of files, added up as numbers. *)
Definition sumLengths (files : list FileInfo.t) : Z :=
  foldr (fun fi s => FileInfo.Length fi + s) 0 files.

(** A file that [writeFiles] can copy in full: it opens, its declared
    length is not negative and it holds at least that many bytes. *)
Definition copyable (open : FileInfo.t -> Reader + error)
    (fi : FileInfo.t) : Prop :=
  exists r, open fi = inl r /\
            0 <= FileInfo.Length fi <= len (data r).

(** The bytes that [writeFiles] copies from a file: the first
    [fi.Length] of them. *)
Definition copied (open : FileInfo.t -> Reader + error)
    (fi : FileInfo.t) : list byte :=
  match open fi with
  | inl r => take (Z.to_nat (FileInfo.Length fi)) (data r)
  | inr _ => []
  end.

(** A list cut into consecutive blocks of [n] elements, the last block
    being shorter when the length is no multiple of [n]. *)
Fixpoint blocks {A} (fuel n : nat) (l : list A) : list (list A) :=
  match fuel with
  | O => []
  | S fuel =>
    match l with
    | [] => []
    | _ => take n l :: blocks fuel n (drop n l)
    end
  end.

Definition blocksOf {A} (n : nat) (l : list A) : list (list A) :=
  blocks (length l) n l.

(** The fields that the walk of [BuildFromFilePath] does not write. *)
Definition keeps (info info' : Info) : Prop :=
  Pieces info' = Pieces info /\ PieceLength info' = PieceLength info /\
  Name info' = Name info /\ Private info' = Private info.

(** What [BuildFromFilePath] returns as an error: an error of the walk or
    of [GeneratePieces] (the latter wrapped by the package), or the
    wrapper that the walk function puts around an error of
    [filepath.Rel]. *)
Inductive pathError : Type :=
  | Plain (e : error)
  | ErrRelativePath (cause : error). (* "error getting relative path: %s" *)

(** One call that [filepath.Walk] makes to the walk function: the path,
    and either what [os.Lstat] found there or the error to report. *)
Abbreviation visit := (string * (osFileInfo + error))%type.

Section BuildPath.

Variable sha1 : list byte -> list byte.
Variable Base : string -> string.                   (* filepath.Base *)
(** [filepath.Walk(root, fn)]: the visits in the order in which it makes
    them; it stops at the first one for which [fn] returns an error. *)
Variable Walk : string -> list visit.
Variable Rel : string -> string -> string + error.  (* filepath.Rel *)
(** [strings.Split(relPath, string(filepath.Separator))] *)
Variable Split : string -> list string.
(** [filepath.Join(root, strings.Join(path, string(filepath.Separator)))] *)
Variable Join : string -> list string -> string.
Variable Open : string -> Reader + error.           (* os.Open *)

(** The function literal that [BuildFromFilePath] hands to
    [filepath.Walk]. *)
Definition walkFn (root : string) (info : Info) (v : visit)
  : Info * option pathError :=
  match v.2 with
  | inr err => (info, Some (Plain err))
  | inl fi =>
    if fiIsDir fi then (info, None)
    else if String.eqb v.1 root
    then (set_Length (fiSize fi) info, None)
    else
      match Rel root v.1 with
      | inr err => (info, Some (ErrRelativePath err))
      | inl relPath =>
        (set_Files (Files info ++ [FileInfo.mk (fiSize fi) (Split relPath)])
                   info, None)
      end
  end.

Fixpoint walkFrom (visits : list visit) (root : string) (info : Info)
  : Info * option pathError :=
  match visits with
  | [] => (info, None)
  | v :: rest =>
    match walkFn root info v with
    | (info, Some err) => (info, Some err)
    | (info, None) => walkFrom rest root info
    end
  end.

(** [func (info *Info) BuildFromFilePath(root string) (err error)] *)
Definition BuildFromFilePath (info : Info) (root : string)
  : option (Info * option pathError) :=
  let info := set_Name (Base root) info in
  let info := set_Files [] info in
  match walkFrom (Walk root) root info with
  | (info, Some err) => Some (info, Some err)
  | (info, None) =>
    match GeneratePieces sha1 info
            (fun fi => Open (Join root (FileInfo.Path fi))) with
    | Some (info, Some e) => Some (info, Some (Plain (ErrGeneratingPieces e)))
    | Some (info, None) => Some (info, None)
    | None => None
    end
  end.

(** The entry that a visit adds to [Files]: one for each file that is
    neither a directory nor the root. *)
Definition entry (root : string) (v : visit) : option FileInfo.t :=
  match v.2 with
  | inr _ => None
  | inl fi =>
    if fiIsDir fi || String.eqb v.1 root then None
    else
      match Rel root v.1 with
      | inr _ => None
      | inl relPath => Some (FileInfo.mk (fiSize fi) (Split relPath))
      end
  end.

(** A visit on which the walk function returns no error. *)
Definition passes (root : string) (v : visit) : Prop :=
  exists fi, v.2 = inl fi /\
    (fiIsDir fi = false -> v.1 <> root -> exists rel, Rel root v.1 = inl rel).

End BuildPath.

End metainfo.

(** ** peer_protocol: the messages the client posts *)

Module pp.
Inductive Message : Type :=
  | Choke
  | Unchoke
  | Piece (Index Begin : Z) (Piece : list byte)
  | Extended (ExtendedID : Z) (ExtendedPayload : list byte).

(** Modelled from the spec: the [msg_type] values of [ut_metadata] are
    constants of package [peer_protocol]; the spec gives 0 for a request,
    1 for data and 2 for a reject. *)
Definition RequestMetadataExtensionMsgType : Z := 0.
Definition DataMetadataExtensionMsgType : Z := 1.
Definition RejectMetadataExtensionMsgType : Z := 2.
End pp.

(** ** client.go *)

Module torrent.

(** Go [error] values of the connection loop and of the functions it
    calls. *)
Inductive error : Type :=
  | ErrUnexpectedEOF                      (* io.ErrUnexpectedEOF *)
  | ErrStorage (msg : string)             (* any other storage read error *)
  | ErrNotInterested       (* "peer sent request but isn't interested" *)
  | ErrMissingPiece        (* "peer requested piece we don't have" *)
  | ErrUnmarshal           (* "error unmarshalling payload: %s: %q" *)
  | ErrMissingMsgType      (* "missing msg_type field" *)
  | ErrUnexpectedPiece (piece : Z)        (* "got unexpected piece %d" *)
  | ErrBadOffset (begin : Z)  (* "data has bad offset in payload: %d" *)
  | ErrUnknownMsgType      (* "unknown msg_type value" *)
  | ErrInfoBytes (msg : string)           (* an error of SetInfoBytes *)
  | ErrHandlingMetadata (cause : error).
                     (* "error handling metadata extension message: %s" *)

(** A chunk request: piece index, offset in the piece, length. *)
Record request : Type := newRequest { Index : Z; Begin : Z; Length : Z }.

#[global] Instance request_eq_dec : EqDecision request.
Proof. solve_decision. Defined.

#[global] Instance request_countable : Countable request :=
  inj_countable'
    (fun r => (Index r, Begin r, Length r))
    (fun p => newRequest p.1.1 p.1.2 p.2)
    (fun r => match r with newRequest _ _ _ => eq_refl end).

(** A [*connection] points to one of these.  Only the fields that the
    functions below read or write are kept. *)
Record connection : Type := mkConnection {
  PeerID : string;                 (* [20]byte *)
  remoteIP : string;               (* missinggo.AddrIP(c.remoteAddr()).String() *)
  closed : bool;                   (* c.closed.IsSet() *)
  t : option string;               (* c.t, the info-hash of the owning torrent *)
  Choked : bool;                   (* we are choking the peer *)
  PeerInterested : bool;
  PeerRequests : gset request;
  chunksSent : Z;
  UsefulChunksReceived : Z;
  post : list pp.Message;          (* what c.Post has queued, oldest first *)
  peerTouchedPieces : gset Z;
  goodPiecesDirtied : Z;
  badPiecesDirtied : Z;
  metadataRequests : list bool
}.

Definition set_closed (v : bool) (c : connection) : connection :=
  mkConnection (PeerID c) (remoteIP c) v (t c) (Choked c) (PeerInterested c)
    (PeerRequests c) (chunksSent c) (UsefulChunksReceived c) (post c)
    (peerTouchedPieces c) (goodPiecesDirtied c) (badPiecesDirtied c)
    (metadataRequests c).
Definition set_t (v : option string) (c : connection) : connection :=
  mkConnection (PeerID c) (remoteIP c) (closed c) v (Choked c)
    (PeerInterested c) (PeerRequests c) (chunksSent c)
    (UsefulChunksReceived c) (post c) (peerTouchedPieces c)
    (goodPiecesDirtied c) (badPiecesDirtied c) (metadataRequests c).
Definition set_Choked (v : bool) (c : connection) : connection :=
  mkConnection (PeerID c) (remoteIP c) (closed c) (t c) v (PeerInterested c)
    (PeerRequests c) (chunksSent c) (UsefulChunksReceived c) (post c)
    (peerTouchedPieces c) (goodPiecesDirtied c) (badPiecesDirtied c)
    (metadataRequests c).
Definition set_PeerRequests (v : gset request) (c : connection) : connection :=
  mkConnection (PeerID c) (remoteIP c) (closed c) (t c) (Choked c)
    (PeerInterested c) v (chunksSent c) (UsefulChunksReceived c) (post c)
    (peerTouchedPieces c) (goodPiecesDirtied c) (badPiecesDirtied c)
    (metadataRequests c).
Definition set_chunksSent (v : Z) (c : connection) : connection :=
  mkConnection (PeerID c) (remoteIP c) (closed c) (t c) (Choked c)
    (PeerInterested c) (PeerRequests c) v (UsefulChunksReceived c) (post c)
    (peerTouchedPieces c) (goodPiecesDirtied c) (badPiecesDirtied c)
    (metadataRequests c).
Definition set_UsefulChunksReceived (v : Z) (c : connection) : connection :=
  mkConnection (PeerID c) (remoteIP c) (closed c) (t c) (Choked c)
    (PeerInterested c) (PeerRequests c) (chunksSent c) v (post c)
    (peerTouchedPieces c) (goodPiecesDirtied c) (badPiecesDirtied c)
    (metadataRequests c).
Definition set_post (v : list pp.Message) (c : connection) : connection :=
  mkConnection (PeerID c) (remoteIP c) (closed c) (t c) (Choked c)
    (PeerInterested c) (PeerRequests c) (chunksSent c)
    (UsefulChunksReceived c) v (peerTouchedPieces c) (goodPiecesDirtied c)
    (badPiecesDirtied c) (metadataRequests c).
Definition set_peerTouchedPieces (v : gset Z) (c : connection) : connection :=
  mkConnection (PeerID c) (remoteIP c) (closed c) (t c) (Choked c)
    (PeerInterested c) (PeerRequests c) (chunksSent c)
    (UsefulChunksReceived c) (post c) v (goodPiecesDirtied c)
    (badPiecesDirtied c) (metadataRequests c).
Definition set_goodPiecesDirtied (v : Z) (c : connection) : connection :=
  mkConnection (PeerID c) (remoteIP c) (closed c) (t c) (Choked c)
    (PeerInterested c) (PeerRequests c) (chunksSent c)
    (UsefulChunksReceived c) (post c) (peerTouchedPieces c) v
    (badPiecesDirtied c) (metadataRequests c).
Definition set_badPiecesDirtied (v : Z) (c : connection) : connection :=
  mkConnection (PeerID c) (remoteIP c) (closed c) (t c) (Choked c)
    (PeerInterested c) (PeerRequests c) (chunksSent c)
    (UsefulChunksReceived c) (post c) (peerTouchedPieces c)
    (goodPiecesDirtied c) v (metadataRequests c).
Definition set_metadataRequests (v : list bool) (c : connection) : connection :=
  mkConnection (PeerID c) (remoteIP c) (closed c) (t c) (Choked c)
    (PeerInterested c) (PeerRequests c) (chunksSent c)
    (UsefulChunksReceived c) (post c) (peerTouchedPieces c)
    (goodPiecesDirtied c) (badPiecesDirtied c) v.

(** Modelled from the spec: [connection.Post] is declared outside
    [client.go].  The spec has a per-connection writer that drains a post
    queue; posting appends the message to that queue. *)
Definition Post (msg : pp.Message) (c : connection) : connection :=
  set_post (post c ++ [msg]) c.

(** Modelled from the spec: [connection.Choke] is declared outside
    [client.go].  The spec keeps a choked flag per side, has the
    peer-requests set empty while we choke, and has a Choke message follow
    the decision to choke.  A call that finds the peer already choked
    changes nothing. *)
Definition Choke (c : connection) : connection :=
  if Choked c then c
  else set_Choked true (set_PeerRequests ∅ (Post pp.Choke c)).

(** Modelled from the spec: [connection.Unchoke] is declared outside
    [client.go].  It clears the choked flag and announces it; a call that
    finds the peer already unchoked changes nothing. *)
Definition Unchoke (c : connection) : connection :=
  if Choked c then set_Choked false (Post pp.Unchoke c) else c.

Section Upload.

(** [cl.config.NoUpload] *)
Variable NoUpload : bool.
(** [t.seeding()] and [t.connHasWantedPieces(c)], both declared outside
    [client.go]; [upload] reads each once, before its loop. *)
Variable seeding : bool.
Variable connHasWantedPieces : connection -> bool.
(** [t.info.Piece(i).Offset()] *)
Variable pieceOffset : Z -> Z.
(** [t.readAt(b, off)] for a buffer of the given length: the bytes read
    (their number is the [n] of the source) and the error. *)
Variable readAt : Z -> Z -> list byte * option error.
(** The key that [for r := range c.PeerRequests] yields first.  Go leaves
    the iteration order of a map unspecified: the choice is any index
    into the elements of the set. *)
Variable rangeChoice : gset request -> nat.

Definition rangeFirst (s : gset request) : option request :=
  elements s !! (rangeChoice s mod length (elements s))%nat.

(** [func (cl *Client) sendChunk(t, c, r) error] *)
Definition sendChunk (c : connection) (r : request)
  : outcome (connection * option error) :=
  let '(b, err) := readAt (Length r) (pieceOffset (Index r) + Begin r) in
  if negb (len b =? Length r) then
    match err with
    | None => Panics "expected error"
    | Some e => Returns (c, Some e)
    end
  else
    let c := Post (pp.Piece (Index r) (Begin r) b) c in
    let c := set_chunksSent (chunksSent c + 1) c in
    Returns (c, None).

(** The condition of the loop labelled [another]: the torrent is seeding,
    or the peer has been sent fewer than six chunks more than it gave. *)
Definition window (c : connection) : bool :=
  seeding || (chunksSent c <? UsefulChunksReceived c + 6).

(** The [Piece] message that answers a request. *)
Definition pieceFor (r : request) : pp.Message :=
  pp.Piece (Index r) (Begin r)
           (readAt (Length r) (pieceOffset (Index r) + Begin r)).1.

(** The [Piece] messages of a post queue. *)
Definition isPiece (m : pp.Message) : bool :=
  match m with pp.Piece _ _ _ => true | _ => false end.

Definition pieceMessages (q : list pp.Message) : list pp.Message :=
  List.filter isPiece q.

(** The loop labelled [another] of [upload], with the [c.Choke()] that
    follows it.  Every pass that does not leave the loop removes one
    request, so a pass per queued request and one more are enough;
    [None] is a loop that would need more. *)
Fixpoint uploadLoop (fuel : nat) (c : connection)
  : option (outcome connection) :=
  match fuel with
  | O => None
  | S fuel =>
    if window c then
      let c := Unchoke c in
      match rangeFirst (PeerRequests c) with
      | None => Some (Returns c)                        (* return *)
      | Some r =>
        match sendChunk c r with
        | Panics msg => Some (Panics msg)
        | Returns (c, Some err) => Some (Returns (Choke c)) (* break another *)
        | Returns (c, None) =>
          uploadLoop fuel (set_PeerRequests (PeerRequests c ∖ {[r]}) c)
        end
      end
    else Some (Returns (Choke c))
  end.

(** [func (cl *Client) upload(t *Torrent, c *connection)] *)
Definition upload (c : connection) : option (outcome connection) :=
  if NoUpload then Some (Returns c)
  else if negb (PeerInterested c) then Some (Returns c)
  else if negb seeding && negb (connHasWantedPieces c) then Some (Returns c)
  else uploadLoop (S (size (PeerRequests c))) c.

(** The requests [served] are what successive [range] statements over the
    set [s] yield first, each request being removed before the next
    statement. *)
Fixpoint rangeOrder (s : gset request) (served : list request) : Prop :=
  match served with
  | [] => True
  | r :: served => rangeFirst s = Some r /\ rangeOrder (s ∖ {[r]}) served
  end.

(** What a run of the loop has done between [c] and [c'] when it served
    the requests [served], in that order: they were distinct queued
    requests, each was served while the loop condition held, each added
    one to the chunks sent and one [Piece] message to the post queue, none
    of them is queued any more, and they were taken in the order of the
    map's iteration. *)
Definition uploaded (c c' : connection) (served : list request) : Prop :=
  NoDup served /\
  (forall r, r ∈ served -> r ∈ PeerRequests c) /\
  (forall i, 0 <= i < len served ->
             seeding = true \/
             chunksSent c + i < UsefulChunksReceived c + 6) /\
  chunksSent c' = chunksSent c + len served /\
  UsefulChunksReceived c' = UsefulChunksReceived c /\
  pieceMessages (post c')
  = pieceMessages (post c) ++ (pieceFor <$> served) /\
  (forall r, r ∈ PeerRequests c' -> r ∈ PeerRequests c /\ r ∉ served) /\
  rangeOrder (PeerRequests c) served.

(** How a run of the loop ends: with every request served and the peer
    unchoked; or with the peer choked because the loop condition does not
    hold any more; or with the peer choked because reading a queued
    request failed. *)
Inductive ending (c c' : connection) (served : list request) : Prop :=
  | all_served :
      Choked c' = false ->
      PeerRequests c' = ∅ ->
      (forall r, r ∈ PeerRequests c -> r ∈ served) ->
      window c' = true ->
      ending c c' served
  | window_exhausted :
      Choked c' = true ->
      window c' = false ->
      ending c c' served
  | read_failed (r : request) (err : error) :
      Choked c' = true ->
      r ∈ PeerRequests c ->
      r ∉ served ->
      (readAt (Length r) (pieceOffset (Index r) + Begin r)).2 = Some err ->
      len (readAt (Length r) (pieceOffset (Index r) + Begin r)).1
      <> Length r ->
      ending c c' served.

(** Counters of package-level expvars that the loop bumps. *)
Record counters : Type := mkCounters {
  requestsReceivedForMissingPieces : Z
}.

(** [t.havePiece(index)], declared outside [client.go]. *)
Variable havePiece : Z -> bool.

(** The [case pp.Request:] arm of [connectionLoop] for a message with the
    given index, begin and length.  The error is the [err] that the loop
    tests after the switch: a non-nil one ends the connection. *)
Definition gotRequest (c : connection) (ctr : counters)
    (index begin length : Z)
  : option (outcome (connection * counters * option error)) :=
  if Choked c then Some (Returns (c, ctr, None))
  else if negb (PeerInterested c) then
    Some (Returns (c, ctr, Some ErrNotInterested))
  else if negb (havePiece index) then
    Some (Returns
            (c, mkCounters (requestsReceivedForMissingPieces ctr + 1),
             Some ErrMissingPiece))
  else
    let c :=
      set_PeerRequests ({[newRequest index begin length]} ∪ PeerRequests c)
                       c in
    match upload c with
    | None => None
    | Some (Panics msg) => Some (Panics msg)
    | Some (Returns c) => Some (Returns (c, ctr, None))
    end.

End Upload.

(** *** Dialling *)

Section Dial.

(** [minDialTimeout], a [time.Duration] constant declared outside
    [client.go]. *)
Variable minDialTimeout : Z.

(** [func reducedDialTimeout(max time.Duration, halfOpenLimit int,
    pendingPeers int) (ret time.Duration)].  Both divisions are Go's
    integer division, which truncates and panics on a zero divisor. *)
Definition reducedDialTimeout (max halfOpenLimit pendingPeers : Z)
  : outcome Z :=
  if halfOpenLimit =? 0 then Panics "integer divide by zero"
  else
    let d := wrap64 (Z.quot (wrap64 (pendingPeers + halfOpenLimit))
                            halfOpenLimit) in
    if d =? 0 then Panics "integer divide by zero"
    else
      let ret := wrap64 (Z.quot max d) in
      Returns (if ret <? minDialTimeout then minDialTimeout else ret).

(** The timeout as the specification words it: [max] over the ceiling of
    [(pendingPeers + halfOpenLimit) / halfOpenLimit], and not below the
    floor. *)
Definition ceilDiv (a b : Z) : Z := (a + b - 1) / b.

Definition specDialTimeout (max halfOpenLimit pendingPeers : Z) : Z :=
  Z.max minDialTimeout
        (max / ceilDiv (pendingPeers + halfOpenLimit) halfOpenLimit).

End Dial.

(** *** Torrents and their connections *)

(** A [*connection]. *)
Abbreviation connRef := nat.

(** The connection objects, by address.  Every address holds an object, as
    every non-nil Go pointer does. *)
Abbreviation connHeap := (connRef -> connection).

(** The fields of [piece] that [client.go] uses. *)
Record piece : Type := mkPiece {
  Hash : string;
  EverHashed : bool;
  Hashing : bool;
  QueuedForHash : bool
}.

Definition set_EverHashed (v : bool) (p : piece) : piece :=
  mkPiece (Hash p) v (Hashing p) (QueuedForHash p).

(** A Go slice: its elements, and the elements of its backing array
    between its length and its capacity. *)
Record goSlice (A : Type) : Type := mkSlice {
  elems : list A;
  spare : list A
}.
Arguments mkSlice {A} _ _.
Arguments elems {A} _.
Arguments spare {A} _.

(** [cap(s)] *)
Definition cap {A} (s : goSlice A) : Z := len (elems s) + len (spare s).

(** The fields of [Torrent] that the functions below read or write. *)
Record Torrent : Type := mkTorrent {
  infoHash : string;                     (* metainfo.Hash, [20]byte *)
  displayName : string;
  info : option (list byte);             (* the info bytes, once known *)
  chunkSize : Z;
  Trackers : list (list string);         (* tiers of announce URLs *)
  conns : list connRef;
  pieces : list piece;
  metadataBytes : goSlice byte;
  metadataCompletedChunks : list bool
}.

Definition set_displayName (v : string) (x : Torrent) : Torrent :=
  mkTorrent (infoHash x) v (info x) (chunkSize x) (Trackers x) (conns x)
    (pieces x) (metadataBytes x) (metadataCompletedChunks x).
Definition set_info (v : option (list byte)) (x : Torrent) : Torrent :=
  mkTorrent (infoHash x) (displayName x) v (chunkSize x) (Trackers x)
    (conns x) (pieces x) (metadataBytes x) (metadataCompletedChunks x).
Definition set_chunkSize (v : Z) (x : Torrent) : Torrent :=
  mkTorrent (infoHash x) (displayName x) (info x) v (Trackers x) (conns x)
    (pieces x) (metadataBytes x) (metadataCompletedChunks x).
Definition set_Trackers (v : list (list string)) (x : Torrent) : Torrent :=
  mkTorrent (infoHash x) (displayName x) (info x) (chunkSize x) v (conns x)
    (pieces x) (metadataBytes x) (metadataCompletedChunks x).
Definition set_conns (v : list connRef) (x : Torrent) : Torrent :=
  mkTorrent (infoHash x) (displayName x) (info x) (chunkSize x) (Trackers x)
    v (pieces x) (metadataBytes x) (metadataCompletedChunks x).
Definition set_pieces (v : list piece) (x : Torrent) : Torrent :=
  mkTorrent (infoHash x) (displayName x) (info x) (chunkSize x) (Trackers x)
    (conns x) v (metadataBytes x) (metadataCompletedChunks x).

(** [s[i]] for a Go [int] index: [None] is the index-out-of-range panic. *)
Definition index {A} (l : list A) (i : Z) : option A :=
  if i <? 0 then None else l !! Z.to_nat i.

(** Package-level expvar counters. *)
Record expvars : Type := mkExpvars {
  pieceHashedCorrect : Z;
  pieceHashedNotCorrect : Z;
  duplicateClientConns : Z
}.

(** Modelled from the spec: [Torrent.deleteConnection] is declared outside
    [client.go].  The spec has each torrent own its connection list and has
    a connection leave it on eviction or drop: the call takes that
    connection object out of the list. *)
Definition deleteConnection (x : Torrent) (c : connRef) : Torrent :=
  set_conns (filter (fun c0 => c0 <> c) (conns x)) x.

(** Modelled from the spec: [connection.Close] is declared outside
    [client.go]; it sets the connection's closed event. *)
Definition Close (h : connHeap) (c : connRef) : connHeap :=
  <[c := set_closed true (h c)]> h.

(** Modelled from the spec: [Torrent.dropConnection] is declared outside
    [client.go].  A dropped connection is closed and leaves the torrent's
    connection list. *)
Definition dropConnection (h : connHeap) (x : Torrent) (c : connRef)
  : connHeap * Torrent :=
  (Close h c, deleteConnection x c).

Section AddConnection.

(** [socketsPerTorrent], a constant declared outside [client.go]. *)
Variable socketsPerTorrent : Z.
(** [cl.closed.IsSet()] *)
Variable clientClosed : bool.
(** [t.seeding()], [t.needData()] and [t.worstBadConn(cl)], all declared
    outside [client.go]. *)
Variable seeding needData : Torrent -> bool.
Variable worstBadConn : connHeap -> Torrent -> option connRef.

(** [func (cl *Client) wantConns(t *Torrent) bool] *)
Definition wantConns (h : connHeap) (x : Torrent) : bool :=
  if negb (seeding x) && negb (needData x) then false
  else if len (conns x) <? socketsPerTorrent then true
  else bool_decide (worstBadConn h x <> None).

(** The [for _, c0 := range t.conns] loop of [addConnection]: is there a
    connection with the peer id of [c] already? *)
Definition samePeerIDConn (h : connHeap) (x : Torrent) (c : connRef)
  : bool :=
  existsb (fun c0 => bool_decide (PeerID (h c) = PeerID (h c0))) (conns x).

(** [func (cl *Client) addConnection(t *Torrent, c *connection) bool] *)
Definition addConnection (h : connHeap) (x : Torrent) (ev : expvars)
    (c : connRef) : outcome (bool * connHeap * Torrent * expvars) :=
  if clientClosed then Returns (false, h, x, ev)
  else if negb (wantConns h x) then Returns (false, h, x, ev)
  else if samePeerIDConn h x c then
    Returns (false, h, x,
             mkExpvars (pieceHashedCorrect ev) (pieceHashedNotCorrect ev)
                       (duplicateClientConns ev + 1))
  else
    let evict :=
      if len (conns x) >=? socketsPerTorrent then
        match worstBadConn h x with
        | None => None
        | Some w => Some (Close h w, deleteConnection x w)
        end
      else Some (h, x) in
    match evict with
    | None => Returns (false, h, x, ev)
    | Some (h, x) =>
      if len (conns x) >=? socketsPerTorrent
      then Panics "len(t.conns)"
      else
        let x := set_conns (conns x ++ [c]) x in
        let h := <[c := set_t (Some (infoHash x)) (h c)]> h in
        Returns (true, h, x, ev)
    end.

(** What can happen to one torrent's connection list and to the
    connection objects: a call of [addConnection] that returns (whatever
    its answer), a connection leaving the list through [deleteConnection]
    or [dropConnection], and a write to a connection object: any write to
    an object that is not in the list (a new connection being set up), and
    for an object in the list any write that keeps its peer id (the
    handshake sets [PeerID] before [addConnection] is called, and nothing
    in [client.go] sets it afterwards). *)
Inductive connStep : connHeap * Torrent -> connHeap * Torrent -> Prop :=
  | step_add h x ev c b h' x' ev' :
      addConnection h x ev c = Returns (b, h', x', ev') ->
      connStep (h, x) (h', x')
  | step_delete h x c :
      connStep (h, x) (h, deleteConnection x c)
  | step_drop h x c :
      connStep (h, x) (dropConnection h x c)
  | step_write h x c v :
      (c ∈ conns x -> PeerID v = PeerID (h c)) ->
      connStep (h, x) (<[c := v]> h, x).

(** A torrent starts without connections. *)
Inductive reachable : connHeap * Torrent -> Prop :=
  | reach_new h x : conns x = [] -> reachable (h, x)
  | reach_step s s' : reachable s -> connStep s s' -> reachable s'.

End AddConnection.

(** The peer ids of a torrent's connections, in list order. *)
Definition peerIDs (h : connHeap) (x : Torrent) : list string :=
  (fun c => PeerID (h c)) <$> conns x.

(** *** The piece verifier's verdict *)

(** [func (cl *Client) reapPieceTouches(t *Torrent, piece int)
    (ret []*connection)], over the connections that are left to visit. *)
Fixpoint reapPieceTouchesFrom (h : connHeap) (cs : list connRef) (piece : Z)
    (ret : list connRef) : list connRef * connHeap :=
  match cs with
  | [] => (ret, h)
  | c :: cs =>
    if bool_decide (piece ∈ peerTouchedPieces (h c)) then
      let h := <[c := set_peerTouchedPieces
                        (peerTouchedPieces (h c) ∖ {[piece]}) (h c)]> h in
      reapPieceTouchesFrom h cs piece (ret ++ [c])
    else reapPieceTouchesFrom h cs piece ret
  end.

Definition reapPieceTouches (h : connHeap) (x : Torrent) (piece : Z)
  : list connRef * connHeap :=
  reapPieceTouchesFrom h (conns x) piece [].

(** Everything [pieceHashed] can change: the connection objects, the
    client's banned addresses ([cl.badPeerIPs]), the torrent and the
    counters. *)
Record world : Type := mkWorld {
  heap : connHeap;
  badPeerIPs : gset string;
  torrent : Torrent;
  vars : expvars
}.

(** [func (cl *Client) banPeerIP(ip net.IP)] *)
Definition banPeerIP (w : world) (ip : string) : world :=
  mkWorld (heap w) ({[ip]} ∪ badPeerIPs w) (torrent w) (vars w).

Section PieceHashed.

(** [p.Storage().MarkComplete()] followed by
    [t.updatePieceCompletion(piece)], and [cl.pieceChanged(t, piece)]:
    they work on the storage backend, on piece priorities and on
    requests, through functions declared outside [client.go]. *)
Variable completePiece : world -> Z -> world.
Variable pieceChanged : world -> Z -> world.

(** The [for _, c := range touchers] loop of the correct branch. *)
Definition scoreGood (h : connHeap) (touchers : list connRef) : connHeap :=
  foldl (fun h c =>
           <[c := set_goodPiecesDirtied (goodPiecesDirtied (h c) + 1)
                                        (h c)]> h)
        h touchers.

(** The [for _, c := range touchers] loop of the incorrect branch. *)
Definition scoreBad (w : world) (touchers : list connRef) : world :=
  foldl (fun w c =>
           let h := <[c := set_badPiecesDirtied
                             (badPiecesDirtied (heap w c) + 1)
                             (heap w c)]> (heap w) in
           let w := banPeerIP (mkWorld h (badPeerIPs w) (torrent w)
                                       (vars w))
                              (remoteIP (h c)) in
           let '(h, x) := dropConnection (heap w) (torrent w) c in
           mkWorld h (badPeerIPs w) x (vars w))
        w touchers.

(** [func (cl *Client) pieceHashed(t *Torrent, piece int, correct bool)] *)
Definition pieceHashed (w : world) (piece : Z) (correct : bool)
  : outcome world :=
  match index (pieces (torrent w)) piece with
  | None => Panics "index out of range"
  | Some p =>
    let ev :=
      if EverHashed p then
        if correct
        then mkExpvars (pieceHashedCorrect (vars w) + 1)
                       (pieceHashedNotCorrect (vars w))
                       (duplicateClientConns (vars w))
        else mkExpvars (pieceHashedCorrect (vars w))
                       (pieceHashedNotCorrect (vars w) + 1)
                       (duplicateClientConns (vars w))
      else vars w in
    let x := set_pieces (<[Z.to_nat piece := set_EverHashed true p]>
                           (pieces (torrent w)))
                        (torrent w) in
    let '(touchers, h) := reapPieceTouches (heap w) x piece in
    let w := mkWorld h (badPeerIPs w) x ev in
    let w :=
      if correct then
        completePiece
          (mkWorld (scoreGood (heap w) touchers) (badPeerIPs w)
                   (torrent w) (vars w))
          piece
      else if negb (len touchers =? 0) then scoreBad w touchers
      else w in
    Returns (pieceChanged w piece)
  end.

End PieceHashed.

(** Two worlds that agree on everything peers are scored by: the dirtied
    counters of every connection, the banned addresses, the torrent's
    connection list and the counters. *)
Definition sameScores (w w' : world) : Prop :=
  (forall c,
     goodPiecesDirtied (heap w' c) = goodPiecesDirtied (heap w c) /\
     badPiecesDirtied (heap w' c) = badPiecesDirtied (heap w c)) /\
  badPeerIPs w' = badPeerIPs w /\
  conns (torrent w') = conns (torrent w) /\
  vars w' = vars w.

(** A connection object up to its set of touched pieces. *)
Definition untouched (c : connection) : connection :=
  set_peerTouchedPieces ∅ c.

(** *** ut_metadata *)

(** [s[lo:hi]] for Go [int] bounds on a slice [s]: the bounds are in
    range when [0 <= lo <= hi <= cap(s)], the upper one being checked
    against the capacity and not the length, and the elements past the
    length are those of the backing array.  [None] is the slice-bounds
    panic.  The result stands for its elements: what is left of the
    backing array behind them is not kept. *)
Definition slice {A} (s : goSlice A) (lo hi : Z) : option (list A) :=
  if (lo <? 0) || (hi <? lo) || (cap s <? hi) then None
  else Some (take (Z.to_nat (hi - lo))
                  (drop (Z.to_nat lo) (elems s ++ spare s))).

(** [s[i] = v] for a Go [int] index: [None] is the index-out-of-range
    panic. *)
Definition store {A} (l : list A) (i : Z) (v : A) : option (list A) :=
  if (i <? 0) || (len l <=? i) then None
  else Some (<[Z.to_nat i := v]> l).

Section Metadata.

(** [bencode.Unmarshal(payload, &d)] for [d map[string]int]; [None] is a
    decoding error. *)
Variable bdecode : list byte -> option (gmap string Z).
(** Declared outside [client.go]: [c.requestedMetadataPiece],
    [metadataPieceSize(totalSize, piece)], [t.saveMetadataPiece],
    [t.maybeMetadataCompleted], [t.haveMetadataPiece],
    [t.metadataPieceSize] and [t.newMetadataExtensionMessage]. *)
Variable requestedMetadataPiece : connection -> Z -> bool.
Variable metadataPieceSize : Z -> Z -> Z.
Variable saveMetadataPiece : Torrent -> Z -> list byte -> Torrent.
Variable maybeMetadataCompleted : Torrent -> Torrent.
Variable haveMetadataPiece : Torrent -> Z -> bool.
Variable torrentMetadataPieceSize : Torrent -> Z -> Z.
Variable newMetadataExtensionMessage :
  Torrent -> connection -> Z -> Z -> list byte -> pp.Message.

(** [d[key]] on a Go map: the zero value when the key is absent. *)
Definition at0 (d : gmap string Z) (key : string) : Z :=
  default 0 (d !! key).

(** [func (cl *Client) gotMetadataExtensionMsg(payload []byte,
    t *Torrent, c *connection) (err error)] *)
Definition gotMetadataExtensionMsg (payload : list byte) (x : Torrent)
    (c : connection) : outcome (Torrent * connection * option error) :=
  match bdecode payload with
  | None => Returns (x, c, Some ErrUnmarshal)
  | Some d =>
    match d !! "msg_type"%string with
    | None => Returns (x, c, Some ErrMissingMsgType)
    | Some msgType =>
      let piece := at0 d "piece" in
      if msgType =? pp.DataMetadataExtensionMsgType then
        if negb (requestedMetadataPiece c piece)
        then Returns (x, c, Some (ErrUnexpectedPiece piece))
        else
          match store (metadataRequests c) piece false with
          | None => Panics "index out of range"
          | Some reqs =>
            let c := set_metadataRequests reqs c in
            let begin :=
              wrap64 (len payload
                      - metadataPieceSize (at0 d "total_size") piece) in
            if (begin <? 0) || (begin >=? len payload)
            then Returns (x, c, Some (ErrBadOffset begin))
            else
              let x :=
                saveMetadataPiece x piece
                                  (drop (Z.to_nat begin) payload) in
              let c :=
                set_UsefulChunksReceived (UsefulChunksReceived c + 1) c in
              Returns (maybeMetadataCompleted x, c, None)
          end
      else if msgType =? pp.RequestMetadataExtensionMsgType then
        if negb (haveMetadataPiece x piece)
        then
          Returns
            (x,
             Post (newMetadataExtensionMessage
                     x c pp.RejectMetadataExtensionMsgType
                     (at0 d "piece") [])
                  c,
             None)
        else
          let start := wrap64 (2 ^ 14 * piece) in
          match slice (metadataBytes x) start
                      (wrap64 (start + torrentMetadataPieceSize x piece))
          with
          | None => Panics "slice bounds out of range"
          | Some b =>
            Returns
              (x,
               Post (newMetadataExtensionMessage
                       x c pp.DataMetadataExtensionMsgType piece b)
                    c,
               None)
          end
      else if msgType =? pp.RejectMetadataExtensionMsgType then
        Returns (x, c, None)
      else Returns (x, c, Some ErrUnknownMsgType)
    end
  end.

(** What an arm of the switch of [connectionLoop] leads to: the next
    pass of the loop, or the end of the connection with the value that
    the loop returns. *)
Inductive loopStep : Type :=
  | Continue
  | Return (err : option error).

(** The [case metadataExtendedId:] arm of [connectionLoop] with the tests
    of [err] that follow it: an error from a peer whose id starts with
    one of two prefixes ends the loop with a nil error, any other error
    is returned. *)
Definition gotMetadataExtended (payload : list byte) (x : Torrent)
    (c : connection) : outcome (Torrent * connection * loopStep) :=
  match gotMetadataExtensionMsg payload x c with
  | Panics msg => Panics msg
  | Returns (x, c, None) => Returns (x, c, Continue)
  | Returns (x, c, Some err) =>
    let err := ErrHandlingMetadata err in
    if String.prefix "-SD0100-" (PeerID c)
       || String.prefix "-XL0012-" (PeerID c)
    then Returns (x, c, Return None)
    else Returns (x, c, Return (Some err))
  end.

End Metadata.

(** *** Adding torrents *)

Module TorrentSpec.
(** Specifies a new torrent for adding to a client. *)
Record t : Type := mk {
  Trackers : list (list string);
  InfoHash : string;
  Info : option (list byte);       (* spec.Info.Bytes, when Info != nil *)
  DisplayName : string;
  ChunkSize : Z
}.
End TorrentSpec.

(** A [*Torrent]. *)
Abbreviation torrentRef := nat.

(** The client's table of torrents, with the [Torrent] objects that its
    pointers lead to and the next address that [newTorrent] will use. *)
Record Client : Type := mkClient {
  torrents : gmap string torrentRef;   (* map[metainfo.Hash]*Torrent *)
  objects : torrentRef -> Torrent;
  fresh : torrentRef
}.

(** [t.f(...)] for a method that updates the object behind [t]. *)
Definition update (cl : Client) (r : torrentRef) (f : Torrent -> Torrent)
  : Client :=
  mkClient (torrents cl) (<[r := f (objects cl r)]> (objects cl)) (fresh cl).

(** Modelled from the spec: tracker merging is done by [Torrent.addTrackers],
    declared outside [client.go].  The spec has the trackers of a spec merged
    with the existing ones, tier by tier: a URL the tier does not have yet is
    added to it, and a tier the torrent does not have yet is added. *)
Definition mergeTier (tier urls : list string) : list string :=
  foldl (fun acc url => if bool_decide (url ∈ acc) then acc else acc ++ [url])
        tier urls.

Fixpoint mergeTiers (old new : list (list string)) : list (list string) :=
  match new with
  | [] => old
  | urls :: new =>
    match old with
    | [] => mergeTier [] urls :: mergeTiers [] new
    | tier :: old => mergeTier tier urls :: mergeTiers old new
    end
  end.

Definition addTrackers (announceList : list (list string)) (x : Torrent)
  : Torrent :=
  set_Trackers (mergeTiers (Trackers x) announceList) x.

(** Modelled from the spec: [Torrent.SetDisplayName] is declared outside
    [client.go]; the display name is replaced. *)
Definition SetDisplayName (dn : string) (x : Torrent) : Torrent :=
  set_displayName dn x.

Section AddTorrent.

(** [defaultChunkSize], a constant declared outside [client.go]. *)
Variable defaultChunkSize : Z.
(** The checks that info bytes must pass before a torrent takes them
    (decoding, agreement with the info-hash), declared outside
    [client.go]; [None] accepts the bytes. *)
Variable checkInfoBytes : string -> list byte -> option error.
(** The pieces that an info dictionary describes. *)
Variable makePieces : list byte -> list piece.

(** Modelled from the spec: [Torrent.SetInfoBytes] is declared outside
    [client.go].  The info is set if it is not yet known, and pieces are
    created when the info becomes known; a torrent that has its info
    keeps it. *)
Definition SetInfoBytes (b : list byte) (x : Torrent)
  : Torrent * option error :=
  match info x with
  | Some _ => (x, None)
  | None =>
    match checkInfoBytes (infoHash x) b with
    | Some err => (x, Some err)
    | None => (set_pieces (makePieces b) (set_info (Some b) x), None)
    end
  end.

(** [func (cl *Client) newTorrent(ih metainfo.Hash) (t *Torrent)] *)
Definition newTorrent (ih : string) : Torrent :=
  mkTorrent ih "" None defaultChunkSize [] [] [] (mkSlice [] []) [].

(** [func (cl *Client) AddTorrentInfoHash(infoHash metainfo.Hash)
    (t *Torrent, new bool)].  The DHT announcer that is started and
    [t.updateWantPeersEvent()] act on no field kept here. *)
Definition AddTorrentInfoHash (cl : Client) (ih : string)
  : Client * torrentRef * bool :=
  match torrents cl !! ih with
  | Some r => (cl, r, false)
  | None =>
    let r := fresh cl in
    (mkClient (<[ih := r]> (torrents cl))
              (<[r := newTorrent ih]> (objects cl))
              (S r),
     r, true)
  end.

(** [func (cl *Client) AddTorrentSpec(spec *TorrentSpec)
    (t *Torrent, new bool, err error)].  [pp.Integer] is a [uint32]: the
    conversion of the chunk size keeps its low 32 bits.
    [t.maybeNewConns()] starts dials and acts on no field kept here. *)
Definition AddTorrentSpec (cl : Client) (spec : TorrentSpec.t)
  : Client * torrentRef * bool * option error :=
  let '(cl, r, new) := AddTorrentInfoHash cl (TorrentSpec.InfoHash spec) in
  let cl :=
    if bool_decide (TorrentSpec.DisplayName spec <> ""%string)
    then update cl r (SetDisplayName (TorrentSpec.DisplayName spec))
    else cl in
  let '(cl, err) :=
    match TorrentSpec.Info spec with
    | Some b =>
      let '(x, err) := SetInfoBytes b (objects cl r) in
      (update cl r (fun _ => x), err)
    | None => (cl, None)
    end in
  match err with
  | Some e => (cl, r, new, Some e)
  | None =>
    let cl :=
      if negb (TorrentSpec.ChunkSize spec =? 0)
      then update cl r (set_chunkSize (TorrentSpec.ChunkSize spec mod 2 ^ 32))
      else cl in
    let cl := update cl r (addTrackers (TorrentSpec.Trackers spec)) in
    (cl, r, new, None)
  end.

(** What [AddTorrentSpec] does to the [Torrent] object once
    [AddTorrentInfoHash] has found or made it: the statements of the
    function in their order, on the object alone. *)
Definition applySpec (spec : TorrentSpec.t) (x : Torrent)
  : Torrent * option error :=
  let x :=
    if bool_decide (TorrentSpec.DisplayName spec <> ""%string)
    then SetDisplayName (TorrentSpec.DisplayName spec) x
    else x in
  let '(x, err) :=
    match TorrentSpec.Info spec with
    | Some b => SetInfoBytes b x
    | None => (x, None)
    end in
  match err with
  | Some e => (x, Some e)
  | None =>
    let x :=
      if negb (TorrentSpec.ChunkSize spec =? 0)
      then set_chunkSize (TorrentSpec.ChunkSize spec mod 2 ^ 32) x
      else x in
    (addTrackers (TorrentSpec.Trackers spec) x, None)
  end.

(** One tier list holds another: every URL of tier [i] of [small] is in
    tier [i] of [big]. *)
Definition tiersWithin (small big : list (list string)) : Prop :=
  forall i urls,
    small !! i = Some urls ->
    exists tier, big !! i = Some tier /\ forall url, url ∈ urls -> url ∈ tier.

End AddTorrent.

(** *** Dropping torrents *)

(** The error of [dropTorrent]. *)
Inductive dropError : Type :=
  | ErrNoSuchTorrent.                     (* "no such torrent" *)

Section DropTorrent.

(** [t.close()], declared outside [client.go]: what it leaves of the
    torrent object, and its error. *)
Variable close : Torrent -> Torrent * option error.

(** [func (cl *Client) dropTorrent(infoHash metainfo.Hash) (err error)] *)
Definition dropTorrent (cl : Client) (ih : string)
  : outcome (Client * option dropError) :=
  match torrents cl !! ih with
  | None => Returns (cl, Some ErrNoSuchTorrent)
  | Some r =>
    let '(x, err) := close (objects cl r) in
    let cl := update cl r (fun _ => x) in
    match err with
    | Some e => Panics "t.close()"
    | None =>
      Returns (mkClient (delete ih (torrents cl)) (objects cl) (fresh cl),
               None)
    end
  end.

End DropTorrent.

(** [func (cl *Client) CheckExistsInfoHash(infoHash metainfo.Hash)
    (ok bool)] *)
Definition CheckExistsInfoHash (cl : Client) (ih : string) : bool :=
  bool_decide (is_Some (torrents cl !! ih)).

(** [func (cl *Client) Torrent(ih metainfo.Hash) (t *Torrent, ok bool)]:
    [None] is the nil pointer with [ok] false. *)
Definition lookupTorrent (cl : Client) (ih : string) : option torrentRef :=
  torrents cl !! ih.

(** *** Small helpers *)

(** [func firstNonEmptyString(ss ...string) string] *)
Fixpoint firstNonEmptyString (ss : list string) : string :=
  match ss with
  | [] => ""
  | s :: ss =>
    if bool_decide (s <> ""%string) then s else firstNonEmptyString ss
  end.

(** [func shuffleTier(tier trackerTier)], for a source of random numbers
    that answers [Intn n] to [mathRand.Intn(n)]: the loop calls it once
    for each of the arguments 1, 2, ..., [len(tier)].  An index outside
    the slice is the index-out-of-range panic. *)
Fixpoint shuffleFrom (Intn : Z -> Z) (n i : nat) (tier : list string)
  : outcome (list string) :=
  match n with
  | O => Returns tier
  | S n =>
    let j := Intn (Z.of_nat i + 1) in
    match tier !! i, index tier j with
    | Some a, Some b =>
      shuffleFrom Intn n (S i) (<[Z.to_nat j := a]> (<[i := b]> tier))
    | _, _ => Panics "index out of range"
    end
  end.

Definition shuffleTier (Intn : Z -> Z) (tier : list string)
  : outcome (list string) :=
  shuffleFrom Intn (length tier) O tier.

(** *** Which peers are turned away *)

(** An [iplist.Range]. *)
Record Range : Type := mkRange {
  First : string;
  Last : string;
  Description : string
}.

Definition zeroRange : Range := mkRange "" "" "".

Definition ipv6BlockRange : Range := mkRange "" "" "non-IPv4 address".

Module Peer.
(** A peer as trackers, the DHT and peer exchange report it.  The address
    is carried as its [String()]. *)
Record t : Type := mk {
  Id : string;
  IP : string;
  Port : Z;
  Source : string;
  SupportsEncryption : bool
}.
End Peer.

Section BadPeers.

(** [net.JoinHostPort(ip.String(), s)] for the decimal [s] of the port. *)
Variable hostPort : string -> Z -> string.
(** [ip.To4()]: [None] is nil, an address that has no four-byte form. *)
Variable To4 : string -> option string.
(** [cl.ipBlockList]: [None] is a nil [iplist.Ranger], otherwise its
    [Lookup]. *)
Variable ipBlockList : option (string -> Range * bool).

(** [func (cl *Client) ipBlockRange(ip net.IP) (r iplist.Range,
    blocked bool)] *)
Definition ipBlockRange (ip : string) : Range * bool :=
  match ipBlockList with
  | None => (zeroRange, false)
  | Some lookup =>
    match To4 ip with
    | None => (ipv6BlockRange, true)
    | Some ip4 => lookup ip4
    end
  end.

(** [func (cl *Client) dopplegangerAddr(addr string) bool] *)
Definition dopplegangerAddr (dopplegangerAddrs : gset string)
    (addr : string) : bool :=
  bool_decide (addr ∈ dopplegangerAddrs).

(** [func (cl *Client) badPeerIPPort(ip net.IP, port int) bool], on the
    client's [dopplegangerAddrs] and [badPeerIPs]. *)
Definition badPeerIPPort (dopplegangerAddrs bad : gset string)
    (ip : string) (port : Z) : bool :=
  if port =? 0 then true
  else if dopplegangerAddr dopplegangerAddrs (hostPort ip port) then true
  else if (ipBlockRange ip).2 then true
  else if bool_decide (ip ∈ bad) then true
  else false.

(** The peers that a torrent knows and the dials it has started:
    [t.peers], [t.halfOpen], and the [outgoingConnection] goroutines that
    have not yet called [noLongerHalfOpen], oldest first, each with its
    address and peer source. *)
Record dialing : Type := mkDialing {
  peers : gmap (string * Z) Peer.t;       (* map[peersKey]Peer *)
  halfOpen : gset string;
  dials : list (string * string)
}.

(** [t.addPeer(p, cl)], declared outside [client.go]. *)
Variable addPeer : dialing -> Peer.t -> dialing.

(** [func (cl *Client) addPeers(t *Torrent, peers []Peer)] *)
Definition addPeers (dopplegangerAddrs bad : gset string) (d : dialing)
    (ps : list Peer.t) : dialing :=
  foldl (fun d p =>
           if badPeerIPPort dopplegangerAddrs bad (Peer.IP p) (Peer.Port p)
           then d
           else addPeer d p)
        d ps.

(** [cl.peerID] and [cl.halfOpenLimit] *)
Variable clientPeerID : string.
Variable halfOpenLimit : Z.
(** [t.addrActive(addr)], declared outside [client.go]. *)
Variable addrActive : dialing -> string -> bool.

(** [func (cl *Client) initiateConn(peer Peer, t *Torrent)] *)
Definition initiateConn (dopplegangerAddrs bad : gset string)
    (peer : Peer.t) (d : dialing) : dialing :=
  if bool_decide (Peer.Id peer = clientPeerID) then d
  else if badPeerIPPort dopplegangerAddrs bad (Peer.IP peer)
                        (Peer.Port peer) then d
  else
    let addr := hostPort (Peer.IP peer) (Peer.Port peer) in
    if addrActive d addr then d
    else mkDialing (peers d) ({[addr]} ∪ halfOpen d)
                   (dials d ++ [(addr, Peer.Source peer)]).

(** The entry that [for k, p = range t.peers { break }] leaves in [k] and
    [p]: any entry of the map, or the zero values when the map is
    empty. *)
Variable peerChoice : gmap (string * Z) Peer.t -> nat.

Definition zeroPeer : Peer.t := Peer.mk "" "" 0 "" false.

Definition rangePeer (m : gmap (string * Z) Peer.t)
  : (string * Z) * Peer.t :=
  default (("", 0), zeroPeer)
          (map_to_list m !! (peerChoice m mod length (map_to_list m))%nat).

(** The loop of [openNewConns].  [wants] is [cl.wantConns(t)], which
    reads the torrent's connections; the loop changes none of them.  Each
    pass that does not return takes a peer out of [t.peers], so a pass
    per peer and one more are enough; [None] is a loop that would need
    more. *)
Fixpoint openNewConnsLoop (fuel : nat) (wants : bool)
    (dopplegangerAddrs bad : gset string) (d : dialing) : option dialing :=
  match fuel with
  | O => None
  | S fuel =>
    if Z.of_nat (size (peers d)) =? 0 then Some d
    else if negb wants then Some d
    else if Z.of_nat (size (halfOpen d)) >=? halfOpenLimit then Some d
    else
      let '(k, p) := rangePeer (peers d) in
      let d := mkDialing (delete k (peers d)) (halfOpen d) (dials d) in
      openNewConnsLoop fuel wants dopplegangerAddrs bad
                       (initiateConn dopplegangerAddrs bad p d)
  end.

(** [func (cl *Client) openNewConns(t *Torrent)].  The deferred
    [t.updateWantPeersEvent()] acts on no field kept here. *)
Definition openNewConns (wants : bool) (dopplegangerAddrs bad : gset string)
    (d : dialing) : option dialing :=
  openNewConnsLoop (S (size (peers d))) wants dopplegangerAddrs bad d.

(** [func (cl *Client) noLongerHalfOpen(t *Torrent, addr string)] *)
Definition noLongerHalfOpen (wants : bool)
    (dopplegangerAddrs bad : gset string) (d : dialing) (addr : string)
  : option (outcome dialing) :=
  if bool_decide (addr ∈ halfOpen d)
  then Returns <$> openNewConns wants dopplegangerAddrs bad
         (mkDialing (peers d) (halfOpen d ∖ {[addr]}) (dials d))
  else Some (Panics "invariant broken").

(** What a run of [openNewConns] has done between [d] and [d']: peers
    were taken out of [t.peers] and none added; dials were started, one
    for each address that became half-open, each for a peer that was
    taken out of [t.peers], is not this client and is not a bad peer; and
    the half-open addresses did not grow beyond the limit (or beyond what
    they were). *)
Definition opened (dopplegangerAddrs bad : gset string) (d d' : dialing)
  : Prop :=
  peers d' ⊆ peers d /\
  exists new : list (string * string),
    dials d' = dials d ++ new /\
    halfOpen d' = list_to_set new.*1 ∪ halfOpen d /\
    Z.of_nat (size (halfOpen d'))
    <= Z.max (Z.of_nat (size (halfOpen d))) halfOpenLimit /\
    forall addr src, (addr, src) ∈ new ->
      exists k p,
        peers d !! k = Some p /\ peers d' !! k = None /\
        addr = hostPort (Peer.IP p) (Peer.Port p) /\
        src = Peer.Source p /\
        Peer.Id p <> clientPeerID /\
        badPeerIPPort dopplegangerAddrs bad (Peer.IP p) (Peer.Port p)
        = false.

(** What happens to a torrent's dials: a call of [openNewConns]; an
    [outgoingConnection] goroutine reaching its call of
    [noLongerHalfOpen] with the address it was started for; and a change
    of [t.peers] alone (peers being added). *)
Inductive dialStep (dopplegangerAddrs bad : gset string)
  : dialing -> outcome dialing -> Prop :=
  | dial_open wants d d' :
      openNewConns wants dopplegangerAddrs bad d = Some d' ->
      dialStep dopplegangerAddrs bad d (Returns d')
  | dial_done wants d before addr ps after out :
      dials d = before ++ (addr, ps) :: after ->
      noLongerHalfOpen wants dopplegangerAddrs bad
        (mkDialing (peers d) (halfOpen d) (before ++ after)) addr
      = Some out ->
      dialStep dopplegangerAddrs bad d out
  | dial_peers d ps :
      dialStep dopplegangerAddrs bad d
               (Returns (mkDialing ps (halfOpen d) (dials d))).

(** A torrent starts with no dial under way. *)
Inductive dialReachable : dialing -> Prop :=
  | dial_new ps : dialReachable (mkDialing ps ∅ [])
  | dial_step dopplegangerAddrs bad d d' :
      dialReachable d ->
      dialStep dopplegangerAddrs bad d (Returns d') ->
      dialReachable d'.

End BadPeers.

(** *** Queueing and running piece checks *)

Definition set_Hashing (v : bool) (p : piece) : piece :=
  mkPiece (Hash p) (EverHashed p) v (QueuedForHash p).
Definition set_QueuedForHash (v : bool) (p : piece) : piece :=
  mkPiece (Hash p) (EverHashed p) (Hashing p) v.

(** A write through [p := &t.pieces[i]]. *)
Definition setPiece (x : Torrent) (i : Z) (p : piece) : Torrent :=
  set_pieces (<[Z.to_nat i := p]> (pieces x)) x.

(** [func (cl *Client) queuePieceCheck(t *Torrent, pieceIndex int)]: the
    torrent it leaves, and whether it started a [verifyPiece] goroutine.
    [t.publishPieceChange] acts on no field kept here. *)
Definition queuePieceCheck (x : Torrent) (pieceIndex : Z)
  : outcome (Torrent * bool) :=
  match index (pieces x) pieceIndex with
  | None => Panics "index out of range"
  | Some p =>
    if QueuedForHash p then Returns (x, false)
    else Returns (setPiece x pieceIndex (set_QueuedForHash true p), true)
  end.

Section Verify.

(** [t.pieceComplete(piece)], [t.storage == nil] and [t.closed.IsSet()],
    all declared outside [client.go]. *)
Variable pieceComplete : Torrent -> Z -> bool.
Variable storageNil : Torrent -> bool.
Variable torrentClosed : Torrent -> bool.

(** [func (cl *Client) queueFirstHash(t *Torrent, piece int)] *)
Definition queueFirstHash (x : Torrent) (i : Z)
  : outcome (Torrent * bool) :=
  match index (pieces x) i with
  | None => Panics "index out of range"
  | Some p =>
    if EverHashed p || Hashing p || QueuedForHash p || pieceComplete x i
    then Returns (x, false)
    else queuePieceCheck x i
  end.

(** [verifyPiece] from taking the client lock to giving it up for the
    hashing.  [None] is the goroutine waiting in [cl.event.Wait()];
    otherwise the torrent it leaves, and whether it goes on to hash the
    piece.  [t.updatePiecePriority] and [t.publishPieceChange] act on no
    field kept here. *)
Definition verifyPieceBegin (x : Torrent) (i : Z)
  : outcome (option (Torrent * bool)) :=
  match index (pieces x) i with
  | None => Panics "index out of range"
  | Some p =>
    if Hashing p || storageNil x then Returns None
    else
      let p := set_QueuedForHash false p in
      let x := setPiece x i p in
      if torrentClosed x || pieceComplete x i
      then Returns (Some (x, false))
      else Returns (Some (setPiece x i (set_Hashing true p), true))
  end.

Variable completePiece : world -> Z -> world.
Variable pieceChanged : world -> Z -> world.

(** [verifyPiece] from taking the lock again, with the digest [sum] that
    [t.hashPiece] computed, to its end. *)
Definition verifyPieceEnd (w : world) (i : Z) (sum : string)
  : outcome world :=
  match index (pieces (torrent w)) i with
  | None => Panics "index out of range"
  | Some p =>
    pieceHashed completePiece pieceChanged
      (mkWorld (heap w) (badPeerIPs w)
               (setPiece (torrent w) i (set_Hashing false p)) (vars w))
      i (bool_decide (sum = Hash p))
  end.

(** The [verifyPiece] goroutines of one piece: those that have not yet
    passed the wait at their start, and those that are hashing. *)
Record verifiers : Type := mkVerifiers { waiting : nat; hashing : nat }.

(** The two flags of piece [i] are the same in both torrents. *)
Definition sameFlags (i : Z) (x x' : Torrent) : Prop :=
  forall p, index (pieces x) i = Some p ->
    exists p', index (pieces x') i = Some p' /\
               Hashing p' = Hashing p /\
               QueuedForHash p' = QueuedForHash p.

(** What happens to piece [i] and its verifiers: a call of
    [queuePieceCheck] or [queueFirstHash], which may start a verifier; a
    waiting verifier getting past its wait; a hashing verifier finishing;
    and anything else, which leaves the two flags of the piece alone
    (nothing else in [client.go] writes them). *)
Inductive verifyStep (i : Z)
  : world * verifiers -> world * verifiers -> Prop :=
  | verify_queue w v x' started :
      queuePieceCheck (torrent w) i = Returns (x', started) ->
      verifyStep i (w, v)
        (mkWorld (heap w) (badPeerIPs w) x' (vars w),
         mkVerifiers (waiting v + (if started then 1 else 0))%nat
                     (hashing v))
  | verify_first w v x' started :
      queueFirstHash (torrent w) i = Returns (x', started) ->
      verifyStep i (w, v)
        (mkWorld (heap w) (badPeerIPs w) x' (vars w),
         mkVerifiers (waiting v + (if started then 1 else 0))%nat
                     (hashing v))
  | verify_begin w v x' goes :
      (0 < waiting v)%nat ->
      verifyPieceBegin (torrent w) i = Returns (Some (x', goes)) ->
      verifyStep i (w, v)
        (mkWorld (heap w) (badPeerIPs w) x' (vars w),
         mkVerifiers (waiting v - 1)%nat
                     (hashing v + (if goes then 1 else 0))%nat)
  | verify_end w v sum w' :
      (0 < hashing v)%nat ->
      verifyPieceEnd w i sum = Returns w' ->
      verifyStep i (w, v) (w', mkVerifiers (waiting v) (hashing v - 1)%nat)
  | verify_other w v w' :
      sameFlags i (torrent w) (torrent w') ->
      verifyStep i (w, v) (w', v).

(** A piece starts with both flags clear and no verifier. *)
Inductive verifyReachable (i : Z) : world * verifiers -> Prop :=
  | verify_new w p :
      index (pieces (torrent w)) i = Some p ->
      Hashing p = false -> QueuedForHash p = false ->
      verifyReachable i (w, mkVerifiers O O)
  | verify_step s s' :
      verifyReachable i s -> verifyStep i s s' -> verifyReachable i s'.

End Verify.

(** *** The BitTorrent handshake *)

#[global] Instance byte_eq_dec : EqDecision byte := Byte.byte_eq_dec.

(** What a handshake learns from the peer: its extension bytes
    ([8]byte), its peer id and the info-hash ([20]byte each). *)
Record handshakeResult : Type := mkHandshakeResult {
  peerExtensionBytes : list byte;
  peerID : list byte;
  hash : list byte
}.

(** The zero value of [handshakeResult]. *)
Definition zeroResult : handshakeResult :=
  mkHandshakeResult (repeat Byte.x00 8) (repeat Byte.x00 20)
                    (repeat Byte.x00 20).

(** The error of [handshake]. *)
Inductive handshakeError : Type :=
  | ErrWriting (cause : string).          (* "error writing: %s" *)

(** A socket as the handshake sees it: the bytes that arrive before the
    stream ends or a read fails, and the errors of the successive calls
    of [Write] ([None] is nil, as is every call after the last one
    listed). *)
Record sock : Type := mkSock {
  incoming : list byte;
  writes : list (option string)
}.

(** [func handshakeWriter(w io.Writer, bb <-chan []byte, done chan<-
    error)] over the chunks that are posted before the channel is
    closed: the chunks whose [Write] returned no error, and the error
    sent to [done]. *)
Fixpoint handshakeWriter (results : list (option string))
    (bb : list (list byte)) : list (list byte) * option string :=
  match bb with
  | [] => ([], None)
  | b :: bb =>
    match results with
    | Some err :: _ => ([], Some err)
    | None :: results =>
      let '(written, err) := handshakeWriter results bb in
      (b :: written, err)
    | [] =>
      let '(written, err) := handshakeWriter [] bb in (b :: written, err)
    end
  end.

(** The [post] closure of [handshake].  The channel has room for four
    chunks; a post panics when it would block, which the writer taking
    chunks off the channel can only make less likely, so the count of
    all chunks posted so far is the worst case. *)
Definition postChunk (posted : list (list byte)) (bb : list byte)
  : outcome (list (list byte)) :=
  if 4 <=? len posted then Panics "mustn't block while posting"
  else Returns (posted ++ [bb]).

Definition andThen {A B} (o : outcome A) (f : A -> outcome B)
  : outcome B :=
  match o with
  | Returns a => f a
  | Panics msg => Panics msg
  end.

Section Handshake.

(** [pp.Protocol], a constant of package [peer_protocol]. *)
Variable Protocol : list byte.

(** [func handshake(sock io.ReadWriter, ih *metainfo.Hash, peerID
    [20]byte, extensions peerExtensionBytes) (res handshakeResult,
    ok bool, err error)], with the chunks it posted.  When [ok] is set
    [err] is nil, so the deferred function does not panic on it and
    waits for the writer. *)
Definition handshake (s : sock) (ih : option (list byte))
    (ourID extensions : list byte)
  : outcome (handshakeResult * bool * option handshakeError
             * list (list byte)) :=
  andThen (postChunk [] Protocol) (fun posted =>
  andThen (postChunk posted extensions) (fun posted =>
  andThen (match ih with
           | Some h => andThen (postChunk posted h) (fun posted =>
                       postChunk posted ourID)
           | None => Returns posted
           end) (fun posted =>
  if len (incoming s) <? 68
  then Returns (zeroResult, false, None, posted)
  else
    let b := take 68 (incoming s) in
    if negb (bool_decide (take 20 b = Protocol))
    then Returns (zeroResult, false, None, posted)
    else
      let res :=
        mkHandshakeResult (take 8 (drop 20 b)) (take 20 (drop 48 b))
                          (take 20 (drop 28 b)) in
      andThen (match ih with
               | None => andThen (postChunk posted (hash res)) (fun posted =>
                         postChunk posted ourID)
               | Some _ => Returns posted
               end) (fun posted =>
      Returns (res, true,
               ErrWriting <$> (handshakeWriter (writes s) posted).2,
               posted))))).

End Handshake.

(** *** The extended handshake message *)

(** What [bencode.Unmarshal] into a [map[string]interface{}] can leave
    under a key: an [int64], a string, a dictionary, or something else
    (a list).  In the dictionary under ["m"] only the items that are an
    [int64] matter. *)
Inductive item : Type :=
  | ItemInt (i : Z)
  | ItemOther.

Inductive value : Type :=
  | VInt (i : Z)
  | VString (s : string)
  | VDict (m : gmap string item)
  | VOther.

(** The fields of [connection] that the extended handshake sets. *)
Record peerExtensions : Type := mkPeerExtensions {
  PeerMaxRequests : Z;
  PeerClientName : string;
  PeerExtensionIDs : gmap string Z        (* map[string]byte *)
}.

Inductive extendedError : Type :=
  | ErrDecodingPayload   (* "error decoding extended message payload: %s" *)
  | ErrMissingM                   (* "handshake missing m item" *)
  | ErrMNotDict                   (* "handshake m value is not dict" *)
  | ErrSettingMetadataSize (size : Z).
                                  (* "error setting metadata size to %d" *)

Section ExtendedHandshake.

(** [bencode.Unmarshal(msg.ExtendedPayload, &d)]; [None] is an error. *)
Variable bdecodeAny : list byte -> option (gmap string value).
(** The entries of the dictionary under ["m"] in the order in which
    [for name, v := range mTyped] yields them. *)
Variable rangeItems : gmap string item -> list (string * item).
(** [t.setMetadataSize], declared outside [client.go]. *)
Variable setMetadataSize : Torrent -> Z -> Torrent * option error.

(** The body of the loop over the extensions that the peer announces:
    an id of zero withdraws the extension, any other id is kept as a
    [byte]. *)
Definition noteExtension (ids : gmap string Z) (entry : string * item)
  : gmap string Z :=
  match entry.2 with
  | ItemOther => ids
  | ItemInt id =>
    if id =? 0 then delete entry.1 ids
    else <[entry.1 := id mod 256]> ids
  end.

(** The [case pp.HandshakeExtendedID:] arm of [connectionLoop]: the
    torrent and the fields it leaves, whether it called
    [c.requestPendingMetadata()], and the [err] that the loop tests
    after the switch.  The counter of supported extension messages is
    not kept. *)
Definition gotExtendedHandshake (payload : list byte) (x : Torrent)
    (c : peerExtensions)
  : outcome (Torrent * peerExtensions * bool * option extendedError) :=
  match bdecodeAny payload with
  | None => Returns (x, c, false, Some ErrDecodingPayload)
  | Some d =>
    let c :=
      match d !! "reqq"%string with
      | Some (VInt i) =>
        mkPeerExtensions i (PeerClientName c) (PeerExtensionIDs c)
      | _ => c
      end in
    match d !! "v"%string with
    | Some (VInt _) | Some (VDict _) | Some VOther =>
      Panics "interface conversion: interface {} is not string"
    | named =>
      let c :=
        match named with
        | Some (VString v) =>
          mkPeerExtensions (PeerMaxRequests c) v (PeerExtensionIDs c)
        | _ => c
        end in
      match d !! "m"%string with
      | None => Returns (x, c, false, Some ErrMissingM)
      | Some (VDict m) =>
        let ids := foldl noteExtension (PeerExtensionIDs c) (rangeItems m) in
        let c :=
          mkPeerExtensions (PeerMaxRequests c) (PeerClientName c) ids in
        let asks := bool_decide (is_Some (ids !! "ut_metadata"%string)) in
        match d !! "metadata_size"%string with
        | Some (VInt size) =>
          let '(x, err) := setMetadataSize x size in
          match err with
          | Some _ =>
            Returns (x, c, false, Some (ErrSettingMetadataSize size))
          | None => Returns (x, c, asks, None)
          end
        | _ => Returns (x, c, asks, None)
        end
      | Some _ => Returns (x, c, false, Some ErrMNotDict)
      end
    end
  end.

End ExtendedHandshake.

End torrent.

(** * Sample inputs

    Concrete values on which the properties below are exercised. *)

Module samples.

Import torrent.

(** ** metainfo *)

(** A stand-in for SHA-1: twenty bytes that depend on the input. *)
Definition digest (bs : list byte) : list byte :=
  take 20 (bs ++ repeat Byte.x00 20).

Definition info40 : metainfo.Info :=
  metainfo.mkInfo 262144 (repeat Byte.x00 40) "a.bin" 0 None [].
Definition info3 : metainfo.Info :=
  metainfo.mkInfo 262144 [Byte.x01; Byte.x02; Byte.x03] "a.bin" 0 None [].
(** An info with a zero piece length, and pieces from an earlier run. *)
Definition infoZero : metainfo.Info :=
  metainfo.mkInfo 0 [Byte.x07] "old.bin" 5 None [].

Definition noFile (path : string) : metainfo.osFileInfo + metainfo.error :=
  inr (metainfo.ErrOS "no such file or directory").
Definition noOpen (path : string) : metainfo.Reader + metainfo.error :=
  inr (metainfo.ErrOS "no such file or directory").
Definition noOpenFile (fi : metainfo.FileInfo.t)
  : metainfo.Reader + metainfo.error :=
  inr (metainfo.ErrOS "no such file or directory").
Definition baseName (path : string) : string := path.

(** A piece length of four bytes and a file list of two files. *)
Definition infoTwoFiles : metainfo.Info :=
  metainfo.mkInfo 4 [Byte.x07] "dir" 0 None
    [metainfo.FileInfo.mk 3 ["a"%string]; metainfo.FileInfo.mk 2 ["b"%string]].
(** The same with a negative piece length. *)
Definition infoNegative : metainfo.Info :=
  metainfo.mkInfo (-4) [Byte.x07] "dir" 0 None
    [metainfo.FileInfo.mk 3 ["a"%string]; metainfo.FileInfo.mk 2 ["b"%string]].
(** Every file opens and holds the same six bytes. *)
Definition sixBytes : list byte :=
  [Byte.x01; Byte.x02; Byte.x03; Byte.x04; Byte.x05; Byte.x06].
Definition openSix (fi : metainfo.FileInfo.t)
  : metainfo.Reader + metainfo.error :=
  inl (metainfo.mkReader sixBytes None).
Definition openSixPath (path : string) : metainfo.Reader + metainfo.error :=
  inl (metainfo.mkReader sixBytes None).
(** [os.Stat] finds a regular file of five bytes, or one of nine. *)
Definition statFive (path : string) : metainfo.osFileInfo + metainfo.error :=
  inl (metainfo.mkStat false 5).
Definition statNine (path : string) : metainfo.osFileInfo + metainfo.error :=
  inl (metainfo.mkStat false 9).
Definition info4 : metainfo.Info :=
  metainfo.mkInfo 4 [Byte.x07] "old.bin" 0 None [].

(** A walk over a directory with a file, a subdirectory and a file in
    it; a walk that cannot read its second file; a walk over a root that
    is a file of five bytes. *)
Definition walkTree (root : string) : list metainfo.visit :=
  [(root, inl (metainfo.mkStat true 4096));
   ("a"%string, inl (metainfo.mkStat false 3));
   ("sub"%string, inl (metainfo.mkStat true 4096));
   ("sub/b"%string, inl (metainfo.mkStat false 2))].
Definition walkFile (root : string) : list metainfo.visit :=
  [(root, inl (metainfo.mkStat false 5))].
Definition relOf (root path : string) : string + metainfo.error :=
  inl path.
Definition splitOf (relPath : string) : list string := [relPath].
Definition joinOf (root : string) (path : list string) : string := root.

(** ** Dialling *)

Definition second : Z := 1000000000.   (* time.Second, in nanoseconds *)

(** ** Connections *)

Definition connOf (pid ip : string) : connection :=
  mkConnection pid ip false None false false ∅ 0 0 [] ∅ 0 0 [].

(** Connection objects 0 and 1 belong to the same peer, every other one
    to a second peer. *)
Definition heapAAB : connHeap :=
  fun r =>
    match r with
    | O => connOf "-TR2940-aaaaaaaaaaaa" "10.0.0.1"
    | S O => connOf "-TR2940-aaaaaaaaaaaa" "10.0.0.1"
    | _ => connOf "-TR2940-bbbbbbbbbbbb" "10.0.0.2"
    end.

Definition torrentNew : Torrent :=
  mkTorrent "infohash-1" "" None 16384 [] [] [] (mkSlice [] []) [].

Definition noExpvars : expvars := mkExpvars 0 0 0.

Definition always (b : bool) (x : Torrent) : bool := b.
Definition noWorst (h : connHeap) (x : Torrent) : option connRef := None.

(** The state after connection 0 was added to the new torrent. *)
Definition heapAdded : connHeap :=
  <[O := set_t (Some "infohash-1"%string) (heapAAB O)]> heapAAB.
Definition torrentAdded : Torrent := set_conns [O] torrentNew.

(** ** Hash checks *)

(** One piece that was never hashed, and one connection that touched
    it. *)
Definition toucherConn : connection :=
  mkConnection "-TR2940-aaaaaaaaaaaa" "10.0.0.1" false
               (Some "infohash-1"%string) false false ∅ 0 0 [] {[0]} 0 0 [].
Definition worldFirstHash : world :=
  mkWorld (fun _ => toucherConn) ∅
          (mkTorrent "infohash-1" "" None 16384 [] [O]
                     [mkPiece "digest-0" false false false]
                     (mkSlice [] []) [])
          noExpvars.
Definition keep (w : world) (i : Z) : world := w.

(** ** Uploading *)

Definition req0 : request := newRequest 0 0 2.
Definition req1 : request := newRequest 0 2 2.

(** An interested, choked peer with two queued requests that was sent
    five chunks and gave none. *)
Definition connWaiting : connection :=
  mkConnection "-TR2940-aaaaaaaaaaaa" "10.0.0.1" false None
               true true {[req0; req1]} 5 0 [] ∅ 0 0 [].
(** The same peer, unchoked. *)
Definition connUnchoked : connection := set_Choked false connWaiting.
(** A peer that is not interested. *)
Definition connDull : connection := connOf "-TR2940-cccccccccccc" "10.0.0.3".

Definition wants (b : bool) (c : connection) : bool := b.
Definition offsetOf (i : Z) : Z := i * 4.
Definition readTwo (n off : Z) : list byte * option error :=
  ([Byte.x01; Byte.x02], None).
(** A read that comes back short without an error. *)
Definition readNothing (n off : Z) : list byte * option error := ([], None).
Definition firstKey (s : gset request) : nat := O.
Definition has (b : bool) (i : Z) : bool := b.

(** ** ut_metadata *)

(** A decoder that finds the same dictionary in every payload: a data
    message for piece 0 of a metadata of three bytes. *)
Definition dataDict : gmap string Z :=
  {[ "msg_type"%string := 1; "piece"%string := 0;
     "total_size"%string := 3 ]}.
Definition decodeData (payload : list byte) : option (gmap string Z) :=
  Some dataDict.
Definition requested (c : connection) (i : Z) : bool :=
  match index (metadataRequests c) i with Some b => b | None => false end.
Definition pieceSizeOf (totalSize piece : Z) : Z :=
  Z.min (totalSize - piece * 2 ^ 14) (2 ^ 14).
Definition savePiece (x : Torrent) (i : Z) (bs : list byte) : Torrent :=
  mkTorrent (infoHash x) (displayName x) (info x) (chunkSize x)
            (Trackers x) (conns x) (pieces x) (mkSlice bs []) [true].
Definition sameTorrent (x : Torrent) : Torrent := x.
Definition hasPiece (x : Torrent) (i : Z) : bool := false.
Definition sizeOf (x : Torrent) (i : Z) : Z := 0.
Definition message (x : Torrent) (c : connection) (ty i : Z)
    (bs : list byte) : pp.Message := pp.Extended 2 bs.

Definition connAsking : connection :=
  mkConnection "-TR2940-aaaaaaaaaaaa" "10.0.0.1" false None
               false false ∅ 0 0 [] ∅ 0 0 [true].
(** Two bytes of dictionary and the three bytes of the piece. *)
Definition payloadFull : list byte :=
  [Byte.x64; Byte.x65; Byte.x0a; Byte.x0b; Byte.x0c].
(** A payload that is shorter than the piece it announces. *)
Definition payloadShort : list byte := [Byte.x64; Byte.x65].

(** ** Adding torrents *)

Definition emptyClient : Client :=
  mkClient ∅ (fun _ => torrentNew) O.
Definition acceptInfo (ih : string) (b : list byte) : option error := None.
Definition rejectInfo (ih : string) (b : list byte) : option error :=
  Some (ErrInfoBytes "info bytes have wrong hash").
Definition noPieces (b : list byte) : list piece := [].

Definition specMagnet : TorrentSpec.t :=
  TorrentSpec.mk [["http://tracker.example/announce"%string]]
                 "infohash-1" None "example" 0.
Definition specWithInfo : TorrentSpec.t :=
  TorrentSpec.mk [["http://tracker.example/announce"%string]]
                 "infohash-1" (Some [Byte.x64; Byte.x65]) "example" 0.

Definition addedOnce :=
  AddTorrentSpec 16384 acceptInfo noPieces emptyClient specMagnet.
Definition addedTwice :=
  AddTorrentSpec 16384 acceptInfo noPieces addedOnce.1.1.1 specMagnet.

Definition rejectedOnce :=
  AddTorrentSpec 16384 rejectInfo noPieces emptyClient specWithInfo.
Definition rejectedTwice :=
  AddTorrentSpec 16384 rejectInfo noPieces rejectedOnce.1.1.1 specWithInfo.

(** A spec for the torrent that [addedOnce] holds, with another tracker
    and info bytes, added twice to that client by a torrent that does not
    accept the bytes. *)
Definition specOtherTracker : TorrentSpec.t :=
  TorrentSpec.mk [["http://other.example/announce"%string]]
                 "infohash-1" (Some [Byte.x64; Byte.x65]) "" 0.
Definition rejectedKnownOnce :=
  AddTorrentSpec 16384 rejectInfo noPieces addedOnce.1.1.1 specOtherTracker.
Definition rejectedKnownTwice :=
  AddTorrentSpec 16384 rejectInfo noPieces rejectedKnownOnce.1.1.1
                 specOtherTracker.

(** ** Peers and dials *)

Definition peerA : Peer.t :=
  Peer.mk "-TR2940-aaaaaaaaaaaa" "10.0.0.1" 6881 "tracker" false.
Definition hostOf (ip : string) (port : Z) : string := ip.
Definition to4 (ip : string) : option string := Some ip.
Definition activeAddr (d : dialing) (addr : string) : bool :=
  bool_decide (addr ∈ halfOpen d).
Definition firstPeer (m : gmap (string * Z) Peer.t) : nat := O.
Definition keepPeers (d : dialing) (p : Peer.t) : dialing := d.
(** One peer known and no dial under way, and the state after
    [openNewConns] has started a dial to that peer. *)
Definition dialNone : dialing :=
  mkDialing {[ ("10.0.0.1"%string, 6881) := peerA ]} ∅ [].
Definition dialOne : dialing :=
  mkDialing ∅ {[ "10.0.0.1"%string ]}
            [("10.0.0.1"%string, "tracker"%string)].

(** ** Piece checks *)

Definition notComplete (x : Torrent) (i : Z) : bool := false.
Definition never (x : Torrent) : bool := false.
(** The world of the first hash check with its piece queued. *)
Definition worldQueued : world :=
  mkWorld (fun _ => toucherConn) ∅
          (mkTorrent "infohash-1" "" None 16384 [] [O]
                     [mkPiece "digest-0" false false true]
                     (mkSlice [] []) [])
          noExpvars.

(** ** Handshakes *)

(** The protocol string: the byte 19 and [BitTorrent protocol]. *)
Definition protocol : list byte :=
  [Byte.x13; Byte.x42; Byte.x69; Byte.x74; Byte.x54; Byte.x6f; Byte.x72;
   Byte.x72; Byte.x65; Byte.x6e; Byte.x74; Byte.x20; Byte.x70; Byte.x72;
   Byte.x6f; Byte.x74; Byte.x6f; Byte.x63; Byte.x6f; Byte.x6c].
Definition hashA : list byte := repeat Byte.x0a 20.
Definition idA : list byte := repeat Byte.x0b 20.
Definition idB : list byte := repeat Byte.x0c 20.
Definition noExtensions : list byte := repeat Byte.x00 8.
Definition silent : sock := mkSock [] [].

(** ** More ut_metadata *)

Definition decodeFails (payload : list byte) : option (gmap string Z) :=
  None.
Definition requestDict : gmap string Z :=
  {[ "msg_type"%string := 0; "piece"%string := 0 ]}.
Definition decodeRequest (payload : list byte) : option (gmap string Z) :=
  Some requestDict.
(** A torrent whose metadata holds three bytes in a backing array of
    four, and that has every piece, each of four bytes or each of
    five. *)
Definition torrentMeta : Torrent :=
  mkTorrent "infohash-1" "" None 16384 [] [] []
            (mkSlice [Byte.x0a; Byte.x0b; Byte.x0c] [Byte.x0d]) [true].
Definition hasEvery (x : Torrent) (i : Z) : bool := true.
Definition sizeFour (x : Torrent) (i : Z) : Z := 4.
Definition sizeFive (x : Torrent) (i : Z) : Z := 5.

(** ** Extended handshakes *)

Definition announced : gmap string item :=
  {[ "ut_metadata"%string := ItemInt 2; "ut_pex"%string := ItemInt 0 ]}.
Definition extendedDict : gmap string value :=
  {[ "m"%string := VDict announced; "v"%string := VString "client 1.0" ]}.
Definition decodeExtended (payload : list byte)
  : option (gmap string value) := Some extendedDict.
Definition itemsOf (m : gmap string item) : list (string * item) :=
  map_to_list m.
Definition sizeAccepted (x : Torrent) (size : Z) : Torrent * option error :=
  (x, None).
Definition noPeerExtensions : peerExtensions := mkPeerExtensions 0 "" ∅.

End samples.

(** * Properties *)

(** ** Machine integers *)

Lemma wrap64_id z : inInt64 z -> wrap64 z = z.
Proof.
  unfold inInt64, minInt64, maxInt64, wrap64. intros Hz.
  rewrite Z.mod_small by lia. lia.
Qed.

Lemma wrap64_range z : inInt64 (wrap64 z).
Proof.
  unfold inInt64, minInt64, maxInt64, wrap64.
  pose proof (Z.mod_pos_bound (z + 2 ^ 63) (2 ^ 64) ltac:(lia)). lia.
Qed.

Lemma len_nonneg {A} (l : list A) : 0 <= len l.
Proof. unfold len. lia. Qed.

(** ** metainfo/metainfo.go *)

Section MetainfoFacts.

Import metainfo.

(** C9.  [NumPieces] returns exactly on the infos whose piece string is a
    whole number of 20-byte digests, with that number; on every other
    info it panics. *)
Theorem NumPieces_total_iff_multiple_of_20 (info : Info) :
  (len (Pieces info) mod 20 = 0 ->
   NumPieces info = Returns (len (Pieces info) / 20)) /\
  (len (Pieces info) mod 20 <> 0 ->
   exists msg, NumPieces info = Panics msg) /\
  ((exists n, NumPieces info = Returns n) <->
   len (Pieces info) mod 20 = 0).
Proof.
  pose proof (len_nonneg (Pieces info)) as Hn.
  unfold NumPieces.
  rewrite Z.rem_mod_nonneg by lia.
  rewrite Z.quot_div_nonneg by lia.
  destruct (Z.eqb_spec (len (Pieces info) mod 20) 0) as [E | E]; simpl.
  - split; [done |]. split; [done |]. split; [done | eauto].
  - split; [done |]. split; [eauto |].
    split; [intros [n Hret]; discriminate | done].
Qed.

Variable sha1 : list byte -> list byte.

Lemma hashLoop_returns (fuel : nat) (pieceLength : Z) (pr : Reader)
    (pieces : list byte) :
  (length (data pr) < fuel)%nat ->
  exists r, hashLoop sha1 fuel pieceLength pr pieces = Some r.
Proof.
  revert pr pieces.
  induction fuel as [| fuel IH]; intros pr pieces Hlen; [lia |].
  simpl. unfold CopyN.
  destruct (Z.leb_spec pieceLength 0) as [Hn | Hn]; simpl; [eauto |].
  destruct (Z.leb_spec pieceLength (len (data pr))) as [Hd | Hd]; simpl.
  - destruct (Z.eqb_spec pieceLength 0); [lia |].
    rewrite Z.ltb_irrefl. apply IH. simpl.
    rewrite length_drop. unfold len in Hd. lia.
  - assert (Hend : exists r,
               (if len (data pr) =? 0 then Some (inl pieces)
                else if len (data pr) <? pieceLength
                     then Some (inl (pieces ++ sha1 (data pr)))
                     else hashLoop sha1 fuel pieceLength
                            (mkReader [] (fails pr))
                            (pieces ++ sha1 (data pr)))
               = Some r).
    { destruct (len (data pr) =? 0); [eauto |].
      destruct (Z.ltb_spec (len (data pr)) pieceLength); [eauto | lia]. }
    destruct (fails pr) as [[] |]; eauto.
Qed.

(** [GeneratePieces] always returns. *)
Lemma GeneratePieces_returns (info : Info)
    (open : FileInfo.t -> Reader + error) :
  exists r, GeneratePieces sha1 info open = Some r.
Proof.
  unfold GeneratePieces.
  destruct (PieceLength info =? 0); [eauto |].
  destruct (writeFiles info open) as [stream werr].
  destruct (hashLoop_returns (S (length stream)) (PieceLength info)
              (mkReader stream werr) []) as [[ps | e] Hr];
    [simpl; lia | rewrite Hr; eauto ..].
Qed.

(** C10.  With a zero piece length [GeneratePieces] returns an error and
    the info it was given; whenever it returns an error the info is the
    one it was given, and a call without error changes [Pieces] only. *)
Theorem GeneratePieces_error_leaves_info (info : Info)
    (open : FileInfo.t -> Reader + error) :
  (exists r, GeneratePieces sha1 info open = Some r) /\
  (PieceLength info = 0 ->
   exists e, GeneratePieces sha1 info open = Some (info, Some e)) /\
  (forall info' e,
     GeneratePieces sha1 info open = Some (info', Some e) ->
     info' = info) /\
  (forall info',
     GeneratePieces sha1 info open = Some (info', None) ->
     exists pieces, info' = set_Pieces pieces info).
Proof.
  split; [apply GeneratePieces_returns |].
  unfold GeneratePieces.
  destruct (Z.eqb_spec (PieceLength info) 0) as [E | E].
  - split; [eauto |]. split; [congruence | discriminate].
  - split; [done |].
    destruct (writeFiles info open) as [stream werr].
    destruct (hashLoop _ _ _ _ _) as [[ps | e] |].
    + split; [discriminate |]. intros info' [= <-]. eauto.
    + split; [congruence | discriminate].
    + split; discriminate.
Qed.

Variable Base : string -> string.
Variable Stat : string -> osFileInfo + error.
Variable Open : string -> Reader + error.

(** C8, amended.  When [os.Stat] fails on the path, [BuildFromFile]
    returns a nil error: the caller sees the result of a successful call.
    It returns at that point: the info has its name set and its file list
    emptied, and nothing else is touched; no file entry is added, the
    length is not set and no pieces are generated.  So its result is not
    that of a function that goes on as if the call had succeeded,
    whatever that function takes the result of [os.Stat] to be. *)
Theorem BuildFromFile_swallows_stat_error (info : Info) (path : string)
    (err : error) :
  Stat path = inr err ->
  BuildFromFile sha1 Base Stat Open info path
  = Some (set_Files [] (set_Name (Base path) info), None) /\
  (forall info' oe,
     BuildFromFile sha1 Base Stat Open info path = Some (info', oe) ->
     oe = None /\ Name info' = Base path /\ Files info' = [] /\
     Pieces info' = Pieces info /\ Length info' = Length info /\
     PieceLength info' = PieceLength info /\ Private info' = Private info) /\
  (forall assumed,
     BuildFromFile sha1 Base Stat Open info path
     <> BuildFromFile_continuing sha1 Base Stat Open assumed info path).
Proof.
  intros HStat.
  assert (HB : BuildFromFile sha1 Base Stat Open info path
               = Some (set_Files [] (set_Name (Base path) info), None))
    by (unfold BuildFromFile; by rewrite HStat).
  split; [done |]. split.
  - rewrite HB. intros info' oe [= <- <-]. by destruct info.
  - intros assumed. rewrite HB.
    unfold BuildFromFile_continuing, GeneratePieces. rewrite HStat.
    destruct (fiIsDir assumed); [discriminate |].
    cbn [PieceLength set_Length set_Files set_Name Files app].
    destruct (PieceLength info =? 0); [discriminate |].
    destruct (writeFiles _ _) as [stream werr].
    destruct (hashLoop _ _ _ _ _) as [[ps | e] |]; discriminate.
Qed.

End MetainfoFacts.

(** [NumPieces] on forty bytes of digests and on three stray bytes. *)
Lemma NumPieces_witness :
  metainfo.NumPieces samples.info40 = Returns 2 /\
  exists msg, metainfo.NumPieces samples.info3 = Panics msg.
Proof.
  split.
  - exact (proj1 (NumPieces_total_iff_multiple_of_20 samples.info40)
                 eq_refl).
  - apply (proj1 (proj2 (NumPieces_total_iff_multiple_of_20 samples.info3))).
    vm_compute. discriminate.
Defined.

(** [GeneratePieces] on an info with a zero piece length. *)
Lemma GeneratePieces_witness :
  exists e,
    metainfo.GeneratePieces samples.digest samples.infoZero
                            samples.noOpenFile
    = Some (samples.infoZero, Some e).
Proof.
  apply (proj1 (proj2 (GeneratePieces_error_leaves_info
                         samples.digest samples.infoZero
                         samples.noOpenFile))).
  reflexivity.
Defined.

(** C8, as stated, fails: [os.Stat] fails on the path, the file would
    open and hold six bytes, the piece length is four.  [BuildFromFile]
    returns a nil error with the stale piece string, the old length and
    no file entry: no pieces were generated.  Going on as if the call had
    succeeded on a file of five bytes would have left a file entry, that
    length and the digests of two blocks. *)
Lemma BuildFromFile_stat_error_generates_no_pieces :
  samples.noFile "missing.bin"
  = inr (metainfo.ErrOS "no such file or directory") /\
  metainfo.BuildFromFile samples.digest samples.baseName samples.noFile
                         samples.openSixPath samples.info4 "missing.bin"
  = Some (metainfo.mkInfo 4 [Byte.x07] "missing.bin" 0 None [], None) /\
  metainfo.BuildFromFile_continuing
    samples.digest samples.baseName samples.noFile samples.openSixPath
    (metainfo.mkStat false 5) samples.info4 "missing.bin"
  = Some (metainfo.mkInfo 4
            (samples.digest [Byte.x01; Byte.x02; Byte.x03; Byte.x04]
             ++ samples.digest [Byte.x05])
            "missing.bin" 5 None [metainfo.FileInfo.mk 5 []],
          None) /\
  metainfo.BuildFromFile_continuing
    samples.digest samples.baseName samples.noFile samples.openSixPath
    (metainfo.mkStat false 5) samples.info4 "missing.bin"
  = metainfo.BuildFromFile samples.digest samples.baseName samples.statFive
                           samples.openSixPath samples.info4 "missing.bin".
Proof. repeat split; vm_compute; reflexivity. Qed.

(** [BuildFromFile] on a path that does not exist. *)
Lemma BuildFromFile_witness :
  metainfo.BuildFromFile samples.digest samples.baseName samples.noFile
                         samples.openSixPath samples.info4 "missing.bin"
  = Some (metainfo.set_Files []
            (metainfo.set_Name "missing.bin" samples.info4), None) /\
  (forall info' oe,
     metainfo.BuildFromFile samples.digest samples.baseName samples.noFile
                            samples.openSixPath samples.info4 "missing.bin"
     = Some (info', oe) ->
     oe = None /\ metainfo.Name info' = "missing.bin"%string /\
     metainfo.Files info' = [] /\
     metainfo.Pieces info' = [Byte.x07] /\ metainfo.Length info' = 0 /\
     metainfo.PieceLength info' = 4 /\ metainfo.Private info' = None) /\
  (forall assumed,
     metainfo.BuildFromFile samples.digest samples.baseName samples.noFile
                            samples.openSixPath samples.info4 "missing.bin"
     <> metainfo.BuildFromFile_continuing
          samples.digest samples.baseName samples.noFile
          samples.openSixPath assumed samples.info4 "missing.bin").
Proof.
  apply (BuildFromFile_swallows_stat_error
           samples.digest samples.baseName samples.noFile
           samples.openSixPath samples.info4 "missing.bin"
           (metainfo.ErrOS "no such file or directory")).
  reflexivity.
Defined.

(** ** client.go: dialling *)

Section DialFacts.

Import torrent.

Import samples.

(** C4, as stated, fails: with a limit of 40 half-open dials and one
    pending peer the source divides a 30 s timeout by 41/40 = 1 and keeps
    30 s, where a ceiling would divide by 2 and give 15 s. *)
Lemma reducedDialTimeout_is_not_ceiling :
  reducedDialTimeout (5 * second) (30 * second) 40 1
  = Returns (30 * second) /\
  specDialTimeout (5 * second) (30 * second) 40 1 = 15 * second /\
  reducedDialTimeout (5 * second) (30 * second) 40 1
  <> Returns (specDialTimeout (5 * second) (30 * second) 40 1).
Proof. split; [reflexivity |]. split; [reflexivity | discriminate]. Qed.

Variable minDialTimeout : Z.

(** C4, amended.  For a positive [max], a positive limit and a
    non-negative number of pending peers whose sum with the limit is an
    [int], the timeout is [max] over the integer quotient
    [(pendingPeers + halfOpenLimit) / halfOpenLimit] (rounded down), and
    the floor replaces a result below it. *)
Theorem reducedDialTimeout_floor_quotient (max halfOpenLimit pendingPeers : Z) :
  0 < max <= maxInt64 ->
  0 < halfOpenLimit ->
  0 <= pendingPeers ->
  pendingPeers + halfOpenLimit <= maxInt64 ->
  exists ret,
    reducedDialTimeout minDialTimeout max halfOpenLimit pendingPeers
    = Returns ret /\
    ret = Z.max minDialTimeout
                (max / ((pendingPeers + halfOpenLimit) / halfOpenLimit)) /\
    minDialTimeout <= ret.
Proof.
  intros Hmax Hh Hp Hsum. unfold reducedDialTimeout.
  destruct (Z.eqb_spec halfOpenLimit 0) as [-> | _]; [lia |].
  assert (Hq : 1 <= (pendingPeers + halfOpenLimit) / halfOpenLimit
               <= pendingPeers + halfOpenLimit).
  { split.
    - apply Z.div_le_lower_bound; lia.
    - apply Z.div_le_upper_bound; nia. }
  rewrite (wrap64_id (pendingPeers + halfOpenLimit))
    by (unfold inInt64, minInt64, maxInt64 in *; lia).
  rewrite Z.quot_div_nonneg by lia.
  rewrite (wrap64_id (_ / halfOpenLimit))
    by (unfold inInt64, minInt64, maxInt64 in *; lia).
  destruct (Z.eqb_spec ((pendingPeers + halfOpenLimit) / halfOpenLimit) 0)
    as [E | _]; [lia |].
  rewrite Z.quot_div_nonneg by lia.
  assert (Hr : 0 <= max / ((pendingPeers + halfOpenLimit) / halfOpenLimit)
               <= max).
  { split.
    - apply Z.div_pos; lia.
    - apply Z.div_le_upper_bound; nia. }
  rewrite wrap64_id by (unfold inInt64, minInt64, maxInt64 in *; lia).
  eexists. split; [reflexivity |].
  destruct (Z.ltb_spec
              (max / ((pendingPeers + halfOpenLimit) / halfOpenLimit))
              minDialTimeout); lia.
Qed.

End DialFacts.

(** Forty half-open dials allowed and forty-one peers pending: a third of
    the nominal thirty seconds would be above the floor, the quotient
    [(41 + 40) / 40 = 2] gives a half. *)
Lemma reducedDialTimeout_witness :
  exists ret,
    torrent.reducedDialTimeout (5 * samples.second) (30 * samples.second)
                               40 41
    = Returns ret /\
    ret = Z.max (5 * samples.second)
                (30 * samples.second / ((41 + 40) / 40)) /\
    5 * samples.second <= ret.
Proof.
  apply (reducedDialTimeout_floor_quotient
           (5 * samples.second) (30 * samples.second) 40 41);
    vm_compute; intuition discriminate.
Defined.

(** ** client.go: one connection per peer id *)

Section AddConnectionFacts.

Import torrent.

Variable socketsPerTorrent : Z.
Variable clientClosed : bool.
Variable seeding needData : Torrent -> bool.
Variable worstBadConn : connHeap -> Torrent -> option connRef.

Local Abbreviation addConnection :=
  (addConnection socketsPerTorrent clientClosed seeding needData
                 worstBadConn).
Local Abbreviation reachable :=
  (reachable socketsPerTorrent clientClosed seeding needData worstBadConn).

Lemma samePeerIDConn_spec (h : connHeap) (x : Torrent) (c : connRef) :
  samePeerIDConn h x c = true <-> PeerID (h c) ∈ peerIDs h x.
Proof.
  unfold samePeerIDConn, peerIDs.
  rewrite existsb_exists, list_elem_of_fmap.
  split.
  - intros (c0 & Hin & Heq). apply bool_decide_eq_true in Heq.
    exists c0. split; [done | by apply list_elem_of_In].
  - intros (c0 & Heq & Hin). exists c0.
    split; [by apply list_elem_of_In | by apply bool_decide_eq_true].
Qed.

(** Peer ids along a list of addresses depend on the heap through the
    [PeerID] fields alone. *)
Lemma fmap_PeerID_ext (h h' : connHeap) (l : list connRef) :
  (forall c, c ∈ l -> PeerID (h' c) = PeerID (h c)) ->
  (fun c => PeerID (h' c)) <$> l = (fun c => PeerID (h c)) <$> l.
Proof.
  induction l as [| c l IH]; intros Hext; [done |]. simpl. f_equal.
  - apply Hext. constructor.
  - apply IH. intros c0 Hc0. apply Hext. by constructor.
Qed.

Lemma NoDup_PeerID_sublist (h : connHeap) (l0 l : list connRef) :
  l0 `sublist_of` l ->
  NoDup ((fun c => PeerID (h c)) <$> l) ->
  NoDup ((fun c => PeerID (h c)) <$> l0).
Proof.
  intros Hsub Hnd. refine (sublist_NoDup _ _ Hnd _).
  by apply fmap_sublist.
Qed.

Lemma deleteConnection_sublist (x : Torrent) (c : connRef) :
  conns (deleteConnection x c) `sublist_of` conns x.
Proof. apply sublist_filter. Qed.

Lemma PeerID_Close (h : connHeap) (w c : connRef) :
  PeerID (Close h w c) = PeerID (h c).
Proof.
  unfold Close. destruct (decide (w = c)) as [-> | Hne].
  - by rewrite fn_lookup_insert.
  - by rewrite fn_lookup_insert_ne.
Qed.

(** A call that answers [false] leaves the heap and the torrent alone; a
    call that answers [true] found no connection with the peer id, and
    appends the new connection to what an eviction may have left. *)
Lemma addConnection_inv (h : connHeap) (x : Torrent) (ev : expvars)
    (c : connRef) (b : bool) (h' : connHeap) (x' : Torrent)
    (ev' : expvars) :
  addConnection h x ev c = Returns (b, h', x', ev') ->
  (b = false /\ h' = h /\ x' = x) \/
  (b = true /\ (PeerID (h c) ∉ peerIDs h x) /\
   (forall r, PeerID (h' r) = PeerID (h r)) /\
   exists l0, l0 `sublist_of` conns x /\ conns x' = l0 ++ [c]).
Proof.
  unfold torrent.addConnection.
  destruct clientClosed; [intros [= <- <- <- <-]; auto |].
  destruct (wantConns _ _ _ _ _ _); simpl;
    [| intros [= <- <- <- <-]; auto].
  destruct (samePeerIDConn h x c) eqn:Hsame;
    [intros [= <- <- <- <-]; auto |].
  assert (Hfresh : PeerID (h c) ∉ peerIDs h x).
  { rewrite <- samePeerIDConn_spec. by rewrite Hsame. }
  destruct (len (conns x) >=? socketsPerTorrent) eqn:Hfull.
  - destruct (worstBadConn h x) as [w |]; [| intros [= <- <- <- <-]; auto].
    destruct (len (conns (deleteConnection x w)) >=? socketsPerTorrent);
      [discriminate |].
    intros [= <- <- <- <-]. right.
    split; [done |]. split; [done |]. split.
    + intros r. destruct (decide (c = r)) as [-> | Hne].
      * rewrite fn_lookup_insert. simpl. apply PeerID_Close.
      * rewrite fn_lookup_insert_ne by done. apply PeerID_Close.
    + exists (conns (deleteConnection x w)).
      split; [apply deleteConnection_sublist | reflexivity].
  - rewrite Hfull. intros [= <- <- <- <-]. right.
    split; [done |]. split; [done |]. split.
    + intros r. destruct (decide (c = r)) as [-> | Hne].
      * by rewrite fn_lookup_insert.
      * by rewrite fn_lookup_insert_ne.
    + exists (conns x). split; [reflexivity | reflexivity].
Qed.

Lemma connStep_NoDup (s s' : connHeap * Torrent) :
  connStep socketsPerTorrent clientClosed seeding needData worstBadConn
           s s' ->
  NoDup (peerIDs s.1 s.2) -> NoDup (peerIDs s'.1 s'.2).
Proof.
  unfold peerIDs.
  destruct 1 as [h x ev c b h' x' ev' Hadd | h x c | h x c | h x c v Hv];
    simpl; intros Hnd.
  - apply addConnection_inv in Hadd
      as [(_ & -> & ->) | (_ & Hfresh & Hids & l0 & Hsub & Hconns)];
      [done |].
    rewrite (fmap_PeerID_ext h h') by auto.
    rewrite Hconns, fmap_app. apply list.NoDup_app.
    split; [by eapply NoDup_PeerID_sublist |].
    split; [| apply NoDup_singleton].
    intros pid Hpid. simpl. rewrite list_elem_of_singleton. intros ->.
    apply Hfresh. unfold peerIDs.
    apply list_elem_of_fmap in Hpid as (c0 & Heq & Hc0).
    apply list_elem_of_fmap. exists c0. split; [done |].
    by eapply elem_of_sublist.
  - eapply NoDup_PeerID_sublist; [apply deleteConnection_sublist | done].
  - rewrite (fmap_PeerID_ext h (Close h c)) by (intros; apply PeerID_Close).
    eapply NoDup_PeerID_sublist; [apply deleteConnection_sublist | done].
  - rewrite (fmap_PeerID_ext h (<[c := v]> h)); [done |].
    intros c0 Hc0. destruct (decide (c = c0)) as [-> | Hne].
    + rewrite fn_lookup_insert. auto.
    + by rewrite fn_lookup_insert_ne.
Qed.

(** C5.  In every state that a torrent reaches from an empty connection
    list through calls of [addConnection] and removals, no two
    connections of the list have the same peer id; and a call of
    [addConnection] for a connection whose peer id is already in the
    list answers [false] and leaves the list as it is. *)
Theorem conns_have_distinct_peer_ids (s : connHeap * Torrent) :
  reachable s ->
  NoDup (peerIDs s.1 s.2) /\
  (forall ev c,
     PeerID (s.1 c) ∈ peerIDs s.1 s.2 ->
     exists r,
       addConnection s.1 s.2 ev c = Returns r /\
       r.1.1.1 = false /\ r.1.2 = s.2 /\ r.1.1.2 = s.1).
Proof.
  intros Hreach. split.
  - induction Hreach as [h x Hempty | s s' _ IH Hstep].
    + unfold peerIDs. simpl. rewrite Hempty. constructor.
    + by eapply connStep_NoDup.
  - destruct s as [h x]. simpl. intros ev c Hdup.
    apply samePeerIDConn_spec in Hdup.
    unfold torrent.addConnection.
    destruct clientClosed; [eauto |].
    destruct (wantConns _ _ _ _ _ _); simpl; [| eauto].
    rewrite Hdup. eauto.
Qed.

End AddConnectionFacts.

(** The state in which connection 0 has been added to a new torrent is
    reachable. *)
Lemma added_reachable :
  torrent.reachable 80 false (samples.always false) (samples.always true)
                    samples.noWorst
                    (samples.heapAdded, samples.torrentAdded).
Proof.
  eapply torrent.reach_step.
  - apply (torrent.reach_new _ _ _ _ _ samples.heapAAB samples.torrentNew).
    reflexivity.
  - apply (torrent.step_add _ _ _ _ _ samples.heapAAB samples.torrentNew
             samples.noExpvars O true samples.heapAdded
             samples.torrentAdded samples.noExpvars).
    reflexivity.
Defined.

(** In that state the peer ids are distinct, and connection 1, which has
    the peer id of connection 0, is turned away. *)
Lemma conns_have_distinct_peer_ids_witness :
  NoDup (torrent.peerIDs samples.heapAdded samples.torrentAdded) /\
  exists r,
    torrent.addConnection 80 false (samples.always false)
                          (samples.always true) samples.noWorst
                          samples.heapAdded samples.torrentAdded
                          samples.noExpvars (S O)
    = Returns r /\
    r.1.1.1 = false /\ r.1.2 = samples.torrentAdded /\
    r.1.1.2 = samples.heapAdded.
Proof.
  destruct (conns_have_distinct_peer_ids
              80 false (samples.always false) (samples.always true)
              samples.noWorst (samples.heapAdded, samples.torrentAdded)
              added_reachable) as [Hnd Hrej].
  split; [exact Hnd |].
  apply (Hrej samples.noExpvars (S O)).
  apply list_elem_of_fmap. exists O.
  split; [reflexivity | exact (list_elem_of_here O [])].
Defined.

(** ** client.go: scoring peers after a hash check *)

Section PieceHashedFacts.

Import torrent.

Lemma untouched_fields (a b : connection) :
  untouched a = untouched b ->
  goodPiecesDirtied a = goodPiecesDirtied b /\
  badPiecesDirtied a = badPiecesDirtied b /\
  remoteIP a = remoteIP b.
Proof.
  intros Heq.
  split; [exact (f_equal goodPiecesDirtied Heq) |].
  split; [exact (f_equal badPiecesDirtied Heq) |].
  exact (f_equal remoteIP Heq).
Qed.

(** [reapPieceTouches] returns, once each, the connections of the list
    that had touched the piece, and changes nothing but sets of touched
    pieces. *)
Lemma reapPieceTouchesFrom_spec (piece : Z) (cs : list connRef) :
  forall (h : connHeap) (ret : list connRef),
  exists ts,
    (reapPieceTouchesFrom h cs piece ret).1 = ret ++ ts /\
    NoDup ts /\
    (forall c, c ∈ ts <-> c ∈ cs /\ piece ∈ peerTouchedPieces (h c)) /\
    (forall c,
       untouched ((reapPieceTouchesFrom h cs piece ret).2 c)
       = untouched (h c)).
Proof.
  induction cs as [| c cs IH]; intros h ret; simpl.
  - exists []. rewrite app_nil_r. split; [done |]. split; [constructor |].
    split; [| done]. intros c. split; [by intros ?%elem_of_nil |].
    by intros [?%elem_of_nil _].
  - destruct (bool_decide_reflect (piece ∈ peerTouchedPieces (h c)))
      as [Ht | Ht].
    + set (h1 := <[c := set_peerTouchedPieces
                          (peerTouchedPieces (h c) ∖ {[piece]}) (h c)]> h).
      destruct (IH h1 (ret ++ [c])) as (ts & Hret & Hnd & Hin & Hsame).
      assert (Hh1 : forall c0,
                 piece ∈ peerTouchedPieces (h1 c0) <->
                 c0 <> c /\ piece ∈ peerTouchedPieces (h c0)).
      { intros c0. unfold h1. destruct (decide (c = c0)) as [-> | Hne].
        - rewrite fn_lookup_insert. simpl. set_solver.
        - rewrite fn_lookup_insert_ne by done. naive_solver. }
      exists (c :: ts). rewrite Hret, <- app_assoc. split; [done |].
      split.
      { constructor; [| done]. rewrite Hin, Hh1. naive_solver. }
      split.
      { intros c0. rewrite !elem_of_cons, Hin, Hh1.
        destruct (decide (c0 = c)) as [-> | Hne]; naive_solver. }
      intros c0. rewrite Hsame. unfold h1.
      destruct (decide (c = c0)) as [-> | Hne].
      * by rewrite fn_lookup_insert.
      * by rewrite fn_lookup_insert_ne.
    + destruct (IH h ret) as (ts & Hret & Hnd & Hin & Hsame).
      exists ts. split; [done |]. split; [done |]. split; [| done].
      intros c0. rewrite elem_of_cons, Hin. naive_solver.
Qed.

(** The loop of the correct branch adds one to the good counter of each
    toucher and changes nothing else that peers are scored by. *)
Lemma scoreGood_spec (ts : list connRef) :
  forall h : connHeap,
  NoDup ts ->
  forall c,
    goodPiecesDirtied (scoreGood h ts c)
    = goodPiecesDirtied (h c) + (if decide (c ∈ ts) then 1 else 0) /\
    badPiecesDirtied (scoreGood h ts c) = badPiecesDirtied (h c).
Proof.
  unfold scoreGood.
  induction ts as [| t0 ts IH]; intros h Hnd c; cbn [foldl].
  - rewrite decide_False by apply not_elem_of_nil. split; [lia | done].
  - apply list.NoDup_cons in Hnd as [Ht0 Hnd].
    destruct (IH (<[t0 := set_goodPiecesDirtied
                            (goodPiecesDirtied (h t0) + 1) (h t0)]> h)
                 Hnd c) as [Hg Hb].
    rewrite Hg, Hb. clear Hg Hb.
    destruct (decide (t0 = c)) as [Heq | Hne].
    + subst. rewrite fn_lookup_insert. simpl.
      split; [| done].
      repeat case_decide; try lia; exfalso; set_solver.
    + rewrite fn_lookup_insert_ne by done.
      split; [| done].
      repeat case_decide; try lia; exfalso; set_solver.
Qed.

(** One pass of the loop of the incorrect branch. *)
Lemma scoreBad_step (w : world) (t0 : connRef) :
  let w1 := scoreBad w [t0] in
  (forall c,
     badPiecesDirtied (heap w1 c)
     = badPiecesDirtied (heap w c) + (if decide (c = t0) then 1 else 0) /\
     goodPiecesDirtied (heap w1 c) = goodPiecesDirtied (heap w c) /\
     remoteIP (heap w1 c) = remoteIP (heap w c)) /\
  badPeerIPs w1 = {[remoteIP (heap w t0)]} ∪ badPeerIPs w /\
  conns (torrent w1) = filter (fun c => c <> t0) (conns (torrent w)) /\
  vars w1 = vars w.
Proof.
  unfold scoreBad, dropConnection, banPeerIP, Close. cbn.
  rewrite !fn_lookup_insert. cbn.
  split; [| done].
  intros c. destruct (decide (c = t0)) as [-> | Hne].
  - rewrite !fn_lookup_insert. cbn. done.
  - rewrite !fn_lookup_insert_ne by done. split; [lia | done].
Qed.

Lemma scoreBad_cons (w : world) (t0 : connRef) (ts : list connRef) :
  scoreBad w (t0 :: ts) = scoreBad (scoreBad w [t0]) ts.
Proof. reflexivity. Qed.

(** The loop of the incorrect branch adds one to the bad counter of each
    toucher, bans its address and takes it out of the connection list;
    it changes nothing else that peers are scored by. *)
Lemma scoreBad_spec (ts : list connRef) :
  forall w : world,
  NoDup ts ->
  (forall c,
     badPiecesDirtied (heap (scoreBad w ts) c)
     = badPiecesDirtied (heap w c) + (if decide (c ∈ ts) then 1 else 0) /\
     goodPiecesDirtied (heap (scoreBad w ts) c)
     = goodPiecesDirtied (heap w c) /\
     remoteIP (heap (scoreBad w ts) c) = remoteIP (heap w c)) /\
  (forall ip,
     ip ∈ badPeerIPs (scoreBad w ts) <->
     ip ∈ badPeerIPs w \/ exists c, c ∈ ts /\ ip = remoteIP (heap w c)) /\
  (forall c,
     c ∈ conns (torrent (scoreBad w ts)) <->
     c ∈ conns (torrent w) /\ c ∉ ts) /\
  vars (scoreBad w ts) = vars w.
Proof.
  induction ts as [| t0 ts IH]; intros w Hnd.
  - cbn. split.
    { intros c. rewrite decide_False by apply not_elem_of_nil.
      split; [lia | done]. }
    split.
    { intros ip. split; [auto |].
      intros [? | (c & Hc%elem_of_nil & _)]; done. }
    split; [| done].
    intros c. split; [| tauto]. intros Hc. split; [done |].
    apply not_elem_of_nil.
  - apply list.NoDup_cons in Hnd as [Ht0 Hnd].
    rewrite scoreBad_cons.
    destruct (scoreBad_step w t0) as (Hf1 & Hb1 & Hc1 & Hv1).
    destruct (IH (scoreBad w [t0]) Hnd) as (Hf & Hb & Hc & Hv).
    split.
    { intros c. destruct (Hf c) as (-> & -> & ->).
      destruct (Hf1 c) as (-> & -> & ->).
      split; [| done].
      repeat case_decide; try lia; exfalso; set_solver. }
    split.
    { intros ip. rewrite Hb, Hb1.
      rewrite elem_of_union, elem_of_singleton.
      split.
      - intros [[-> | Hip] | (c & Hcts & ->)].
        + right. exists t0. split; [constructor | done].
        + by left.
        + right. exists c. split; [by constructor |].
          by destruct (Hf1 c) as (_ & _ & ->).
      - intros [Hip | (c & Hcts & ->)]; [auto |].
        apply elem_of_cons in Hcts as [-> | Hcts]; [auto |].
        right. exists c. split; [done |].
        by destruct (Hf1 c) as (_ & _ & ->). }
    split; [| congruence].
    intros c. rewrite Hc, Hc1, list_elem_of_filter, elem_of_cons.
    tauto.
Qed.

Variable completePiece : world -> Z -> world.
Variable pieceChanged : world -> Z -> world.

(** Marking the piece complete and announcing the change leave alone
    what peers are scored by. *)
Hypothesis completePiece_frame : forall w i, sameScores w (completePiece w i).
Hypothesis pieceChanged_frame : forall w i, sameScores w (pieceChanged w i).

(** C1, amended.  A hash check of a piece that was never hashed before
    leaves the two hash-result counters alone (a later check adds one to
    the counter of its verdict).  Peers are scored by whether they
    touched the piece, whatever [EverHashed] was: on a correct hash every
    connection of the torrent that touched the piece has its good counter
    raised by one, and nobody is banned or dropped; on an incorrect hash
    every such connection has its bad counter raised by one, its address
    banned, and leaves the connection list.  A connection that did not
    touch the piece is not scored, so a check that finds no toucher (a
    startup scan) scores nobody. *)
Theorem pieceHashed_scores_touchers (w : world) (piece : Z)
    (correct : bool) (p : torrent.piece) :
  index (pieces (torrent w)) piece = Some p ->
  let toucher c :=
    c ∈ conns (torrent w) /\ piece ∈ peerTouchedPieces (heap w c) in
  exists w',
    pieceHashed completePiece pieceChanged w piece correct = Returns w' /\
    (EverHashed p = false -> vars w' = vars w) /\
    (EverHashed p = true ->
     pieceHashedCorrect (vars w')
     = pieceHashedCorrect (vars w) + (if correct then 1 else 0) /\
     pieceHashedNotCorrect (vars w')
     = pieceHashedNotCorrect (vars w) + (if correct then 0 else 1)) /\
    (correct = true ->
     (forall c,
        goodPiecesDirtied (heap w' c)
        = goodPiecesDirtied (heap w c)
          + (if decide (toucher c) then 1 else 0) /\
        badPiecesDirtied (heap w' c) = badPiecesDirtied (heap w c)) /\
     badPeerIPs w' = badPeerIPs w /\
     conns (torrent w') = conns (torrent w)) /\
    (correct = false ->
     (forall c,
        badPiecesDirtied (heap w' c)
        = badPiecesDirtied (heap w c)
          + (if decide (toucher c) then 1 else 0) /\
        goodPiecesDirtied (heap w' c) = goodPiecesDirtied (heap w c)) /\
     (forall ip,
        ip ∈ badPeerIPs w' <->
        ip ∈ badPeerIPs w \/
        exists c, toucher c /\ ip = remoteIP (heap w c)) /\
     (forall c,
        c ∈ conns (torrent w') <->
        c ∈ conns (torrent w) /\ ~ toucher c)).
Proof.
  intros Hidx toucher. unfold pieceHashed. rewrite Hidx.
  set (ev := if EverHashed p then _ else _).
  set (x := set_pieces _ _).
  unfold reapPieceTouches.
  destruct (reapPieceTouchesFrom_spec piece (conns x) (heap w) [])
    as (ts & Hret & Hnd & Hin & Hsame).
  destruct (reapPieceTouchesFrom (heap w) (conns x) piece [])
    as [ts' h1].
  simpl in Hret, Hsame. subst ts'.
  assert (Hts : forall c, c ∈ ts <-> toucher c) by (intros c; apply Hin).
  assert (Hh1 : forall c,
             goodPiecesDirtied (h1 c) = goodPiecesDirtied (heap w c) /\
             badPiecesDirtied (h1 c) = badPiecesDirtied (heap w c) /\
             remoteIP (h1 c) = remoteIP (heap w c))
    by (intros c; apply untouched_fields, Hsame).
  assert (Hdec : forall c,
             (if decide (c ∈ ts) then 1 else 0)
             = (if decide (toucher c) then 1 else 0)).
  { intros c. specialize (Hts c). repeat case_decide; tauto. }
  eexists. split; [reflexivity |].
  cbn [heap badPeerIPs torrent vars].
  split.
  { intros HE. subst ev. rewrite HE.
    match goal with
    | |- context [vars (pieceChanged ?w2 _)] =>
        destruct (pieceChanged_frame w2 piece) as (_ & _ & _ & ->)
    end.
    destruct correct.
    - match goal with
      | |- context [vars (completePiece ?w2 _)] =>
          by destruct (completePiece_frame w2 piece) as (_ & _ & _ & ->)
      end.
    - destruct (len ts =? 0); simpl; [done |].
      match goal with
      | |- context [vars (scoreBad ?w2 _)] =>
          by destruct (scoreBad_spec ts w2 Hnd) as (_ & _ & _ & ->)
      end. }
  split.
  { intros HE. subst ev. rewrite HE.
    match goal with
    | |- context [vars (pieceChanged ?w2 _)] =>
        destruct (pieceChanged_frame w2 piece) as (_ & _ & _ & ->)
    end.
    destruct correct.
    - match goal with
      | |- context [vars (completePiece ?w2 _)] =>
          destruct (completePiece_frame w2 piece) as (_ & _ & _ & ->)
      end.
      simpl. lia.
    - destruct (len ts =? 0); simpl; [lia |].
      match goal with
      | |- context [vars (scoreBad ?w2 _)] =>
          destruct (scoreBad_spec ts w2 Hnd) as (_ & _ & _ & ->)
      end.
      simpl. lia. }
  split.
  { intros ->.
    match goal with
    | |- context [pieceChanged ?w2 _] =>
        destruct (pieceChanged_frame w2 piece) as (Hf & -> & -> & _)
    end.
    match goal with
    | |- context [completePiece ?w2 _] =>
        destruct (completePiece_frame w2 piece) as (Hf' & -> & -> & _)
    end.
    simpl. split; [| done].
    intros c. destruct (Hf c) as [-> ->]. destruct (Hf' c) as [-> ->].
    simpl. destruct (scoreGood_spec ts h1 Hnd c) as [-> ->].
    destruct (Hh1 c) as (-> & -> & _). by rewrite Hdec. }
  intros ->.
  match goal with
  | |- context [pieceChanged ?w2 _] =>
      destruct (pieceChanged_frame w2 piece) as (Hf & Hb & Hc & _);
      assert (Hw2 : w2 = scoreBad (mkWorld h1 (badPeerIPs w) x ev) ts)
  end.
  { destruct (Z.eqb_spec (len ts) 0) as [E | E]; simpl; [| done].
    destruct ts; [done | discriminate]. }
  rewrite Hw2 in Hf, Hb, Hc. rewrite Hw2. clear Hw2.
  destruct (scoreBad_spec ts (mkWorld h1 (badPeerIPs w) x ev) Hnd)
    as (Hf' & Hb' & Hc' & _).
  simpl in Hf', Hb', Hc'.
  split.
  { intros c. destruct (Hf c) as [-> ->]. destruct (Hf' c) as (-> & -> & _).
    destruct (Hh1 c) as (-> & -> & _). by rewrite Hdec. }
  split.
  { intros ip. rewrite Hb, Hb'.
    split; (intros [Hip | (c & Hcts & ->)]; [by left | right]).
    - exists c. destruct (Hh1 c) as (_ & _ & ->). by rewrite <- Hts.
    - exists c. destruct (Hh1 c) as (_ & _ & ->). by rewrite Hts. }
  intros c. rewrite Hc, Hc', Hts. done.
Qed.

End PieceHashedFacts.

Lemma keep_frame (w : torrent.world) (i : Z) :
  torrent.sameScores w (samples.keep w i).
Proof. unfold torrent.sameScores, samples.keep. auto. Qed.

(** C1, as stated, fails: piece 0 was never hashed and connection 0 has
    touched it.  A correct hash raises the connection's good counter from 0
    to 1; an incorrect hash raises its bad counter to 1, bans 10.0.0.1 and
    takes the connection out of the torrent's list. *)
Lemma first_hash_check_scores_touchers :
  (torrent.EverHashed
     <$> torrent.index
           (torrent.pieces (torrent.torrent samples.worldFirstHash)) 0)
  = Some false /\
  torrent.goodPiecesDirtied (torrent.heap samples.worldFirstHash O) = 0 /\
  (exists w',
     torrent.pieceHashed samples.keep samples.keep
                         samples.worldFirstHash 0 true
     = Returns w' /\
     torrent.goodPiecesDirtied (torrent.heap w' O) = 1) /\
  (exists w',
     torrent.pieceHashed samples.keep samples.keep
                         samples.worldFirstHash 0 false
     = Returns w' /\
     torrent.badPiecesDirtied (torrent.heap w' O) = 1 /\
     "10.0.0.1"%string ∈ torrent.badPeerIPs w' /\
     torrent.conns (torrent.torrent w') = []).
Proof.
  split; [reflexivity |]. split; [reflexivity |].
  split.
  - eexists. split; [reflexivity |]. reflexivity.
  - eexists. split; [reflexivity |].
    split; [reflexivity |]. split; [| reflexivity].
    vm_compute. set_solver.
Qed.

(** The first hash check of the sample piece leaves the hash counters as
    they were. *)
Lemma pieceHashed_witness :
  exists w',
    torrent.pieceHashed samples.keep samples.keep samples.worldFirstHash
                        0 true
    = Returns w' /\
    torrent.vars w' = torrent.vars samples.worldFirstHash.
Proof.
  destruct (pieceHashed_scores_touchers
              samples.keep samples.keep keep_frame keep_frame
              samples.worldFirstHash 0 true
              (torrent.mkPiece "digest-0" false false false) eq_refl)
    as (w' & Hret & Hfirst & _).
  exists w'. split; [exact Hret | exact (Hfirst eq_refl)].
Defined.

(** ** client.go: the upload pass and peer requests *)

Section UploadFacts.

Import torrent.

Variable NoUpload : bool.
Variable seeding : bool.
Variable connHasWantedPieces : connection -> bool.
Variable pieceOffset : Z -> Z.
Variable readAt : Z -> Z -> list byte * option error.
Variable rangeChoice : gset request -> nat.

Local Abbreviation rangeFirst := (rangeFirst rangeChoice).
Local Abbreviation sendChunk := (sendChunk pieceOffset readAt).
Local Abbreviation window := (window seeding).
Local Abbreviation pieceFor := (pieceFor pieceOffset readAt).
Local Abbreviation uploadLoop :=
  (uploadLoop seeding pieceOffset readAt rangeChoice).
Local Abbreviation upload :=
  (upload NoUpload seeding connHasWantedPieces pieceOffset readAt
          rangeChoice).
Local Abbreviation uploaded :=
  (uploaded seeding pieceOffset readAt rangeChoice).
Local Abbreviation ending := (ending seeding pieceOffset readAt).
(** What [t.readAt] gives for the request [r]: the bytes and the error. *)
Local Abbreviation chunk r :=
  (readAt (Length r) (pieceOffset (Index r) + Begin r)).

Lemma rangeFirst_Some (s : gset request) (r : request) :
  rangeFirst s = Some r -> r ∈ s.
Proof.
  unfold torrent.rangeFirst. intros Hl.
  apply elem_of_elements. by eapply list_elem_of_lookup_2.
Qed.

Lemma rangeFirst_None (s : gset request) :
  rangeFirst s = None -> s = ∅.
Proof.
  unfold torrent.rangeFirst. intros Hl.
  apply lookup_ge_None in Hl.
  destruct (elements s) as [| r l] eqn:He.
  - apply leibniz_equiv. by apply elements_empty_iff.
  - exfalso.
    pose proof (Nat.mod_upper_bound (rangeChoice s) (length (r :: l))
                  ltac:(simpl; lia)).
    lia.
Qed.

Lemma len_cons {A} (a : A) (l : list A) : len (a :: l) = 1 + len l.
Proof. unfold len. simpl length. lia. Qed.

(** [sendChunk] either posts the piece and counts it, or hands back the
    read error and the connection as it was. *)
Lemma sendChunk_inv (c c' : connection) (r : request)
    (oe : option error) :
  sendChunk c r = Returns (c', oe) ->
  (oe = None /\
   c' = set_chunksSent (chunksSent c + 1) (Post (pieceFor r) c)) \/
  (exists err,
     oe = Some err /\ c' = c /\
     (readAt (Length r) (pieceOffset (Index r) + Begin r)).2 = Some err /\
     len (readAt (Length r) (pieceOffset (Index r) + Begin r)).1
     <> Length r).
Proof.
  unfold torrent.sendChunk, torrent.pieceFor.
  destruct (readAt _ _) as [b err]. simpl.
  destruct (Z.eqb_spec (len b) (Length r)) as [E | E]; simpl.
  - intros [= <- <-]. by left.
  - destruct err as [e |]; [| discriminate].
    intros [= <- <-]. right. by exists e.
Qed.

(** [sendChunk] panics only on a short read that reports no error. *)
Lemma sendChunk_panics (c : connection) (r : request) (msg : string) :
  sendChunk c r = Panics msg ->
  msg = "expected error"%string /\
  len (chunk r).1 <> Length r /\ (chunk r).2 = None.
Proof.
  unfold torrent.sendChunk.
  destruct (readAt _ _) as [b err]. simpl.
  destruct (Z.eqb_spec (len b) (Length r)) as [E | E]; simpl; [done |].
  destruct err as [e |]; [done |]. by intros [= <-].
Qed.

Lemma pieceMessages_snoc (q : list pp.Message) (m : pp.Message) :
  pieceMessages (q ++ [m])
  = pieceMessages q ++ (if isPiece m then [m] else []).
Proof. unfold pieceMessages. by rewrite List.filter_app. Qed.

Lemma Unchoke_fields (c : connection) :
  Choked (Unchoke c) = false /\
  PeerRequests (Unchoke c) = PeerRequests c /\
  chunksSent (Unchoke c) = chunksSent c /\
  UsefulChunksReceived (Unchoke c) = UsefulChunksReceived c /\
  pieceMessages (post (Unchoke c)) = pieceMessages (post c).
Proof.
  unfold Unchoke. destruct (Choked c) eqn:E; simpl; [| done].
  rewrite pieceMessages_snoc. simpl. by rewrite app_nil_r.
Qed.

Lemma Choke_fields (c : connection) :
  Choked (Choke c) = true /\
  PeerRequests (Choke c) ⊆ PeerRequests c /\
  chunksSent (Choke c) = chunksSent c /\
  UsefulChunksReceived (Choke c) = UsefulChunksReceived c /\
  pieceMessages (post (Choke c)) = pieceMessages (post c).
Proof.
  unfold Choke. destruct (Choked c) eqn:E; simpl; [done |].
  rewrite pieceMessages_snoc. simpl. rewrite app_nil_r.
  repeat split; set_solver.
Qed.

Lemma window_ext (c c' : connection) :
  chunksSent c' = chunksSent c ->
  UsefulChunksReceived c' = UsefulChunksReceived c ->
  window c' = window c.
Proof. unfold torrent.window. by intros -> ->. Qed.

Lemma uploaded_nil (c c' : connection) :
  chunksSent c' = chunksSent c ->
  UsefulChunksReceived c' = UsefulChunksReceived c ->
  pieceMessages (post c') = pieceMessages (post c) ->
  PeerRequests c' ⊆ PeerRequests c ->
  uploaded c c' [].
Proof.
  intros HS HU HP HR. unfold torrent.uploaded.
  split; [constructor |].
  split; [by intros r ?%elem_of_nil |].
  split; [unfold len; simpl; lia |].
  split; [unfold len; simpl; lia |].
  split; [done |].
  split; [by rewrite app_nil_r |].
  split; [| exact I].
  intros r Hr. split; [by apply HR | apply not_elem_of_nil].
Qed.

(** The loop comes back when it is given a pass per queued request and one
    more.  What it returns is a run of [uploaded] with one of the three
    endings; it panics only on a queued request whose read is short and
    reports no error. *)
Lemma uploadLoop_spec (fuel : nat) :
  forall c,
  (size (PeerRequests c) < fuel)%nat ->
  exists out,
    uploadLoop fuel c = Some out /\
    match out with
    | Returns c' =>
      exists served, uploaded c c' served /\ ending c c' served
    | Panics msg =>
      msg = "expected error"%string /\
      exists r,
        r ∈ PeerRequests c /\
        len (chunk r).1 <> Length r /\ (chunk r).2 = None
    end.
Proof.
  induction fuel as [| fuel IH]; intros c Hsize; [lia |].
  cbn [torrent.uploadLoop].
  destruct (Unchoke_fields c) as (HuC & HuR & HuS & HuU & HuP).
  destruct (window c) eqn:Hw.
  2: { eexists. split; [reflexivity |]. exists [].
       destruct (Choke_fields c) as (HcC & HcR & HcS & HcU & HcP).
       split; [by apply uploaded_nil |].
       apply window_exhausted; [done |].
       by rewrite (window_ext c (Choke c)). }
  destruct (rangeFirst (PeerRequests (Unchoke c))) as [r |] eqn:Hr.
  2: { eexists. split; [reflexivity |]. exists [].
       apply rangeFirst_None in Hr.
       split; [apply uploaded_nil; try done; by rewrite HuR |].
       apply all_served; [done | done | |].
       - intros r Hin. rewrite <- HuR, Hr in Hin. by apply elem_of_empty in Hin.
       - by rewrite (window_ext c (Unchoke c)). }
  pose proof Hr as Hfirst.
  apply rangeFirst_Some in Hr. rewrite HuR in Hr.
  destruct (sendChunk (Unchoke c) r) as [[c2 oe] | msg] eqn:Hs.
  2: { eexists. split; [reflexivity |].
       apply sendChunk_panics in Hs as (-> & Hshort & Hnil).
       split; [done |]. by exists r. }
  apply sendChunk_inv in Hs as [[-> ->] | (err & -> & -> & Herr & Hlen)].
  - set (c3 := set_PeerRequests _ _).
    assert (HR3 : PeerRequests c3 = PeerRequests c ∖ {[r]})
      by (subst c3; simpl; by rewrite HuR).
    assert (HS3 : chunksSent c3 = chunksSent c + 1)
      by (subst c3; simpl; by rewrite HuS).
    assert (HU3 : UsefulChunksReceived c3 = UsefulChunksReceived c)
      by (subst c3; simpl; by rewrite HuU).
    assert (HP3 : pieceMessages (post c3)
                  = pieceMessages (post c) ++ [pieceFor r]).
    { subst c3. simpl. rewrite pieceMessages_snoc. simpl. by rewrite HuP. }
    destruct (IH c3) as (out & Hout & Hpost).
    { rewrite HR3, size_difference by set_solver.
      rewrite size_singleton.
      assert (size (PeerRequests c) <> 0)%nat; [| lia].
      intros Hz. apply size_empty_iff in Hz. set_solver. }
    exists out. split; [done |].
    destruct out as [c' | msg].
    2: { destruct Hpost as (-> & r1 & Hin & Hshort & Hnil).
         split; [done |]. exists r1. rewrite HR3 in Hin.
         split; [set_solver | done]. }
    destruct Hpost
      as (served & (Hnd & Hq & Hwin & HS & HU & HP & HR & Hord) & Hend).
    exists (r :: served). split.
    + unfold torrent.uploaded.
      split.
      { constructor; [| done]. intros Hin. apply Hq in Hin.
        rewrite HR3 in Hin. set_solver. }
      split.
      { intros r0 [-> | Hin]%elem_of_cons; [done |].
        apply Hq in Hin. rewrite HR3 in Hin. set_solver. }
      split.
      { intros i. rewrite len_cons. intros Hi.
        destruct (decide (i = 0)) as [-> | Hne].
        - unfold torrent.window in Hw.
          apply orb_true_iff in Hw as [Hw | Hw]; [by left | right].
          apply Z.ltb_lt in Hw. lia.
        - destruct (Hwin (i - 1)) as [? | Hlt]; [lia | by left |].
          right. lia. }
      split; [rewrite HS, HS3, len_cons; lia |].
      split; [congruence |].
      split.
      { rewrite HP, HP3, <- app_assoc. done. }
      split.
      { intros r0 Hin. apply HR in Hin as [Hin Hns].
        rewrite HR3 in Hin. set_solver. }
      split; [by rewrite <- HuR | by rewrite <- HR3].
    + destruct Hend as [HC HE Hall Hwc | HC Hwc | r0 e HC Hin Hns He Hl].
      * apply all_served; [done | done | | done].
        intros r0 Hin. destruct (decide (r0 = r)) as [-> | Hne].
        -- constructor.
        -- apply elem_of_cons. right. apply Hall. rewrite HR3. set_solver.
      * by apply window_exhausted.
      * rewrite HR3 in Hin.
        apply (read_failed _ _ _ _ _ _ r0 e); [done | set_solver | | done | done].
        set_solver.
  - eexists. split; [reflexivity |]. exists [].
    destruct (Choke_fields (Unchoke c)) as (HcC & HcR & HcS & HcU & HcP).
    split.
    + apply uploaded_nil; [congruence | congruence | congruence |].
      by rewrite <- HuR.
    + apply (read_failed _ _ _ _ _ _ r err);
        [done | done | apply not_elem_of_nil | done | done].
Qed.

(** The pass never sends more than six chunks beyond what the peer gave,
    unless the torrent is seeding. *)
Lemma uploaded_within_window (c c' : connection) (served : list request) :
  uploaded c c' served ->
  seeding = false ->
  chunksSent c' <= Z.max (chunksSent c) (UsefulChunksReceived c + 6).
Proof.
  intros (_ & _ & Hwin & HS & _) Hseed.
  destruct served as [| r served]; [unfold len in HS; simpl in HS; lia |].
  rewrite len_cons in *.
  pose proof (len_nonneg served).
  destruct (Hwin (len served)) as [? | Hlt]; [lia | congruence | lia].
Qed.

(** A run serves no more requests than are queued. *)
Lemma uploaded_at_most_queued (c c' : connection) (served : list request) :
  uploaded c c' served ->
  len served <= Z.of_nat (size (PeerRequests c)).
Proof.
  intros (Hnd & Hq & _). unfold len, size, set_size. simpl.
  apply inj_le, submseteq_length, NoDup_submseteq; [done |].
  intros r Hr. apply elem_of_elements. by apply Hq.
Qed.

(** A run that served every queued request served each of them once. *)
Lemma uploaded_all (c c' : connection) (served : list request) :
  uploaded c c' served ->
  (forall r, r ∈ PeerRequests c -> r ∈ served) ->
  served ≡ₚ elements (PeerRequests c).
Proof.
  intros (Hnd & Hq & _) Hall.
  apply NoDup_Permutation; [done | apply NoDup_elements |].
  intros r. rewrite elem_of_elements. split; [apply Hq | apply Hall].
Qed.

(** When every read is full, the run stops only when the queue is empty
    or the window is used up: the number of requests served is the number
    queued for a seeding torrent, and otherwise the smaller of the number
    queued and the room left in the window. *)
Lemma uploaded_count (c c' : connection) (served : list request) :
  uploaded c c' served ->
  ending c c' served ->
  (forall r, r ∈ PeerRequests c -> len (chunk r).1 = Length r) ->
  len served
  = if seeding then Z.of_nat (size (PeerRequests c))
    else Z.min (Z.of_nat (size (PeerRequests c)))
               (Z.max 0 (UsefulChunksReceived c + 6 - chunksSent c)).
Proof.
  intros Hup Hend Hfull.
  pose proof (uploaded_at_most_queued c c' served Hup) as Hle.
  pose proof (len_nonneg served) as H0.
  pose proof Hup as (Hnd & Hq & Hwin & HS & HU & _).
  destruct Hend as [HC HE Hall Hwc | HC Hwc | r0 e HC Hin Hns He Hl].
  - pose proof (uploaded_all c c' served Hup Hall) as Hperm.
    assert (Hlen : len served = Z.of_nat (size (PeerRequests c))).
    { unfold len, size, set_size. simpl. by rewrite Hperm. }
    destruct seeding eqn:Hseed; [done |].
    unfold torrent.window in Hwc. simpl in Hwc.
    apply Z.ltb_lt in Hwc. lia.
  - unfold torrent.window in Hwc.
    apply orb_false_iff in Hwc as [Hseed Hwc]. rewrite Hseed.
    apply Z.ltb_ge in Hwc.
    destruct (decide (len served = 0)) as [Hz | Hnz]; [lia |].
    destruct (Hwin (len served - 1)) as [? | Hlt]; [lia | congruence | lia].
  - by apply Hfull in Hin.
Qed.

(** C3, amended.  The pass does nothing when uploading is disabled, when
    the peer is not interested, or when the torrent is not seeding and the
    connection has no piece we want.  Otherwise it comes back, and as long
    as the torrent is seeding or fewer than six chunks more were sent than
    received, it unchokes the peer and serves one queued request, in the
    order in which the map's iteration yields them: the bytes are read, a
    [Piece] message is posted, the request is removed and the chunks sent
    grow by one.  The run ends unchoked when no request is left, and ends
    by choking the peer when the condition no longer holds or when a read
    fails; a torrent that is not seeding never sends beyond the window.
    The pass panics only on a queued request whose read is short and
    reports no error: when every short read of a queued request reports
    an error the pass returns, and when every read of a queued request is
    full it returns having served as many requests as are queued (when
    seeding: all of them, each once, ending unchoked with an empty queue)
    or as the window has room for. *)
Theorem upload_pass (c : connection) :
  (NoUpload = true \/ PeerInterested c = false \/
   (seeding = false /\ connHasWantedPieces c = false) ->
   upload c = Some (Returns c)) /\
  (NoUpload = false -> PeerInterested c = true ->
   seeding = true \/ connHasWantedPieces c = true ->
   (exists out,
      upload c = Some out /\
      match out with
      | Returns c' =>
        exists served,
          uploaded c c' served /\ ending c c' served /\
          (seeding = false ->
           chunksSent c'
           <= Z.max (chunksSent c) (UsefulChunksReceived c + 6))
      | Panics msg =>
        msg = "expected error"%string /\
        exists r,
          r ∈ PeerRequests c /\
          len (chunk r).1 <> Length r /\ (chunk r).2 = None
      end) /\
   ((forall r, r ∈ PeerRequests c ->
               len (chunk r).1 = Length r \/ (chunk r).2 <> None) ->
    exists c' served,
      upload c = Some (Returns c') /\
      uploaded c c' served /\ ending c c' served /\
      (seeding = false ->
       chunksSent c'
       <= Z.max (chunksSent c) (UsefulChunksReceived c + 6))) /\
   ((forall r, r ∈ PeerRequests c -> len (chunk r).1 = Length r) ->
    exists c' served,
      upload c = Some (Returns c') /\
      uploaded c c' served /\ ending c c' served /\
      len served
      = (if seeding then Z.of_nat (size (PeerRequests c))
         else Z.min (Z.of_nat (size (PeerRequests c)))
                    (Z.max 0 (UsefulChunksReceived c + 6 - chunksSent c))) /\
      (seeding = true ->
       served ≡ₚ elements (PeerRequests c) /\
       Choked c' = false /\ PeerRequests c' = ∅))).
Proof.
  unfold torrent.upload. split.
  - intros [-> | [-> | [-> ->]]]; [done | by destruct NoUpload |].
    by destruct NoUpload, (PeerInterested c).
  - intros -> -> Hwant. simpl.
    assert (negb seeding && negb (connHasWantedPieces c) = false) as ->
      by (destruct Hwant as [-> | ->]; [done | by destruct seeding]).
    destruct (uploadLoop_spec (S (size (PeerRequests c))) c)
      as (out & Hout & Hpost); [lia |].
    assert (Hret : (forall r, r ∈ PeerRequests c ->
                      len (chunk r).1 = Length r \/ (chunk r).2 <> None) ->
                   exists c' served,
                     out = Returns c' /\
                     uploaded c c' served /\ ending c c' served).
    { intros Hcontract. destruct out as [c' | msg].
      - destruct Hpost as (served & Hup & Hend). by exists c', served.
      - destruct Hpost as (_ & r & Hin & Hshort & Hnil).
        destruct (Hcontract r Hin) as [Hfull | Herr]; congruence. }
    split; [| split].
    + exists out. split; [done |]. destruct out as [c' | msg]; [| done].
      destruct Hpost as (served & Hup & Hend).
      exists served. split; [done |]. split; [done |].
      exact (uploaded_within_window c c' served Hup).
    + intros Hcontract.
      destruct (Hret Hcontract) as (c' & served & -> & Hup & Hend).
      exists c', served. split; [done |]. split; [done |]. split; [done |].
      exact (uploaded_within_window c c' served Hup).
    + intros Hfull.
      destruct Hret as (c' & served & -> & Hup & Hend).
      { intros r Hin. left. by apply Hfull. }
      exists c', served. split; [done |]. split; [done |]. split; [done |].
      split; [by apply (uploaded_count c c') |].
      intros Hseed.
      destruct Hend as [HC HE Hall Hwc | HC Hwc | r0 e HC Hin Hns He Hl].
      * split; [by apply (uploaded_all c c') | done].
      * unfold torrent.window in Hwc. rewrite Hseed in Hwc. done.
      * by apply Hfull in Hin.
Qed.

(** The pass always comes back: it returns or it panics. *)
Lemma upload_returns (c : connection) : exists out, upload c = Some out.
Proof.
  unfold torrent.upload.
  destruct NoUpload; [eauto |].
  destruct (negb (PeerInterested c)); [eauto |].
  destruct (negb seeding && negb (connHasWantedPieces c)); [eauto |].
  destruct (uploadLoop_spec (S (size (PeerRequests c))) c)
    as (out & Hout & _); [lia | eauto].
Qed.

Variable havePiece : Z -> bool.

Local Abbreviation gotRequest :=
  (gotRequest NoUpload seeding connHasWantedPieces pieceOffset readAt
              rangeChoice havePiece).

(** C2, amended.  A Request that arrives while we choke the peer is
    ignored: no error, nothing changes.  Otherwise, from a peer that is
    not interested it ends the connection with an error; otherwise, for a
    piece we do not have it is counted and ends the connection with an
    error; otherwise it is put into the peer-requests set and the upload
    pass runs, and the loop goes on. *)
Theorem gotRequest_cases (c : connection) (ctr : counters)
    (index begin length : Z) :
  (Choked c = true ->
   gotRequest c ctr index begin length = Some (Returns (c, ctr, None))) /\
  (Choked c = false -> PeerInterested c = false ->
   gotRequest c ctr index begin length
   = Some (Returns (c, ctr, Some ErrNotInterested))) /\
  (Choked c = false -> PeerInterested c = true ->
   havePiece index = false ->
   gotRequest c ctr index begin length
   = Some (Returns
             (c, mkCounters (requestsReceivedForMissingPieces ctr + 1),
              Some ErrMissingPiece))) /\
  (Choked c = false -> PeerInterested c = true ->
   havePiece index = true ->
   exists out,
     upload (set_PeerRequests
               ({[newRequest index begin length]} ∪ PeerRequests c) c)
     = Some out /\
     gotRequest c ctr index begin length
     = Some (match out with
             | Returns c' => Returns (c', ctr, None)
             | Panics msg => Panics msg
             end)).
Proof.
  unfold torrent.gotRequest.
  split; [by intros -> |].
  split; [by intros -> -> |].
  split; [by intros -> -> -> |].
  intros -> -> ->. simpl.
  destruct (upload_returns
              (set_PeerRequests
                 ({[newRequest index begin length]} ∪ PeerRequests c) c))
    as (out & Hout).
  exists out. split; [done |]. rewrite Hout. by destruct out.
Qed.

End UploadFacts.

(** C3, as stated, fails: uploading is enabled, the peer is interested, two
    requests are queued and the peer was sent five chunks against none
    received, so the loop condition holds; but the torrent is not seeding
    and the connection has no piece we want, and the pass returns at once:
    the peer stays choked and nothing is served. *)
Lemma upload_without_wanted_pieces_does_nothing :
  torrent.PeerInterested samples.connWaiting = true /\
  torrent.window false samples.connWaiting = true /\
  size (torrent.PeerRequests samples.connWaiting) = 2%nat /\
  torrent.upload false false (samples.wants false) samples.offsetOf
                 samples.readTwo samples.firstKey samples.connWaiting
  = Some (Returns samples.connWaiting) /\
  torrent.Choked samples.connWaiting = true /\
  torrent.post samples.connWaiting = [].
Proof. repeat split; reflexivity. Qed.

(** The pass on a peer that is not interested, and on an interested peer
    that is unchoked and has two queued requests whose reads are full: a
    torrent that wants the peer's pieces has room in the window for one
    request, a seeding torrent serves both. *)
Lemma upload_pass_witness :
  torrent.upload false false (samples.wants true) samples.offsetOf
                 samples.readTwo samples.firstKey samples.connDull
  = Some (Returns samples.connDull) /\
  (forall r, r ∈ torrent.PeerRequests samples.connUnchoked ->
     len (samples.readTwo (torrent.Length r)
            (samples.offsetOf (torrent.Index r) + torrent.Begin r)).1
     = torrent.Length r) /\
  (exists c' served,
     torrent.upload false false (samples.wants true) samples.offsetOf
                    samples.readTwo samples.firstKey samples.connUnchoked
     = Some (Returns c') /\
     torrent.uploaded false samples.offsetOf samples.readTwo
                      samples.firstKey samples.connUnchoked c' served /\
     torrent.ending false samples.offsetOf samples.readTwo
                    samples.connUnchoked c' served /\
     len served = 1 /\
     (false = true ->
      served ≡ₚ elements (torrent.PeerRequests samples.connUnchoked) /\
      torrent.Choked c' = false /\ torrent.PeerRequests c' = ∅)) /\
  (exists c' served,
     torrent.upload false true (samples.wants false) samples.offsetOf
                    samples.readTwo samples.firstKey samples.connUnchoked
     = Some (Returns c') /\
     torrent.uploaded true samples.offsetOf samples.readTwo
                      samples.firstKey samples.connUnchoked c' served /\
     torrent.ending true samples.offsetOf samples.readTwo
                    samples.connUnchoked c' served /\
     len served = 2 /\
     (true = true ->
      served ≡ₚ elements (torrent.PeerRequests samples.connUnchoked) /\
      torrent.Choked c' = false /\ torrent.PeerRequests c' = ∅)).
Proof.
  assert (Hfull : forall r,
            r ∈ torrent.PeerRequests samples.connUnchoked ->
            len (samples.readTwo (torrent.Length r)
                   (samples.offsetOf (torrent.Index r) + torrent.Begin r)).1
            = torrent.Length r).
  { intros r Hr. simpl in Hr.
    apply elem_of_union in Hr as [Hr | Hr];
      apply elem_of_singleton in Hr; subst r; reflexivity. }
  split.
  - apply (proj1 (upload_pass false false (samples.wants true)
                    samples.offsetOf samples.readTwo samples.firstKey
                    samples.connDull)).
    right. left. reflexivity.
  - split; [exact Hfull |]. split.
    + exact (proj2 (proj2 (proj2 (upload_pass false false (samples.wants true)
                                    samples.offsetOf samples.readTwo
                                    samples.firstKey samples.connUnchoked)
                             eq_refl eq_refl (or_intror eq_refl)))
                   Hfull).
    + exact (proj2 (proj2 (proj2 (upload_pass false true (samples.wants false)
                                    samples.offsetOf samples.readTwo
                                    samples.firstKey samples.connUnchoked)
                             eq_refl eq_refl (or_introl eq_refl)))
                   Hfull).
Defined.

(** Three runs on that connection, evaluated.  A torrent that wants the
    peer's pieces serves one request and chokes when the window is used
    up; a seeding torrent serves both and leaves the peer unchoked; a
    short read without an error panics. *)
Lemma upload_sample_runs :
  (exists c',
     torrent.upload false false (samples.wants true) samples.offsetOf
                    samples.readTwo samples.firstKey samples.connUnchoked
     = Some (Returns c') /\
     torrent.post c'
     = [pp.Piece 0 0 [Byte.x01; Byte.x02]; pp.Choke] /\
     torrent.chunksSent c' = 6 /\ torrent.Choked c' = true /\
     torrent.PeerRequests c' = ∅) /\
  (exists c',
     torrent.upload false true (samples.wants false) samples.offsetOf
                    samples.readTwo samples.firstKey samples.connUnchoked
     = Some (Returns c') /\
     torrent.pieceMessages (torrent.post c')
     ≡ₚ [pp.Piece 0 0 [Byte.x01; Byte.x02];
         pp.Piece 0 2 [Byte.x01; Byte.x02]] /\
     length (torrent.post c') = 2%nat /\
     torrent.chunksSent c' = 7 /\ torrent.Choked c' = false /\
     torrent.PeerRequests c' = ∅) /\
  torrent.upload false true (samples.wants false) samples.offsetOf
                 samples.readNothing samples.firstKey samples.connUnchoked
  = Some (Panics "expected error").
Proof.
  split; [| split].
  - eexists. split; [vm_compute; reflexivity |]. repeat split.
  - eexists. split; [vm_compute; reflexivity |].
    split; [| repeat split].
    vm_compute.
    first [ reflexivity | apply perm_swap ].
  - vm_compute. reflexivity.
Qed.

(** C2, as stated, fails twice.  A Request from an interested peer that we
    are choking is not answered with a protocol error: the arm returns no
    error and the connection as it was.  A Request from an unchoked,
    interested peer for a piece we do not have is not dropped in silence:
    it is counted and the arm returns an error, which ends the
    connection. *)
Lemma request_choking_ignored_missing_piece_fails :
  torrent.Choked samples.connWaiting = true /\
  torrent.gotRequest false false (samples.wants true) samples.offsetOf
                     samples.readTwo samples.firstKey (samples.has true)
                     samples.connWaiting (torrent.mkCounters 0) 0 0 2
  = Some (Returns (samples.connWaiting, torrent.mkCounters 0, None)) /\
  torrent.Choked samples.connUnchoked = false /\
  torrent.PeerInterested samples.connUnchoked = true /\
  torrent.gotRequest false false (samples.wants true) samples.offsetOf
                     samples.readTwo samples.firstKey (samples.has false)
                     samples.connUnchoked (torrent.mkCounters 0) 0 0 2
  = Some (Returns (samples.connUnchoked, torrent.mkCounters 1,
                   Some torrent.ErrMissingPiece)).
Proof. repeat split; reflexivity. Qed.

(** The four cases of a Request on the sample connections. *)
Lemma gotRequest_cases_witness :
  torrent.gotRequest false false (samples.wants true) samples.offsetOf
                     samples.readTwo samples.firstKey (samples.has true)
                     samples.connWaiting (torrent.mkCounters 0) 0 0 2
  = Some (Returns (samples.connWaiting, torrent.mkCounters 0, None)) /\
  torrent.gotRequest false false (samples.wants true) samples.offsetOf
                     samples.readTwo samples.firstKey (samples.has true)
                     samples.connDull (torrent.mkCounters 0) 0 0 2
  = Some (Returns (samples.connDull, torrent.mkCounters 0,
                   Some torrent.ErrNotInterested)) /\
  torrent.gotRequest false false (samples.wants true) samples.offsetOf
                     samples.readTwo samples.firstKey (samples.has false)
                     samples.connUnchoked (torrent.mkCounters 0) 0 0 2
  = Some (Returns (samples.connUnchoked, torrent.mkCounters (0 + 1),
                   Some torrent.ErrMissingPiece)) /\
  exists out,
    torrent.upload false false (samples.wants true) samples.offsetOf
                   samples.readTwo samples.firstKey
                   (torrent.set_PeerRequests
                      ({[torrent.newRequest 1 0 2]}
                       ∪ torrent.PeerRequests samples.connUnchoked)
                      samples.connUnchoked)
    = Some out /\
    torrent.gotRequest false false (samples.wants true) samples.offsetOf
                       samples.readTwo samples.firstKey (samples.has true)
                       samples.connUnchoked (torrent.mkCounters 0) 1 0 2
    = Some (match out with
            | Returns c' => Returns (c', torrent.mkCounters 0, None)
            | Panics msg => Panics msg
            end).
Proof.
  split; [| split; [| split]].
  - apply (proj1 (gotRequest_cases false false (samples.wants true)
                    samples.offsetOf samples.readTwo samples.firstKey
                    (samples.has true) samples.connWaiting
                    (torrent.mkCounters 0) 0 0 2)).
    reflexivity.
  - apply (proj1 (proj2 (gotRequest_cases
                           false false (samples.wants true)
                           samples.offsetOf samples.readTwo
                           samples.firstKey (samples.has true)
                           samples.connDull (torrent.mkCounters 0) 0 0 2)));
      reflexivity.
  - apply (proj1 (proj2 (proj2 (gotRequest_cases
                                  false false (samples.wants true)
                                  samples.offsetOf samples.readTwo
                                  samples.firstKey (samples.has false)
                                  samples.connUnchoked
                                  (torrent.mkCounters 0) 0 0 2))));
      reflexivity.
  - apply (proj2 (proj2 (proj2 (gotRequest_cases
                                  false false (samples.wants true)
                                  samples.offsetOf samples.readTwo
                                  samples.firstKey (samples.has true)
                                  samples.connUnchoked
                                  (torrent.mkCounters 0) 1 0 2))));
      reflexivity.
Defined.

(** ** client.go: ut_metadata data messages *)

Lemma wrap64_high z : maxInt64 < z < 2 ^ 64 -> wrap64 z = z - 2 ^ 64.
Proof.
  unfold maxInt64, wrap64. intros Hz.
  replace (z + 2 ^ 63) with (z + 2 ^ 63 - 2 ^ 64 + 1 * 2 ^ 64) by lia.
  rewrite Z.mod_add by lia. rewrite Z.mod_small by lia. lia.
Qed.

Section MetadataFacts.

Import torrent.

Variable bdecode : list byte -> option (gmap string Z).
Variable requestedMetadataPiece : connection -> Z -> bool.
Variable metadataPieceSize : Z -> Z -> Z.
Variable saveMetadataPiece : Torrent -> Z -> list byte -> Torrent.
Variable maybeMetadataCompleted : Torrent -> Torrent.
Variable haveMetadataPiece : Torrent -> Z -> bool.
Variable torrentMetadataPieceSize : Torrent -> Z -> Z.
Variable newMetadataExtensionMessage :
  Torrent -> connection -> Z -> Z -> list byte -> pp.Message.

Local Abbreviation gotMetadataExtensionMsg :=
  (gotMetadataExtensionMsg bdecode requestedMetadataPiece
     metadataPieceSize saveMetadataPiece maybeMetadataCompleted
     haveMetadataPiece torrentMetadataPieceSize
     newMetadataExtensionMessage).
Local Abbreviation gotMetadataExtended :=
  (gotMetadataExtended bdecode requestedMetadataPiece
     metadataPieceSize saveMetadataPiece maybeMetadataCompleted
     haveMetadataPiece torrentMetadataPieceSize
     newMetadataExtensionMessage).

(** The offset that the source computes in 64 bits is out of range
    exactly when the mathematical offset is, and equals it when it is in
    range. *)
Lemma offset_wrap (n size : Z) :
  0 <= n <= maxInt64 -> inInt64 size ->
  (n - size < 0 \/ n <= n - size ->
   wrap64 (n - size) < 0 \/ n <= wrap64 (n - size)) /\
  (0 <= n - size < n -> wrap64 (n - size) = n - size).
Proof.
  unfold inInt64, minInt64, maxInt64. intros Hn Hs.
  destruct (Z_le_gt_dec (n - size) (2 ^ 63 - 1)) as [Hle | Hgt].
  - rewrite wrap64_id
      by (unfold inInt64, minInt64, maxInt64; lia).
    split; [done | done].
  - rewrite wrap64_high by (unfold maxInt64; lia).
    split; [intros _; left; lia | lia].
Qed.

(** A data message for a piece that the connection had not requested is
    turned away before any offset is computed: the handler returns an
    error and changes nothing. *)
Lemma metadata_data_unrequested (payload : list byte) (x : Torrent)
    (c : connection) (d : gmap string Z) :
  bdecode payload = Some d ->
  d !! "msg_type"%string = Some pp.DataMetadataExtensionMsgType ->
  requestedMetadataPiece c (at0 d "piece") = false ->
  gotMetadataExtensionMsg payload x c
  = Returns (x, c, Some (ErrUnexpectedPiece (at0 d "piece"))).
Proof.
  intros Hdec Hty Hreq. unfold torrent.gotMetadataExtensionMsg.
  rewrite Hdec, Hty. simpl. by rewrite Hreq.
Qed.

(** C6.  For a data message for a piece that the connection had
    requested, the piece bytes are the payload from offset
    [len(payload) - pieceSize] on, where [pieceSize] is
    [metadataPieceSize] of the message's [total_size] and [piece].  When
    that offset is negative or not below [len(payload)], the handler
    returns an error, the torrent (its metadata buffer included) is as it
    was, and the loop ends the connection; otherwise the bytes from that
    offset on are saved as the piece.  The piece index is taken to be one
    of [c.metadataRequests] (the source writes that slot before it
    computes the offset) and the piece size to be an [int]. *)
Theorem metadata_data_offset (payload : list byte) (x : Torrent)
    (c : connection) (d : gmap string Z) (reqs : list bool) :
  bdecode payload = Some d ->
  d !! "msg_type"%string = Some pp.DataMetadataExtensionMsgType ->
  let piece := at0 d "piece" in
  let pieceSize := metadataPieceSize (at0 d "total_size") piece in
  let offset := len payload - pieceSize in
  requestedMetadataPiece c piece = true ->
  store (metadataRequests c) piece false = Some reqs ->
  inInt64 pieceSize ->
  len payload <= maxInt64 ->
  (offset < 0 \/ len payload <= offset ->
   gotMetadataExtensionMsg payload x c
   = Returns (x, set_metadataRequests reqs c,
              Some (ErrBadOffset (wrap64 offset))) /\
   exists ret,
     gotMetadataExtended payload x c
     = Returns (x, set_metadataRequests reqs c, Return ret)) /\
  (0 <= offset < len payload ->
   gotMetadataExtensionMsg payload x c
   = Returns
       (maybeMetadataCompleted
          (saveMetadataPiece x piece (drop (Z.to_nat offset) payload)),
        set_UsefulChunksReceived (UsefulChunksReceived c + 1)
                                 (set_metadataRequests reqs c),
        None)).
Proof.
  intros Hdec Hty piece pieceSize offset Hreq Hst Hsize Hlen.
  pose proof (len_nonneg payload) as Hn.
  destruct (offset_wrap (len payload) pieceSize ltac:(lia) Hsize)
    as [Hout Hin].
  unfold torrent.gotMetadataExtended, torrent.gotMetadataExtensionMsg.
  rewrite Hdec, Hty. simpl.
  fold piece. rewrite Hreq. simpl. rewrite Hst.
  fold pieceSize.
  split.
  - intros Hoff. specialize (Hout Hoff).
    assert ((wrap64 (len payload - pieceSize) <? 0)
            || (wrap64 (len payload - pieceSize) >=? len payload) = true)
      as ->.
    { apply orb_true_iff.
      destruct Hout; [left; by apply Z.ltb_lt | right].
      apply Z.geb_le. lia. }
    split; [reflexivity |].
    destruct (_ || _); eauto.
  - intros Hoff. specialize (Hin Hoff). rewrite Hin.
    change (len payload - pieceSize) with offset.
    assert ((offset <? 0) || (offset >=? len payload) = false) as ->.
    { apply orb_false_iff. split; [apply Z.ltb_ge; lia |].
      rewrite Z.geb_leb. apply Z.leb_gt. lia. }
    reflexivity.
Qed.

End MetadataFacts.

(** A payload of two bytes that announces a piece of three bytes has
    offset -1: the handler returns an error, the torrent is untouched and
    the loop returns.  A payload of five bytes has offset 2: its last three
    bytes are saved as the piece. *)
Lemma metadata_data_offset_witness :
  (torrent.gotMetadataExtensionMsg
     samples.decodeData samples.requested samples.pieceSizeOf
     samples.savePiece samples.sameTorrent samples.hasPiece samples.sizeOf
     samples.message samples.payloadShort samples.torrentNew
     samples.connAsking
   = Returns (samples.torrentNew,
              torrent.set_metadataRequests [false] samples.connAsking,
              Some (torrent.ErrBadOffset (wrap64 (2 - 3)))) /\
   exists ret,
     torrent.gotMetadataExtended
       samples.decodeData samples.requested samples.pieceSizeOf
       samples.savePiece samples.sameTorrent samples.hasPiece samples.sizeOf
       samples.message samples.payloadShort samples.torrentNew
       samples.connAsking
     = Returns (samples.torrentNew,
                torrent.set_metadataRequests [false] samples.connAsking,
                torrent.Return ret)) /\
  torrent.gotMetadataExtensionMsg
    samples.decodeData samples.requested samples.pieceSizeOf
    samples.savePiece samples.sameTorrent samples.hasPiece samples.sizeOf
    samples.message samples.payloadFull samples.torrentNew
    samples.connAsking
  = Returns (samples.sameTorrent
               (samples.savePiece samples.torrentNew 0
                                  [Byte.x0a; Byte.x0b; Byte.x0c]),
             torrent.set_UsefulChunksReceived
               (0 + 1)
               (torrent.set_metadataRequests [false] samples.connAsking),
             None).
Proof.
  split.
  - apply (proj1 (metadata_data_offset
                    samples.decodeData samples.requested
                    samples.pieceSizeOf samples.savePiece
                    samples.sameTorrent samples.hasPiece samples.sizeOf
                    samples.message samples.payloadShort
                    samples.torrentNew samples.connAsking
                    samples.dataDict [false]
                    eq_refl eq_refl eq_refl eq_refl
                    ltac:(vm_compute; intuition discriminate)
                    ltac:(vm_compute; discriminate))).
    left. vm_compute. reflexivity.
  - apply (proj2 (metadata_data_offset
                    samples.decodeData samples.requested
                    samples.pieceSizeOf samples.savePiece
                    samples.sameTorrent samples.hasPiece samples.sizeOf
                    samples.message samples.payloadFull
                    samples.torrentNew samples.connAsking
                    samples.dataDict [false]
                    eq_refl eq_refl eq_refl eq_refl
                    ltac:(vm_compute; intuition discriminate)
                    ltac:(vm_compute; discriminate))).
    vm_compute. intuition discriminate.
Defined.

(** ** client.go: adding a torrent spec twice *)

Section AddTorrentFacts.

Import torrent.

Variable defaultChunkSize : Z.
Variable checkInfoBytes : string -> list byte -> option error.
Variable makePieces : list byte -> list piece.

Local Abbreviation SetInfoBytes := (SetInfoBytes checkInfoBytes makePieces).
Local Abbreviation applySpec := (applySpec checkInfoBytes makePieces).
Local Abbreviation AddTorrentInfoHash :=
  (AddTorrentInfoHash defaultChunkSize).
Local Abbreviation AddTorrentSpec :=
  (AddTorrentSpec defaultChunkSize checkInfoBytes makePieces).

Lemma mergeTier_old (urls tier : list string) (url : string) :
  url ∈ tier -> url ∈ mergeTier tier urls.
Proof.
  unfold mergeTier. revert tier.
  induction urls as [| u urls IH]; intros tier Hin; [done |].
  cbn [foldl]. apply IH.
  case_bool_decide; [done |]. apply elem_of_app. by left.
Qed.

Lemma mergeTier_new (urls tier : list string) (url : string) :
  url ∈ urls -> url ∈ mergeTier tier urls.
Proof.
  revert tier.
  induction urls as [| u urls IH]; intros tier Hin;
    [by apply elem_of_nil in Hin |].
  apply elem_of_cons in Hin as [-> | Hin].
  - change (mergeTier tier (u :: urls))
      with (mergeTier (if bool_decide (u ∈ tier) then tier
                       else tier ++ [u]) urls).
    apply mergeTier_old.
    case_bool_decide; [done |].
    apply elem_of_app. right. constructor.
  - by apply IH.
Qed.

Lemma mergeTiers_new (new old : list (list string)) :
  tiersWithin new (mergeTiers old new).
Proof.
  unfold tiersWithin. revert old.
  induction new as [| urls new IH]; intros old i us Hi; [done |].
  destruct i as [| i]; simpl in Hi.
  - injection Hi as ->.
    destruct old as [| tier old]; simpl;
      eexists; (split; [reflexivity |]); intros url; apply mergeTier_new.
  - destruct old as [| tier old]; simpl; by apply IH.
Qed.

Lemma mergeTiers_old (new old : list (list string)) :
  tiersWithin old (mergeTiers old new).
Proof.
  unfold tiersWithin. revert old.
  induction new as [| urls new IH]; intros old i us Hi; simpl.
  - eauto.
  - destruct old as [| tier old]; [done |].
    destruct i as [| i]; simpl in Hi |- *.
    + injection Hi as ->. eexists. split; [reflexivity |].
      intros url. apply mergeTier_old.
    + by apply IH.
Qed.

(** [AddTorrentSpec] is [AddTorrentInfoHash] followed by [applySpec] on
    the object it returned; no other object and no entry of the table is
    touched after [AddTorrentInfoHash]. *)
Lemma AddTorrentSpec_inv (cl cl' : Client) (spec : TorrentSpec.t)
    (r : torrentRef) (new : bool) (err : option error) :
  AddTorrentSpec cl spec = (cl', r, new, err) ->
  exists cl0,
    AddTorrentInfoHash cl (TorrentSpec.InfoHash spec) = (cl0, r, new) /\
    torrents cl' = torrents cl0 /\
    applySpec spec (objects cl0 r) = (objects cl' r, err).
Proof.
  unfold torrent.AddTorrentSpec, torrent.applySpec.
  destruct (torrent.AddTorrentInfoHash _ _ _) as [[cl0 r0] new0].
  intros Hadd. exists cl0.
  assert (Hupd : forall cl f, objects (update cl r0 f) r0
                              = f (objects cl r0))
    by (intros; simpl; apply fn_lookup_insert).
  case_bool_decide;
    destruct (TorrentSpec.Info spec) as [b |];
    try destruct (torrent.SetInfoBytes _ _ b _) as [x1 [e |]] eqn:Hset;
    try destruct (TorrentSpec.ChunkSize spec =? 0);
    simpl in Hadd; injection Hadd as <- <- <- <-;
    simpl; rewrite ?fn_lookup_insert; simpl;
    rewrite ?Hset; try done.
  all: rewrite Hupd in Hset; by rewrite Hset.
Qed.

Lemma AddTorrentInfoHash_registers (cl cl0 : Client) (ih : string)
    (r : torrentRef) (new : bool) :
  AddTorrentInfoHash cl ih = (cl0, r, new) ->
  torrents cl0 !! ih = Some r.
Proof.
  unfold torrent.AddTorrentInfoHash.
  destruct (torrents cl !! ih) as [r0 |] eqn:Hl.
  - by intros [= <- <- <-].
  - intros [= <- <- <-]. simpl. apply lookup_insert_eq.
Qed.

Lemma AddTorrentInfoHash_known (cl : Client) (ih : string)
    (r : torrentRef) :
  torrents cl !! ih = Some r ->
  AddTorrentInfoHash cl ih = (cl, r, false).
Proof. unfold torrent.AddTorrentInfoHash. by intros ->. Qed.

(** A torrent that has its info keeps it, and a spec applied without
    error leaves the torrent with the spec's trackers merged into the
    ones it had. *)
Lemma applySpec_once (spec : TorrentSpec.t) (x x1 : Torrent)
    (err1 : option error) :
  applySpec spec x = (x1, err1) ->
  infoHash x1 = infoHash x /\
  (forall b, info x = Some b -> info x1 = Some b) /\
  (err1 = None ->
   tiersWithin (TorrentSpec.Trackers spec) (Trackers x1) /\
   tiersWithin (Trackers x) (Trackers x1)) /\
  (forall e, err1 = Some e ->
             info x1 = None /\ Trackers x1 = Trackers x /\
             exists b, TorrentSpec.Info spec = Some b /\
                       checkInfoBytes (infoHash x) b = Some e) /\
  (err1 = None -> TorrentSpec.Info spec <> None -> info x1 <> None).
Proof.
  unfold torrent.applySpec, torrent.SetInfoBytes, SetDisplayName,
    addTrackers.
  pose proof (mergeTiers_new (TorrentSpec.Trackers spec) (Trackers x))
    as Hnew.
  pose proof (mergeTiers_old (TorrentSpec.Trackers spec) (Trackers x))
    as Hold.
  intros Happ.
  destruct (bool_decide (TorrentSpec.DisplayName spec <> ""%string));
    destruct (TorrentSpec.Info spec) as [b |]; simpl in Happ;
    try destruct (info x) as [b0 |] eqn:Hinfo; simpl in Happ;
    try destruct (checkInfoBytes (infoHash x) b) as [e |] eqn:Hchk;
    simpl in Happ;
    destruct (TorrentSpec.ChunkSize spec =? 0); simpl in Happ;
    injection Happ as <- <-; simpl;
    repeat match goal with |- _ /\ _ => split end;
    try done; try congruence.
  all: try (intros _; by split).
  all: intros e0 [= <-]; rewrite ?Hinfo; by eauto.
Qed.

Lemma applySpec_twice (spec : TorrentSpec.t) (x x1 x2 : Torrent)
    (err1 err2 : option error) :
  applySpec spec x = (x1, err1) ->
  applySpec spec x1 = (x2, err2) ->
  err2 = err1.
Proof.
  intros H1 H2.
  destruct (applySpec_once _ _ _ _ H1) as (Hih1 & _ & _ & He1 & Hs1).
  destruct (applySpec_once _ _ _ _ H2) as (_ & Hk2 & _ & He2 & _).
  destruct err2 as [e2 |], err1 as [e1 |]; try done.
  - destruct (He1 e1 eq_refl) as (_ & _ & b1 & Hb1 & Hc1).
    destruct (He2 e2 eq_refl) as (_ & _ & b2 & Hb2 & Hc2).
    congruence.
  - destruct (He2 e2 eq_refl) as (Hnone & _ & b2 & Hb2 & _).
    exfalso.
    destruct (info x1) as [b1 |] eqn:Hi1.
    + specialize (Hk2 b1 eq_refl). congruence.
    + apply (Hs1 eq_refl); [congruence | done].
  - destruct (He1 e1 eq_refl) as (Hn1 & _ & b1 & Hb1 & Hc1).
    exfalso. revert H2.
    unfold torrent.applySpec, torrent.SetInfoBytes, SetDisplayName.
    rewrite Hb1.
    destruct (bool_decide _); simpl; rewrite Hn1, Hih1, Hc1; done.
Qed.

(** A spec whose info bytes the torrent does not accept: the error comes
    back, and only the display name was touched. *)
Lemma applySpec_rejected (spec : TorrentSpec.t) (x : Torrent)
    (b : list byte) (e : error) :
  TorrentSpec.Info spec = Some b ->
  info x = None ->
  checkInfoBytes (infoHash x) b = Some e ->
  applySpec spec x
  = (if bool_decide (TorrentSpec.DisplayName spec <> ""%string)
     then SetDisplayName (TorrentSpec.DisplayName spec) x else x,
     Some e).
Proof.
  unfold torrent.applySpec, torrent.SetInfoBytes, SetDisplayName.
  intros -> Hinfo Hchk.
  destruct (bool_decide _); simpl; by rewrite Hinfo, Hchk.
Qed.

(** The torrent that [AddTorrentInfoHash] returns has the trackers it had
    in the table, or none when it is new. *)
Lemma AddTorrentInfoHash_trackers (cl cl0 : Client) (ih : string)
    (r : torrentRef) (new : bool) :
  AddTorrentInfoHash cl ih = (cl0, r, new) ->
  Trackers (objects cl0 r)
  = if new then [] else Trackers (objects cl r).
Proof.
  unfold torrent.AddTorrentInfoHash.
  destruct (torrents cl !! ih) as [r0 |] eqn:Hl.
  - by intros [= <- <- <-].
  - intros [= <- <- <-]. simpl. by rewrite fn_lookup_insert.
Qed.

(** C7, amended.  After a spec was added, adding it again returns the
    same torrent with [new = false] and the same error as before, the
    table of torrents is the same and holds that torrent under the
    spec's info-hash, and an info that the torrent has is kept.  When the
    call returns no error the torrent's trackers hold the spec's trackers
    and the ones it had, tier by tier.  When the call returns an error,
    the spec carries info bytes that the torrent, which has no info,
    rejected with that error, and the trackers were not merged: after
    either call they are the ones the torrent had before the first (none
    for a new torrent).  And a spec with info bytes that the torrent,
    still without info, rejects gets that error from both calls, with the
    trackers left as they were. *)
Theorem AddTorrentSpec_twice (cl cl1 cl2 : Client) (spec : TorrentSpec.t)
    (t1 t2 : torrentRef) (new1 new2 : bool) (err1 err2 : option error) :
  AddTorrentSpec cl spec = (cl1, t1, new1, err1) ->
  AddTorrentSpec cl1 spec = (cl2, t2, new2, err2) ->
  t2 = t1 /\ new2 = false /\
  torrents cl2 = torrents cl1 /\
  torrents cl2 !! TorrentSpec.InfoHash spec = Some t1 /\
  err2 = err1 /\
  (forall b, info (objects cl1 t1) = Some b ->
             info (objects cl2 t2) = Some b) /\
  (err2 = None ->
   tiersWithin (TorrentSpec.Trackers spec) (Trackers (objects cl2 t2)) /\
   tiersWithin (Trackers (objects cl1 t1)) (Trackers (objects cl2 t2))) /\
  (forall e, err2 = Some e ->
     (exists b, TorrentSpec.Info spec = Some b /\
                checkInfoBytes (infoHash (objects cl1 t1)) b = Some e) /\
     info (objects cl1 t1) = None /\
     info (objects cl2 t2) = None /\
     Trackers (objects cl2 t2) = Trackers (objects cl1 t1) /\
     Trackers (objects cl1 t1)
     = (if new1 then [] else Trackers (objects cl t1))) /\
  (forall b e,
     TorrentSpec.Info spec = Some b ->
     info (objects cl1 t1) = None ->
     checkInfoBytes (infoHash (objects cl1 t1)) b = Some e ->
     err1 = Some e /\ err2 = Some e /\
     Trackers (objects cl2 t2) = Trackers (objects cl1 t1) /\
     Trackers (objects cl1 t1)
     = (if new1 then [] else Trackers (objects cl t1))).
Proof.
  intros (cl0 & Hih1 & Htab1 & Happ1)%AddTorrentSpec_inv
         (cl0' & Hih2 & Htab2 & Happ2)%AddTorrentSpec_inv.
  apply AddTorrentInfoHash_registers in Hih1 as Hreg.
  apply AddTorrentInfoHash_trackers in Hih1 as Hold.
  rewrite <- Htab1 in Hreg.
  rewrite (AddTorrentInfoHash_known _ _ _ Hreg) in Hih2.
  injection Hih2 as <- <- <-.
  pose proof (applySpec_twice _ _ _ _ _ _ Happ1 Happ2) as Herr.
  destruct (applySpec_once _ _ _ _ Happ1) as (_ & _ & _ & He1 & _).
  destruct (applySpec_once _ _ _ _ Happ2) as (Hih & Hk & Htr & He2 & _).
  assert (Hrej : forall e, err2 = Some e ->
            (exists b, TorrentSpec.Info spec = Some b /\
                       checkInfoBytes (infoHash (objects cl1 t1)) b
                       = Some e) /\
            info (objects cl1 t1) = None /\
            info (objects cl2 t1) = None /\
            Trackers (objects cl2 t1) = Trackers (objects cl1 t1) /\
            Trackers (objects cl1 t1)
            = (if new1 then [] else Trackers (objects cl t1))).
  { intros e He.
    destruct (He2 e He) as (Hn2 & Ht2 & b & Hb & Hc).
    destruct (He1 e ltac:(congruence)) as (Hn1 & Ht1 & _).
    split; [by exists b |]. split; [done |]. split; [done |].
    split; [done |]. by rewrite Ht1. }
  split; [done |]. split; [done |]. split; [done |].
  split; [by rewrite Htab2 |].
  split; [done |]. split; [done |]. split; [done |].
  split; [exact Hrej |].
  intros b e Hb Hn Hc.
  rewrite (applySpec_rejected spec _ b e Hb Hn Hc) in Happ2.
  injection Happ2 as _ He.
  destruct (Hrej e (eq_sym He)) as (_ & _ & _ & Ht2 & Ht1).
  split; [congruence |]. split; [done |]. split; [done | done].
Qed.

End AddTorrentFacts.

(** C7, as stated, fails: a spec whose info bytes the torrent does not
    accept is added twice.  Both calls return the error, the torrent is in
    the table, and its trackers are still none: the spec's tracker was not
    merged. *)
Lemma rejected_info_leaves_trackers_unmerged :
  samples.rejectedOnce.2
  = Some (torrent.ErrInfoBytes "info bytes have wrong hash") /\
  samples.rejectedTwice.2
  = Some (torrent.ErrInfoBytes "info bytes have wrong hash") /\
  torrent.torrents samples.rejectedTwice.1.1.1 !! "infohash-1"%string
  = Some samples.rejectedTwice.1.1.2 /\
  torrent.TorrentSpec.Trackers samples.specWithInfo
  = [["http://tracker.example/announce"%string]] /\
  torrent.Trackers
    (torrent.objects samples.rejectedTwice.1.1.1
                     samples.rejectedTwice.1.1.2)
  = [].
Proof. repeat split; reflexivity. Qed.

(** A magnet-style spec added twice to an empty client; and a spec with
    another tracker and info bytes that are rejected, added twice to the
    client that holds the torrent: both calls return the error and the
    torrent keeps the tracker it had and no other. *)
Lemma AddTorrentSpec_twice_witness :
  (samples.addedTwice.1.1.2 = samples.addedOnce.1.1.2 /\
   samples.addedTwice.1.2 = false /\
   torrent.torrents samples.addedTwice.1.1.1
   = torrent.torrents samples.addedOnce.1.1.1 /\
   torrent.torrents samples.addedTwice.1.1.1 !! "infohash-1"%string
   = Some samples.addedOnce.1.1.2 /\
   samples.addedTwice.2 = samples.addedOnce.2 /\
   (forall b,
      torrent.info (torrent.objects samples.addedOnce.1.1.1
                                    samples.addedOnce.1.1.2) = Some b ->
      torrent.info (torrent.objects samples.addedTwice.1.1.1
                                    samples.addedTwice.1.1.2) = Some b) /\
   (samples.addedTwice.2 = None ->
    torrent.tiersWithin
      (torrent.TorrentSpec.Trackers samples.specMagnet)
      (torrent.Trackers (torrent.objects samples.addedTwice.1.1.1
                                         samples.addedTwice.1.1.2)) /\
    torrent.tiersWithin
      (torrent.Trackers (torrent.objects samples.addedOnce.1.1.1
                                         samples.addedOnce.1.1.2))
      (torrent.Trackers (torrent.objects samples.addedTwice.1.1.1
                                         samples.addedTwice.1.1.2)))) /\
  (samples.rejectedKnownOnce.2
   = Some (torrent.ErrInfoBytes "info bytes have wrong hash") /\
   samples.rejectedKnownTwice.2
   = Some (torrent.ErrInfoBytes "info bytes have wrong hash") /\
   torrent.Trackers
     (torrent.objects samples.rejectedKnownTwice.1.1.1
                      samples.rejectedKnownTwice.1.1.2)
   = torrent.Trackers
       (torrent.objects samples.rejectedKnownOnce.1.1.1
                        samples.rejectedKnownOnce.1.1.2) /\
   torrent.Trackers
     (torrent.objects samples.rejectedKnownOnce.1.1.1
                      samples.rejectedKnownOnce.1.1.2)
   = [["http://tracker.example/announce"%string]]).
Proof.
  split.
  - pose proof (AddTorrentSpec_twice
                  16384 samples.acceptInfo samples.noPieces
                  samples.emptyClient samples.addedOnce.1.1.1
                  samples.addedTwice.1.1.1 samples.specMagnet
                  samples.addedOnce.1.1.2 samples.addedTwice.1.1.2
                  samples.addedOnce.1.2 samples.addedTwice.1.2
                  samples.addedOnce.2 samples.addedTwice.2
                  eq_refl eq_refl)
      as (H1 & H2 & H3 & H4 & H5 & H6 & H7 & _).
    split; [exact H1 |]. split; [exact H2 |]. split; [exact H3 |].
    split; [exact H4 |]. split; [exact H5 |]. split; [exact H6 |].
    exact H7.
  - pose proof (AddTorrentSpec_twice
                  16384 samples.rejectInfo samples.noPieces
                  samples.addedOnce.1.1.1 samples.rejectedKnownOnce.1.1.1
                  samples.rejectedKnownTwice.1.1.1 samples.specOtherTracker
                  samples.rejectedKnownOnce.1.1.2
                  samples.rejectedKnownTwice.1.1.2
                  samples.rejectedKnownOnce.1.2 samples.rejectedKnownTwice.1.2
                  samples.rejectedKnownOnce.2 samples.rejectedKnownTwice.2
                  eq_refl eq_refl)
      as (_ & _ & _ & _ & _ & _ & _ & _ & H9).
    destruct (H9 [Byte.x64; Byte.x65]
                 (torrent.ErrInfoBytes "info bytes have wrong hash")
                 eq_refl eq_refl eq_refl)
      as (E1 & E2 & T2 & T1).
    split; [exact E1 |]. split; [exact E2 |]. split; [exact T2 |].
    exact T1.
Defined.

(** * Further properties *)

(** ** metainfo/metainfo.go: lengths, pieces and blocks *)

Section MetainfoMore.

Import metainfo.

(** [io.CopyN] reports a full copy exactly when the count is not negative
    and the source holds that many bytes, and then hands on the first [n]
    bytes. *)
Lemma CopyN_full (r : Reader) (n : Z) :
  ((CopyN r n).1.2 = n /\ (CopyN r n).2 = None <->
   0 <= n <= len (data r)) /\
  (0 <= n <= len (data r) ->
   (CopyN r n).1.1.1 = take (Z.to_nat n) (data r)).
Proof.
  pose proof (len_nonneg (data r)) as Hlen.
  unfold CopyN.
  destruct (Z.leb_spec n 0) as [Hn | Hn]; simpl.
  - split; [intuition lia |]. intros Hr.
    replace n with 0 by lia. done.
  - destruct (Z.leb_spec n (len (data r))) as [Hd | Hd]; simpl.
    + split; [intuition lia | done].
    + split; [| lia]. split; [intros [_ [=]] | lia].
Qed.

Lemma writeFilesFrom_copyable (open : FileInfo.t -> Reader + error)
    (files : list FileInfo.t) :
  forall w,
  (Forall (copyable open) files ->
   writeFilesFrom files open w
   = (w ++ concat (copied open <$> files), None)) /\
  (forall w', writeFilesFrom files open w = (w', None) ->
              Forall (copyable open) files).
Proof.
  induction files as [| fi files IH]; intros w; simpl.
  - split; [by rewrite app_nil_r | constructor].
  - unfold copied at 1.
    destruct (open fi) as [r | e] eqn:Hopen.
    2: { split; [| done].
         intros [(r & Hr & _) _]%list.Forall_cons. congruence. }
    destruct (CopyN_full r (FileInfo.Length fi)) as [Hfull Htake].
    destruct (CopyN r (FileInfo.Length fi)) as [[[written r'] wn] err]
      eqn:HC.
    simpl in Hfull, Htake.
    destruct (IH (w ++ written)) as [IHok IHinv].
    split.
    + intros [(r0 & Hr0 & Hlen) Hrest]%list.Forall_cons.
      assert (r0 = r) as -> by congruence.
      destruct (proj2 Hfull Hlen) as [-> ->]. simpl.
      rewrite Z.eqb_refl. simpl.
      rewrite IHok by done. rewrite (Htake Hlen), <- app_assoc. done.
    + intros w'.
      destruct (Z.eqb_spec wn (FileInfo.Length fi)) as [E | E]; simpl;
        [| done].
      destruct err as [e |]; simpl; [done |].
      intros Hrest. apply list.Forall_cons. split.
      * exists r. split; [done |]. by apply Hfull.
      * by eapply IHinv.
Qed.

Lemma copied_length (open : FileInfo.t -> Reader + error)
    (files : list FileInfo.t) :
  Forall (copyable open) files ->
  len (concat (copied open <$> files)) = sumLengths files.
Proof.
  induction 1 as [| fi files (r & Hr & Hlen) _ IH]; [done |].
  change (len (copied open fi ++ concat (copied open <$> files))
          = FileInfo.Length fi + sumLengths files).
  rewrite <- IH. unfold len in *. rewrite length_app, Nat2Z.inj_add.
  unfold copied. rewrite Hr, length_take. lia.
Qed.

Lemma blocks_fuel {A} (n : nat) (f1 : nat) :
  forall (f2 : nat) (l : list A),
  (1 <= n)%nat -> (length l <= f1)%nat -> (length l <= f2)%nat ->
  blocks f1 n l = blocks f2 n l.
Proof.
  induction f1 as [| f1 IH]; intros f2 l Hn H1 H2.
  - destruct l; [by destruct f2 | simpl in H1; lia].
  - destruct l as [| a l]; [by destruct f2 |].
    destruct f2 as [| f2]; [simpl in H2; lia |].
    cbn [blocks]. f_equal.
    apply IH; [done | |]; rewrite length_drop; simpl in *; lia.
Qed.

Lemma blocksOf_cons {A} (n : nat) (l : list A) :
  (1 <= n)%nat -> l <> [] ->
  blocksOf n l = take n l :: blocksOf n (drop n l).
Proof.
  intros Hn Hl. unfold blocksOf.
  destruct l as [| a l]; [done |]. cbn [length blocks]. f_equal.
  apply blocks_fuel; [done | |]; rewrite length_drop; simpl; lia.
Qed.

Lemma ceil_div_step (m k : Z) :
  0 < k -> (m + k + k - 1) / k = (m + k - 1) / k + 1.
Proof.
  intros Hk. replace (m + k + k - 1) with (m + k - 1 + 1 * k) by lia.
  apply Z.div_add. lia.
Qed.

Lemma blocks_length {A} (n : nat) (fuel : nat) :
  forall l : list A,
  (1 <= n)%nat -> (length l <= fuel)%nat ->
  Z.of_nat (length (blocks fuel n l))
  = (Z.of_nat (length l) + Z.of_nat n - 1) / Z.of_nat n.
Proof.
  induction fuel as [| fuel IH]; intros l Hn Hle.
  - destruct l; [| simpl in Hle; lia]. simpl.
    symmetry. apply Z.div_small. lia.
  - destruct l as [| a l].
    { simpl. symmetry. apply Z.div_small. lia. }
    remember (a :: l) as l' eqn:El.
    assert (Hpos : (1 <= length l')%nat) by (subst l'; simpl; lia).
    assert (Hfuel : (length (drop n l') <= fuel)%nat)
      by (rewrite length_drop; lia).
    rewrite El at 1. cbn [blocks]. rewrite <- El.
    cbn [length]. rewrite Nat2Z.inj_succ, (IH _ Hn Hfuel), length_drop.
    destruct (le_lt_dec n (length l')) as [Hge | Hlt].
    + rewrite Nat2Z.inj_sub by done.
      replace (Z.of_nat (length l') + Z.of_nat n - 1)
        with (Z.of_nat (length l') - Z.of_nat n + Z.of_nat n + Z.of_nat n - 1)
        by lia.
      rewrite ceil_div_step by lia. lia.
    + replace (length l' - n)%nat with O by lia.
      rewrite (Z.div_small (Z.of_nat 0 + Z.of_nat n - 1)) by lia.
      apply Z.div_unique with (r := Z.of_nat (length l') - 1); lia.
Qed.

(** The number of blocks is the length over the block size, rounded
    up. *)
Lemma blocksOf_length {A} (n : nat) (l : list A) :
  (1 <= n)%nat ->
  Z.of_nat (length (blocksOf n l))
  = (len l + Z.of_nat n - 1) / Z.of_nat n.
Proof. intros Hn. unfold blocksOf, len. by apply blocks_length. Qed.

Variable sha1 : list byte -> list byte.

(** On a source that ends with [io.EOF] the loop of [GeneratePieces]
    appends the digest of each block of [PieceLength] bytes. *)
Lemma hashLoop_blocks (fuel : nat) (pieceLength : Z) :
  forall (pr : Reader) (pieces : list byte),
  0 < pieceLength ->
  fails pr = None ->
  (length (data pr) < fuel)%nat ->
  hashLoop sha1 fuel pieceLength pr pieces
  = Some (inl (pieces
               ++ concat (sha1 <$> blocksOf (Z.to_nat pieceLength)
                                            (data pr)))).
Proof.
  induction fuel as [| fuel IH]; intros pr pieces HP Hfails Hfuel; [lia |].
  cbn [hashLoop]. unfold CopyN.
  destruct (Z.leb_spec pieceLength 0) as [? | _]; [lia |].
  destruct (Z.leb_spec pieceLength (len (data pr))) as [Hd | Hd]; simpl.
  - destruct (Z.eqb_spec pieceLength 0); [lia |].
    rewrite Z.ltb_irrefl.
    assert (Hne : data pr <> []).
    { intros E. rewrite E in Hd. unfold len in Hd. simpl in Hd. lia. }
    rewrite IH; [| done | done |]; simpl.
    2: { rewrite length_drop. unfold len in Hd. lia. }
    rewrite (blocksOf_cons _ (data pr)) by (done || lia).
    simpl. by rewrite <- app_assoc.
  - rewrite Hfails. simpl.
    destruct (Z.eqb_spec (len (data pr)) 0) as [E | E].
    + destruct (data pr); [| unfold len in E; simpl in E; lia].
      by rewrite app_nil_r.
    + destruct (Z.ltb_spec (len (data pr)) pieceLength); [| lia].
      assert (Hne : data pr <> []).
      { intros E'. rewrite E' in E. done. }
      rewrite (blocksOf_cons _ (data pr)) by (done || lia).
      rewrite take_ge, drop_ge by (unfold len in Hd; lia).
      simpl. by rewrite app_nil_r.
Qed.

(** On a source that ends with an error the loop returns that error. *)
Lemma hashLoop_fails (fuel : nat) (pieceLength : Z) :
  forall (pr : Reader) (pieces : list byte) (e : error),
  0 < pieceLength ->
  fails pr = Some e -> e <> EOF ->
  (length (data pr) < fuel)%nat ->
  hashLoop sha1 fuel pieceLength pr pieces = Some (inr e).
Proof.
  induction fuel as [| fuel IH]; intros pr pieces e HP Hfails He Hfuel;
    [lia |].
  cbn [hashLoop]. unfold CopyN.
  destruct (Z.leb_spec pieceLength 0) as [? | _]; [lia |].
  destruct (Z.leb_spec pieceLength (len (data pr))) as [Hd | Hd]; simpl.
  - destruct (Z.eqb_spec pieceLength 0); [lia |].
    rewrite Z.ltb_irrefl.
    apply IH; [done | done | done |]. simpl.
    rewrite length_drop. unfold len in Hd. lia.
  - rewrite Hfails. by destruct e.
Qed.

Lemma writeFilesFrom_error_not_EOF (open : FileInfo.t -> Reader + error)
    (files : list FileInfo.t) :
  forall w w' e, writeFilesFrom files open w = (w', Some e) -> e <> EOF.
Proof.
  induction files as [| fi files IH]; intros w w' e; simpl; [done |].
  destruct (open fi) as [r | e0]; [| by intros [= _ <-]].
  destruct (CopyN r (FileInfo.Length fi)) as [[[written r'] wn] err].
  destruct (negb (wn =? FileInfo.Length fi) || notNil err).
  - intros [= _ <-]. by destruct err.
  - apply IH.
Qed.

Lemma GeneratePieces_copyable (info : Info)
    (open : FileInfo.t -> Reader + error) :
  0 < PieceLength info ->
  Forall (copyable open) (UpvertedFiles info) ->
  GeneratePieces sha1 info open
  = Some (set_Pieces
            (concat (sha1 <$> blocksOf (Z.to_nat (PieceLength info))
                       (concat (copied open <$> UpvertedFiles info))))
            info, None).
Proof.
  intros HP Hall. unfold GeneratePieces, writeFiles.
  destruct (Z.eqb_spec (PieceLength info) 0); [lia |].
  rewrite (proj1 (writeFilesFrom_copyable open _ []) Hall).
  rewrite hashLoop_blocks; [done | done | done | simpl; lia].
Qed.

Lemma GeneratePieces_not_copyable (info : Info)
    (open : FileInfo.t -> Reader + error) :
  0 < PieceLength info ->
  ~ Forall (copyable open) (UpvertedFiles info) ->
  exists e, GeneratePieces sha1 info open = Some (info, Some e).
Proof.
  intros HP Hnot. unfold GeneratePieces, writeFiles.
  destruct (Z.eqb_spec (PieceLength info) 0); [lia |].
  destruct (writeFilesFrom (UpvertedFiles info) open []) as [stream werr]
    eqn:Hw.
  destruct werr as [e |].
  - exists e. rewrite (hashLoop_fails _ _ _ _ e); [done | done | done | |].
    + by eapply writeFilesFrom_error_not_EOF.
    + simpl. lia.
  - destruct Hnot. by eapply writeFilesFrom_copyable.
Qed.

(** X1.  With a positive piece length and files that all open and hold
    their declared lengths, [GeneratePieces] returns no error and sets
    [Pieces] to the digests, in order, of the consecutive blocks of
    [PieceLength] bytes of the files' contents laid end to end (each file
    cut at its declared length); the last block may be shorter. *)
Theorem GeneratePieces_hashes_blocks (info : Info)
    (open : FileInfo.t -> Reader + error) :
  0 < PieceLength info ->
  Forall (copyable open) (UpvertedFiles info) ->
  GeneratePieces sha1 info open
  = Some (set_Pieces
            (concat (sha1 <$> blocksOf (Z.to_nat (PieceLength info))
                       (concat (copied open <$> UpvertedFiles info))))
            info, None).
Proof. apply GeneratePieces_copyable. Qed.

Lemma GeneratePieces_nil_copyable (info info' : Info)
    (open : FileInfo.t -> Reader + error) :
  0 < PieceLength info ->
  GeneratePieces sha1 info open = Some (info', None) ->
  Forall (copyable open) (UpvertedFiles info).
Proof.
  intros HP. unfold GeneratePieces, writeFiles.
  destruct (Z.eqb_spec (PieceLength info) 0); [lia |].
  destruct (writeFilesFrom (UpvertedFiles info) open []) as [stream werr]
    eqn:Hw.
  destruct werr as [e |].
  - rewrite (hashLoop_fails _ _ _ _ e); [done | done | done | |].
    + by eapply writeFilesFrom_error_not_EOF.
    + simpl. lia.
  - intros _. by eapply writeFilesFrom_copyable.
Qed.

(** X2.  With a positive piece length, [GeneratePieces] returns without
    error exactly when every file opens and holds at least its declared,
    non-negative length; otherwise it returns an error and the info it
    was given. *)
Theorem GeneratePieces_succeeds_iff_copyable (info : Info)
    (open : FileInfo.t -> Reader + error) :
  0 < PieceLength info ->
  ((exists info', GeneratePieces sha1 info open = Some (info', None)) <->
   Forall (copyable open) (UpvertedFiles info)) /\
  (~ Forall (copyable open) (UpvertedFiles info) ->
   exists e, GeneratePieces sha1 info open = Some (info, Some e)).
Proof.
  intros HP. split; [| by apply GeneratePieces_not_copyable].
  split.
  - intros [info' Hok]. by eapply GeneratePieces_nil_copyable.
  - intros Hall. eexists. by apply GeneratePieces_copyable.
Qed.

(** X3.  A negative piece length is not refused: [GeneratePieces] reads
    nothing, returns no error and leaves the info with an empty piece
    string, whatever the files are. *)
Theorem GeneratePieces_negative_piece_length (info : Info)
    (open : FileInfo.t -> Reader + error) :
  PieceLength info < 0 ->
  GeneratePieces sha1 info open = Some (set_Pieces [] info, None).
Proof.
  intros HP. unfold GeneratePieces.
  destruct (Z.eqb_spec (PieceLength info) 0); [lia |].
  destruct (writeFiles info open) as [stream werr].
  cbn [hashLoop]. unfold CopyN.
  destruct (Z.leb_spec (PieceLength info) 0); [done | lia].
Qed.

Lemma wrap64_add_l (a b : Z) : wrap64 (wrap64 a + b) = wrap64 (a + b).
Proof.
  unfold wrap64. f_equal.
  replace ((a + 2 ^ 63) mod 2 ^ 64 - 2 ^ 63 + b + 2 ^ 63)
    with ((a + 2 ^ 63) mod 2 ^ 64 + b) by lia.
  rewrite Zplus_mod_idemp_l. f_equal. lia.
Qed.

Lemma foldl_wrap64 (files : list FileInfo.t) :
  forall acc,
  foldl (fun ret fi => wrap64 (ret + FileInfo.Length fi)) (wrap64 acc) files
  = wrap64 (acc + sumLengths files).
Proof.
  induction files as [| fi files IH]; intros acc.
  - simpl. by rewrite Z.add_0_r.
  - change (foldl (fun ret fi => wrap64 (ret + FileInfo.Length fi))
              (wrap64 (wrap64 acc + FileInfo.Length fi)) files
            = wrap64 (acc + (FileInfo.Length fi + sumLengths files))).
    rewrite IH, <- Z.add_assoc, wrap64_add_l. done.
Qed.

Lemma TotalLength_wrap (info : Info) :
  IsDir info = true -> TotalLength info = wrap64 (sumLengths (Files info)).
Proof.
  intros Hdir. unfold TotalLength. rewrite Hdir.
  change 0 with (wrap64 0) at 1. by rewrite foldl_wrap64.
Qed.

Lemma TotalLength_sum (info : Info) :
  inInt64 (sumLengths (UpvertedFiles info)) ->
  TotalLength info = sumLengths (UpvertedFiles info).
Proof.
  intros Hin. destruct (IsDir info) eqn:Hdir.
  - rewrite TotalLength_wrap by done. unfold UpvertedFiles in *.
    unfold IsDir in Hdir. destruct (len (Files info) =? 0); [done |].
    by apply wrap64_id.
  - unfold TotalLength, UpvertedFiles. rewrite Hdir. unfold IsDir in Hdir.
    destruct (len (Files info) =? 0); [| done]. simpl. lia.
Qed.

(** X4.  [TotalLength] is the sum of the lengths of the files that
    [UpvertedFiles] lists, as long as that sum is an [int64]; in general
    the sum over a file list is taken modulo 2^64. *)
Theorem TotalLength_sums_UpvertedFiles (info : Info) :
  (inInt64 (sumLengths (UpvertedFiles info)) ->
   TotalLength info = sumLengths (UpvertedFiles info)) /\
  (IsDir info = true ->
   TotalLength info = wrap64 (sumLengths (Files info))).
Proof. split; [apply TotalLength_sum | apply TotalLength_wrap]. Qed.

Lemma concat_sha1_length (bss : list (list byte)) :
  (forall bs, len (sha1 bs) = 20) ->
  len (concat (sha1 <$> bss)) = 20 * len bss.
Proof.
  intros H20. induction bss as [| bs bss IH]; [done |].
  change (len (sha1 bs ++ concat (sha1 <$> bss)) = 20 * len (bs :: bss)).
  unfold len in *. rewrite length_app, Nat2Z.inj_add, IH, H20.
  simpl length. lia.
Qed.

(** X5.  After a [GeneratePieces] that returned no error, on an info
    with a positive piece length whose files add up to an [int64], with
    a hash of twenty bytes: [NumPieces] does not panic and is the total
    length divided by the piece length, rounded up. *)
Theorem NumPieces_after_GeneratePieces (info info' : Info)
    (open : FileInfo.t -> Reader + error) :
  (forall bs, len (sha1 bs) = 20) ->
  0 < PieceLength info ->
  inInt64 (sumLengths (UpvertedFiles info)) ->
  GeneratePieces sha1 info open = Some (info', None) ->
  NumPieces info'
  = Returns ((TotalLength info' + PieceLength info' - 1)
             / PieceLength info').
Proof.
  intros H20 HP Hin Hgen.
  pose proof (GeneratePieces_nil_copyable _ _ _ HP Hgen) as Hall.
  rewrite (GeneratePieces_copyable _ _ HP Hall) in Hgen.
  injection Hgen as <-.
  assert (HT : TotalLength (set_Pieces
                 (concat (sha1 <$> blocksOf (Z.to_nat (PieceLength info))
                    (concat (copied open <$> UpvertedFiles info)))) info)
               = sumLengths (UpvertedFiles info)).
  { by rewrite <- TotalLength_sum. }
  rewrite HT. unfold NumPieces. cbn [Pieces PieceLength set_Pieces].
  rewrite concat_sha1_length by done.
  unfold len at 1 2. rewrite blocksOf_length by lia.
  rewrite copied_length by done. rewrite Z2Nat.id by lia.
  replace (Z.rem (20 * _) 20) with 0.
  2: { symmetry. rewrite Z.mul_comm. apply Z.rem_mul. lia. }
  simpl. f_equal. rewrite Z.mul_comm. apply Z.quot_mul. lia.
Qed.

Variable Base : string -> string.
Variable Stat : string -> osFileInfo + error.
Variable Open : string -> Reader + error.

(** X6.  On a regular file that opens and holds the size that [os.Stat]
    reported, with a positive piece length, [BuildFromFile] returns no
    error: the name is the base of the path, [Length] is the size,
    [Files] is one entry of that size with no path, and [Pieces] holds
    the digests of the blocks of the first [size] bytes of the file.
    The info it leaves answers true to [IsDir]. *)
Theorem BuildFromFile_regular_file (info : Info) (path : string)
    (size : Z) (r : Reader) :
  0 < PieceLength info ->
  Stat path = inl (mkStat false size) ->
  Open path = inl r ->
  0 <= size <= len (data r) ->
  let built :=
    mkInfo (PieceLength info)
           (concat (sha1 <$> blocksOf (Z.to_nat (PieceLength info))
                      (take (Z.to_nat size) (data r))))
           (Base path) size (Private info) [FileInfo.mk size []] in
  BuildFromFile sha1 Base Stat Open info path = Some (built, None) /\
  IsDir built = true.
Proof.
  intros HP HStat HOpen Hsize built. split; [| done].
  unfold BuildFromFile. rewrite HStat. cbn [fiIsDir fiSize].
  set (info1 := set_Length _ _).
  assert (HU : UpvertedFiles info1 = [FileInfo.mk size []]) by done.
  rewrite GeneratePieces_copyable.
  - rewrite HU. cbn [fmap list_fmap concat]. unfold copied.
    rewrite HOpen, app_nil_r. done.
  - done.
  - rewrite HU. repeat constructor. exists r. done.
Qed.

(** X7.  When [BuildFromFile] returns an error, the piece string, the
    piece length and the private flag are the ones it was given and the
    name is the base of the path.  On a directory the error is the
    is-dir error and the file list is empty; on a regular file that does
    not open, or that holds fewer bytes than [os.Stat] reported, the
    error wraps the one of [GeneratePieces] and the info already
    carries the size. *)
Theorem BuildFromFile_error (info info' : Info) (path : string)
    (e : error) :
  BuildFromFile sha1 Base Stat Open info path = Some (info', Some e) ->
  Pieces info' = Pieces info /\
  PieceLength info' = PieceLength info /\
  Private info' = Private info /\
  Name info' = Base path /\
  exists fi, Stat path = inl fi /\
    if fiIsDir fi
    then e = ErrIsDir /\ Files info' = []
    else (exists cause, e = ErrGeneratingPieces cause) /\
         Files info' = [FileInfo.mk (fiSize fi) []] /\
         Length info' = fiSize fi /\
         (0 < PieceLength info ->
          ~ (exists r, Open path = inl r /\
                       0 <= fiSize fi <= len (data r))).
Proof.
  unfold BuildFromFile.
  destruct (Stat path) as [fi | err]; [| discriminate].
  destruct (fiIsDir fi) eqn:Hdir.
  - intros [= <- <-]. repeat split; try done. exists fi.
    rewrite Hdir. done.
  - set (info1 := set_Length _ _).
    destruct (GeneratePieces sha1 info1 (fun _ => Open path))
      as [[info2 [e2 |]] |] eqn:Hgen; [| discriminate ..].
    intros [= <- <-].
    assert (E : info2 = info1).
    { destruct (PieceLength info1 =? 0) eqn:HPL.
      - unfold GeneratePieces in Hgen. rewrite HPL in Hgen. congruence.
      - unfold GeneratePieces in Hgen. rewrite HPL in Hgen.
        destruct (writeFiles info1 _) as [stream werr].
        destruct (hashLoop _ _ _ _ _) as [[ps | e3] |]; congruence. }
    subst info2. repeat split; try done. exists fi. rewrite Hdir.
    split; [done |]. split; [eauto |]. split; [done |]. split; [done |].
    intros HP (r & HOpen & Hsize).
    assert (HU : UpvertedFiles info1 = [FileInfo.mk (fiSize fi) []])
      by done.
    rewrite GeneratePieces_copyable in Hgen; [done | done |].
    rewrite HU. repeat constructor. exists r. done.
Qed.

Variable Walk : string -> list visit.
Variable Rel : string -> string -> string + error.
Variable Split : string -> list string.
Variable Join : string -> list string -> string.

Lemma walkFn_nil (root : string) (info info' : Info) (v : visit) :
  walkFn Rel Split root info v = (info', None) ->
  passes Rel root v /\
  Files info' = Files info ++ option_list (entry Rel Split root v) /\
  keeps info info'.
Proof.
  destruct v as [path st]. unfold walkFn, entry, passes, keeps.
  cbn [fst snd].
  destruct st as [fi | err]; [| discriminate].
  destruct (fiIsDir fi) eqn:Hdir; cbn [orb].
  { intros [= <-]. rewrite app_nil_r. split; [| done].
    exists fi. split; [done | congruence]. }
  destruct (String.eqb_spec path root) as [-> | Hne].
  { intros [= <-]. cbn. rewrite app_nil_r. split; [| done].
    exists fi. split; [done | congruence]. }
  destruct (Rel root path) as [rel | err] eqn:HRel; [| discriminate].
  intros [= <-]. cbn. split; [| done]. exists fi. eauto.
Qed.


Lemma omap_cons_list {A B} (f : A -> option B) (x : A) (l : list A) :
  omap f (x :: l) = option_list (f x) ++ omap f l.
Proof. cbn. by destruct (f x). Qed.

Lemma walkFrom_nil (root : string) (visits : list visit) :
  forall info info',
  walkFrom Rel Split visits root info = (info', None) ->
  Forall (passes Rel root) visits /\
  Files info' = Files info ++ omap (entry Rel Split root) visits /\
  keeps info info'.
Proof.
  induction visits as [| v visits IH]; intros info info'.
  - intros [= <-]. by rewrite app_nil_r.
  - cbn [walkFrom].
    destruct (walkFn Rel Split root info v) as [info1 [e |]] eqn:Hfn;
      [discriminate |].
    apply walkFn_nil in Hfn as (Hv & HF1 & HP1 & HL1 & HN1 & HR1).
    intros (Hall & HF & HP & HL & HN & HR)%IH.
    split; [by constructor |]. split.
    + by rewrite HF, HF1, omap_cons_list, app_assoc.
    + unfold keeps. repeat split; congruence.
Qed.


(** X8.  When [BuildFromFilePath] returns no error, every visit of the
    walk was one the walk function accepts, the name is the base of the
    root, and [Files] lists, in the order of the walk, one entry for each
    visited file that is neither a directory nor the root, with its size
    and its path relative to the root cut at the separators.  The piece
    length and the private flag are kept. *)
Theorem BuildFromFilePath_lists_walked_files (info info' : Info)
    (root : string) :
  BuildFromFilePath sha1 Base Walk Rel Split Join Open info root
  = Some (info', None) ->
  Forall (passes Rel root) (Walk root) /\
  Name info' = Base root /\
  Files info' = omap (entry Rel Split root) (Walk root) /\
  PieceLength info' = PieceLength info /\
  Private info' = Private info.
Proof.
  unfold BuildFromFilePath.
  destruct (walkFrom _ _ _ _ _) as [info1 [e |]] eqn:Hwalk; [discriminate |].
  apply walkFrom_nil in Hwalk as (Hall & HF & HP & HPL & HN & HPr).
  cbn in HF, HP, HPL, HN, HPr.
  destruct (GeneratePieces sha1 info1 _) as [[info2 [e |]] |] eqn:Hgen;
    [discriminate | | discriminate].
  intros [= <-].
  assert (exists ps, info2 = set_Pieces ps info1) as [ps ->].
  { unfold GeneratePieces in Hgen.
    destruct (PieceLength info1 =? 0); [discriminate |].
    destruct (writeFiles info1 _) as [stream werr].
    destruct (hashLoop _ _ _ _ _) as [[ps | e3] |]; [| discriminate ..].
    injection Hgen as <-. eauto. }
  cbn [set_Pieces Name Files PieceLength Private]. done.
Qed.


(** X10.  On a root that is a regular file (the walk visits the root
    alone) which opens and holds its size, with a positive piece length,
    [BuildFromFilePath] returns no error, with [Length] the size, an
    empty file list and the digests of the blocks of the file; the info
    answers false to [IsDir]. *)
Theorem BuildFromFilePath_single_file (info : Info) (root : string)
    (size : Z) (r : Reader) :
  0 < PieceLength info ->
  Walk root = [(root, inl (mkStat false size))] ->
  Open (Join root []) = inl r ->
  0 <= size <= len (data r) ->
  let built :=
    mkInfo (PieceLength info)
           (concat (sha1 <$> blocksOf (Z.to_nat (PieceLength info))
                      (take (Z.to_nat size) (data r))))
           (Base root) size (Private info) [] in
  BuildFromFilePath sha1 Base Walk Rel Split Join Open info root
  = Some (built, None) /\
  IsDir built = false.
Proof.
  intros HP HWalk HOpen Hsize built. split; [| done].
  unfold BuildFromFilePath. rewrite HWalk.
  cbn [walkFrom]. unfold walkFn. cbn [fst snd fiIsDir fiSize].
  rewrite String.eqb_refl.
  set (info1 := set_Length _ _).
  assert (HU : UpvertedFiles info1 = [FileInfo.mk size []]) by done.
  rewrite GeneratePieces_copyable.
  - rewrite HU. cbn [fmap list_fmap concat]. unfold copied.
    cbn [FileInfo.Path FileInfo.Length]. rewrite HOpen, app_nil_r. done.
  - done.
  - rewrite HU. repeat constructor. exists r. done.
Qed.

End MetainfoMore.

Lemma digest_length (bs : list byte) : len (samples.digest bs) = 20.
Proof.
  unfold samples.digest, len.
  rewrite length_take, length_app, repeat_length. lia.
Qed.

Lemma openSix_copyable :
  Forall (metainfo.copyable samples.openSix)
         (metainfo.UpvertedFiles samples.infoTwoFiles).
Proof.
  repeat constructor; (eexists; split; [reflexivity | vm_compute]);
    split; discriminate.
Qed.

(** Two files of three and two bytes, in pieces of four bytes: one full
    block and one of a single byte. *)
Lemma GeneratePieces_hashes_blocks_witness :
  metainfo.GeneratePieces samples.digest samples.infoTwoFiles samples.openSix
  = Some (metainfo.set_Pieces
            (samples.digest [Byte.x01; Byte.x02; Byte.x03; Byte.x01]
             ++ samples.digest [Byte.x02])
            samples.infoTwoFiles, None).
Proof.
  rewrite (GeneratePieces_hashes_blocks samples.digest samples.infoTwoFiles
             samples.openSix eq_refl openSix_copyable).
  reflexivity.
Defined.

Lemma GeneratePieces_succeeds_iff_copyable_witness :
  exists info',
    metainfo.GeneratePieces samples.digest samples.infoTwoFiles
                            samples.openSix
    = Some (info', None).
Proof.
  apply (proj1 (GeneratePieces_succeeds_iff_copyable samples.digest
                  samples.infoTwoFiles samples.openSix eq_refl)).
  exact openSix_copyable.
Defined.

Lemma GeneratePieces_negative_piece_length_witness :
  metainfo.GeneratePieces samples.digest samples.infoNegative
                          samples.noOpenFile
  = Some (metainfo.set_Pieces [] samples.infoNegative, None).
Proof.
  apply (GeneratePieces_negative_piece_length samples.digest
           samples.infoNegative samples.noOpenFile).
  reflexivity.
Defined.

Lemma TotalLength_sums_UpvertedFiles_witness :
  metainfo.TotalLength samples.infoTwoFiles = 5.
Proof.
  rewrite (proj1 (TotalLength_sums_UpvertedFiles samples.infoTwoFiles)).
  - reflexivity.
  - vm_compute. split; discriminate.
Defined.

Lemma NumPieces_after_GeneratePieces_witness :
  metainfo.NumPieces
    (metainfo.set_Pieces
       (samples.digest [Byte.x01; Byte.x02; Byte.x03; Byte.x01]
        ++ samples.digest [Byte.x02])
       samples.infoTwoFiles)
  = Returns 2.
Proof.
  refine (NumPieces_after_GeneratePieces samples.digest
            samples.infoTwoFiles
            (metainfo.set_Pieces
               (samples.digest [Byte.x01; Byte.x02; Byte.x03; Byte.x01]
                ++ samples.digest [Byte.x02])
               samples.infoTwoFiles)
            samples.openSix digest_length eq_refl _ eq_refl).
  vm_compute. split; discriminate.
Defined.

Lemma BuildFromFile_regular_file_witness :
  metainfo.BuildFromFile samples.digest samples.baseName samples.statFive
                         samples.openSixPath samples.info4 "a.bin"
  = Some (metainfo.mkInfo 4
            (samples.digest [Byte.x01; Byte.x02; Byte.x03; Byte.x04]
             ++ samples.digest [Byte.x05])
            "a.bin" 5 None [metainfo.FileInfo.mk 5 []], None).
Proof.
  apply (BuildFromFile_regular_file samples.digest samples.baseName
           samples.statFive samples.openSixPath samples.info4 "a.bin" 5
           (metainfo.mkReader samples.sixBytes None)).
  - reflexivity.
  - reflexivity.
  - reflexivity.
  - vm_compute. split; discriminate.
Defined.

(** A file that holds six bytes where [os.Stat] reported nine. *)
Lemma BuildFromFile_error_witness :
  metainfo.Pieces
    (metainfo.mkInfo 4 [Byte.x07] "a.bin" 9 None [metainfo.FileInfo.mk 9 []])
  = metainfo.Pieces samples.info4.
Proof.
  apply (BuildFromFile_error samples.digest samples.baseName
           samples.statNine samples.openSixPath samples.info4
           (metainfo.mkInfo 4 [Byte.x07] "a.bin" 9 None
              [metainfo.FileInfo.mk 9 []])
           "a.bin"
           (metainfo.ErrGeneratingPieces
              (metainfo.ErrHashing metainfo.EOF))).
  reflexivity.
Defined.

Lemma BuildFromFilePath_lists_walked_files_witness :
  metainfo.Files
    (metainfo.mkInfo 4
       (samples.digest [Byte.x01; Byte.x02; Byte.x03; Byte.x01]
        ++ samples.digest [Byte.x02])
       "dir" 0 None
       [metainfo.FileInfo.mk 3 ["a"%string];
        metainfo.FileInfo.mk 2 ["sub/b"%string]])
  = omap (metainfo.entry samples.relOf samples.splitOf "dir")
         (samples.walkTree "dir").
Proof.
  apply (BuildFromFilePath_lists_walked_files samples.digest
           samples.baseName samples.openSixPath samples.walkTree
           samples.relOf samples.splitOf samples.joinOf
           samples.info4 _ "dir").
  reflexivity.
Defined.


Lemma BuildFromFilePath_single_file_witness :
  metainfo.BuildFromFilePath samples.digest samples.baseName
    samples.walkFile samples.relOf samples.splitOf samples.joinOf
    samples.openSixPath samples.info4 "a.bin"
  = Some (metainfo.mkInfo 4
            (samples.digest [Byte.x01; Byte.x02; Byte.x03; Byte.x04]
             ++ samples.digest [Byte.x05])
            "a.bin" 5 None [], None).
Proof.
  apply (BuildFromFilePath_single_file samples.digest samples.baseName
           samples.openSixPath samples.walkFile samples.relOf
           samples.splitOf samples.joinOf samples.info4 "a.bin" 5
           (metainfo.mkReader samples.sixBytes None)).
  - reflexivity.
  - reflexivity.
  - reflexivity.
  - vm_compute. split; discriminate.
Defined.


(** ** client.go: the table of torrents *)

Section TorrentTableFacts.

Import torrent.

Variable defaultChunkSize : Z.
Variable close : Torrent -> Torrent * option error.

Local Abbreviation AddTorrentInfoHash :=
  (AddTorrentInfoHash defaultChunkSize).
Local Abbreviation dropTorrent := (dropTorrent close).

Lemma CheckExistsInfoHash_lookup (cl : Client) (ih : string) :
  CheckExistsInfoHash cl ih = true <-> is_Some (lookupTorrent cl ih).
Proof. unfold CheckExistsInfoHash. apply bool_decide_eq_true. Qed.

(** X11.  Adding, looking up and dropping agree.  After
    [AddTorrentInfoHash] the info-hash is present and leads to the torrent
    that the call returned, [new] tells whether it was absent before, and
    no other info-hash is touched.  [dropTorrent] on an absent info-hash
    returns the no-such-torrent error and changes nothing; on a present
    one it panics exactly when closing the torrent fails, and otherwise
    takes that info-hash, and no other, out of the table, after which a
    new [AddTorrentInfoHash] answers [new]. *)
Theorem torrents_add_lookup_drop (cl : Client) (ih : string) :
  (lookupTorrent cl ih = None ->
   dropTorrent cl ih = Returns (cl, Some ErrNoSuchTorrent)) /\
  (forall r,
     lookupTorrent cl ih = Some r ->
     ((close (objects cl r)).2 <> None <->
      exists msg, dropTorrent cl ih = Panics msg) /\
     forall cl', dropTorrent cl ih = Returns (cl', None) ->
       CheckExistsInfoHash cl' ih = false /\
       (forall ih', ih' <> ih -> lookupTorrent cl' ih' = lookupTorrent cl ih') /\
       (AddTorrentInfoHash cl' ih).2 = true) /\
  (let '(cl1, r, new) := AddTorrentInfoHash cl ih in
   lookupTorrent cl1 ih = Some r /\
   CheckExistsInfoHash cl1 ih = true /\
   new = negb (CheckExistsInfoHash cl ih) /\
   (forall ih', ih' <> ih -> lookupTorrent cl1 ih' = lookupTorrent cl ih') /\
   (new = true -> infoHash (objects cl1 r) = ih /\ conns (objects cl1 r) = [])).
Proof.
  unfold lookupTorrent, CheckExistsInfoHash.
  split; [| split].
  - intros Hnone. unfold torrent.dropTorrent. by rewrite Hnone.
  - intros r Hr. unfold torrent.dropTorrent. rewrite Hr.
    destruct (close (objects cl r)) as [x [e |]]; cbn [snd].
    + split; [split; [eauto | done] | discriminate].
    + split; [split; [done | intros [msg [=]]] |].
      intros cl' [= <-]. cbn [torrents update].
      split; [| split].
      * apply bool_decide_eq_false. rewrite lookup_delete_eq.
        by intros [? [=]].
      * intros ih' Hne. by rewrite lookup_delete_ne.
      * unfold torrent.AddTorrentInfoHash. cbn [torrents].
        by rewrite lookup_delete_eq.
  - unfold torrent.AddTorrentInfoHash.
    destruct (torrents cl !! ih) as [r |] eqn:Hl.
    + split; [done |]. split; [apply bool_decide_eq_true; eauto |].
      split; [| split; [done | discriminate]].
      symmetry. apply negb_false_iff, bool_decide_eq_true. eauto.
    + cbn [torrents objects]. rewrite lookup_insert_eq.
      split; [done |].
      split; [apply bool_decide_eq_true; eauto |].
      split.
      { symmetry. apply negb_true_iff, bool_decide_eq_false.
        by intros [? [=]]. }
      split; [intros ih' Hne; by rewrite lookup_insert_ne |].
      intros _. by rewrite fn_lookup_insert.
Qed.

End TorrentTableFacts.

(** ** client.go: small helpers *)

Section HelperFacts.

Import torrent.

(** X12.  [firstNonEmptyString] returns the empty string exactly when
    every argument is empty (or there is none); otherwise it returns the
    first argument that is not empty. *)
Theorem firstNonEmptyString_first (ss : list string) :
  (firstNonEmptyString ss = ""%string <->
   Forall (fun s => s = ""%string) ss) /\
  (firstNonEmptyString ss <> ""%string ->
   exists before after,
     ss = before ++ firstNonEmptyString ss :: after /\
     Forall (fun s => s = ""%string) before).
Proof.
  induction ss as [| s ss [IHe IHf]]; cbn [firstNonEmptyString].
  - split; [done | done].
  - destruct (bool_decide_reflect (s <> ""%string)) as [Hs | Hs].
    + split.
      * split; [done | by intros [? _]%list.Forall_cons].
      * intros _. exists [], ss. done.
    + assert (s = ""%string) as -> by (by destruct (decide (s = ""%string))).
      split.
      * rewrite IHe. split; [by constructor |].
        by intros [_ ?]%list.Forall_cons.
      * intros (before & after & Hss & Hbefore)%IHf.
        exists (""%string :: before), after.
        split; [cbn; by rewrite <- Hss | by constructor].
Qed.

Lemma shuffleFrom_permutation (Intn : Z -> Z) (n : nat) :
  (forall k, 0 < k -> 0 <= Intn k < k) ->
  forall (i : nat) (tier : list string),
  (i + n = length tier)%nat ->
  exists out, shuffleFrom Intn n i tier = Returns out /\ out ≡ₚ tier.
Proof.
  intros HIntn.
  induction n as [| n IH]; intros i tier Hlen; cbn [shuffleFrom].
  - eauto.
  - destruct (lookup_lt_is_Some_2 tier i) as [a Ha]; [lia |].
    specialize (HIntn (Z.of_nat i + 1) ltac:(lia)).
    set (j := Intn (Z.of_nat i + 1)) in *.
    destruct (lookup_lt_is_Some_2 tier (Z.to_nat j)) as [b Hb]; [lia |].
    rewrite Ha. unfold index.
    destruct (Z.ltb_spec j 0); [lia |]. rewrite Hb.
    destruct (IH (S i) (<[Z.to_nat j := a]> (<[i := b]> tier)))
      as (out & Hout & Hperm).
    { rewrite !length_insert. lia. }
    exists out. split; [done |].
    rewrite Hperm. by apply Permutation_insert_swap.
Qed.

(** X13.  With a source of random numbers that answers [Intn n] within
    [0 <= . < n], [shuffleTier] does not panic and leaves a permutation
    of the tier: no tracker is lost, added or duplicated. *)
Theorem shuffleTier_permutation (Intn : Z -> Z) (tier : list string) :
  (forall k, 0 < k -> 0 <= Intn k < k) ->
  exists out, shuffleTier Intn tier = Returns out /\ out ≡ₚ tier.
Proof.
  intros HIntn. unfold shuffleTier.
  by apply shuffleFrom_permutation.
Qed.

End HelperFacts.

(** ** client.go: bad peers *)

Section BadPeerFacts.

Import torrent.

Variable hostPort : string -> Z -> string.
Variable To4 : string -> option string.
Variable ipBlockList : option (string -> Range * bool).
Variable addPeer : dialing -> Peer.t -> dialing.

Local Abbreviation ipBlockRange := (ipBlockRange To4 ipBlockList).
Local Abbreviation badPeerIPPort :=
  (badPeerIPPort hostPort To4 ipBlockList).
Local Abbreviation addPeers := (addPeers hostPort To4 ipBlockList addPeer).

Lemma badPeerIPPort_false (dopp bad : gset string) (ip : string)
    (port : Z) :
  badPeerIPPort dopp bad ip port = false <->
  port <> 0 /\ (hostPort ip port ∉ dopp) /\ (ipBlockRange ip).2 = false /\
  ip ∉ bad.
Proof.
  unfold torrent.badPeerIPPort, dopplegangerAddr.
  destruct (Z.eqb_spec port 0) as [-> | Hport]; [naive_solver |].
  case_bool_decide; [naive_solver |].
  destruct (ipBlockRange ip).2; [naive_solver |].
  case_bool_decide; naive_solver.
Qed.

Lemma addPeers_filter (dopp bad : gset string) (ps : list Peer.t) :
  forall d,
  addPeers dopp bad d ps
  = foldl addPeer d
      (List.filter
         (fun p => negb (badPeerIPPort dopp bad (Peer.IP p) (Peer.Port p)))
         ps).
Proof.
  unfold torrent.addPeers.
  induction ps as [| p ps IH]; intros d; cbn [foldl List.filter]; [done |].
  destruct (badPeerIPPort dopp bad (Peer.IP p) (Peer.Port p));
    cbn [negb foldl]; apply IH.
Qed.

(** X14.  [addPeers] hands to [t.addPeer], in their order, exactly the
    peers that [badPeerIPPort] does not turn away: those with a non-zero
    port whose address is not one of this client's own, whose IP is in no
    blocked range and has not been banned.  With a block list every
    address that has no IPv4 form is turned away; without one no range
    blocks anything. *)
Theorem addPeers_skips_bad_peers (dopp bad : gset string) (d : dialing)
    (ps : list Peer.t) :
  addPeers dopp bad d ps
  = foldl addPeer d
      (List.filter
         (fun p => negb (badPeerIPPort dopp bad (Peer.IP p) (Peer.Port p)))
         ps) /\
  (forall ip port,
     badPeerIPPort dopp bad ip port = false <->
     port <> 0 /\ (hostPort ip port ∉ dopp) /\ (ipBlockRange ip).2 = false /\
     ip ∉ bad) /\
  (forall ip,
     (ipBlockList = None -> ipBlockRange ip = (zeroRange, false)) /\
     (ipBlockList <> None -> To4 ip = None ->
      ipBlockRange ip = (ipv6BlockRange, true))).
Proof.
  split; [apply addPeers_filter |].
  split; [intros; apply badPeerIPPort_false |].
  intros ip. unfold torrent.ipBlockRange.
  split; [by intros -> |].
  intros Hlist Hip. destruct ipBlockList; [by rewrite Hip | done].
Qed.

End BadPeerFacts.

(** ** client.go: outgoing dials *)

Section DialingFacts.

Import torrent.

Variable hostPort : string -> Z -> string.
Variable To4 : string -> option string.
Variable ipBlockList : option (string -> Range * bool).
Variable clientPeerID : string.
Variable halfOpenLimit : Z.
Variable addrActive : dialing -> string -> bool.
Variable peerChoice : gmap (string * Z) Peer.t -> nat.

Local Abbreviation badPeerIPPort :=
  (badPeerIPPort hostPort To4 ipBlockList).
Local Abbreviation initiateConn :=
  (initiateConn hostPort To4 ipBlockList clientPeerID addrActive).
Local Abbreviation rangePeer := (rangePeer peerChoice).
Local Abbreviation openNewConnsLoop :=
  (openNewConnsLoop hostPort To4 ipBlockList clientPeerID halfOpenLimit
                    addrActive peerChoice).
Local Abbreviation openNewConns :=
  (openNewConns hostPort To4 ipBlockList clientPeerID halfOpenLimit
                addrActive peerChoice).
Local Abbreviation noLongerHalfOpen :=
  (noLongerHalfOpen hostPort To4 ipBlockList clientPeerID halfOpenLimit
                    addrActive peerChoice).
Local Abbreviation opened :=
  (opened hostPort To4 ipBlockList clientPeerID halfOpenLimit).
Local Abbreviation dialStep :=
  (dialStep hostPort To4 ipBlockList clientPeerID halfOpenLimit
            addrActive peerChoice).
Local Abbreviation dialReachable :=
  (dialReachable hostPort To4 ipBlockList clientPeerID halfOpenLimit
                 addrActive peerChoice).

Lemma initiateConn_cases (dopp bad : gset string) (p : Peer.t)
    (d : dialing) :
  initiateConn dopp bad p d = d \/
  (Peer.Id p <> clientPeerID /\
   badPeerIPPort dopp bad (Peer.IP p) (Peer.Port p) = false /\
   addrActive d (hostPort (Peer.IP p) (Peer.Port p)) = false /\
   initiateConn dopp bad p d
   = mkDialing (peers d)
               ({[hostPort (Peer.IP p) (Peer.Port p)]} ∪ halfOpen d)
               (dials d ++ [(hostPort (Peer.IP p) (Peer.Port p),
                             Peer.Source p)])).
Proof.
  unfold torrent.initiateConn.
  case_bool_decide; [auto |].
  destruct (badPeerIPPort dopp bad (Peer.IP p) (Peer.Port p)); [auto |].
  destruct (addrActive d _); auto.
Qed.

Lemma rangePeer_lookup (m : gmap (string * Z) Peer.t) :
  size m <> O -> m !! (rangePeer m).1 = Some (rangePeer m).2.
Proof.
  intros Hsize. unfold torrent.rangePeer.
  rewrite <- length_map_to_list in Hsize.
  destruct (lookup_lt_is_Some_2 (map_to_list m)
              (peerChoice m mod length (map_to_list m))%nat) as [kp Hkp].
  { apply Nat.mod_upper_bound. done. }
  rewrite Hkp. cbn [default].
  apply elem_of_map_to_list'. by eapply list_elem_of_lookup_2.
Qed.

Lemma opened_refl (dopp bad : gset string) (d : dialing) :
  opened dopp bad d d.
Proof.
  split; [done |]. exists []. rewrite app_nil_r.
  split; [done |]. split; [set_solver |]. split; [lia |].
  by intros addr src ?%elem_of_nil.
Qed.

Lemma size_insert_le (addr : string) (H : gset string) :
  (size ({[addr]} ∪ H) <= S (size H))%nat.
Proof.
  rewrite size_union_alt, size_singleton.
  pose proof (subseteq_size (H ∖ {[addr]}) H ltac:(set_solver)). lia.
Qed.

Lemma opened_step (dopp bad : gset string) (d d' : dialing)
    (k : string * Z) (p : Peer.t) :
  peers d !! k = Some p ->
  Z.of_nat (size (halfOpen d)) < halfOpenLimit ->
  opened dopp bad
    (initiateConn dopp bad p
       (mkDialing (delete k (peers d)) (halfOpen d) (dials d)))
    d' ->
  opened dopp bad d d'.
Proof.
  intros Hk Hsize.
  set (d1 := mkDialing (delete k (peers d)) (halfOpen d) (dials d)).
  assert (Hsub : peers d1 ⊆ peers d) by apply delete_subseteq.
  assert (Hgone : forall d2, peers d2 ⊆ peers d1 -> peers d2 !! k = None).
  { intros d2 Hd2. destruct (peers d2 !! k) as [x |] eqn:Hx; [| done].
    eapply lookup_weaken in Hx; [| exact Hd2].
    cbn in Hx. by rewrite lookup_delete_eq in Hx. }
  destruct (initiateConn_cases dopp bad p d1)
    as [-> | (Hid & Hbad & Hact & ->)].
  - intros (Hpeers & new & Hdials & Hhalf & Hbound & Hnew).
    split; [by etrans |]. exists new.
    split; [done |]. split; [done |]. split; [done |].
    intros addr src (k' & p' & Hk' & Hrest)%Hnew.
    exists k', p'. split; [by eapply lookup_weaken | done].
  - intros (Hpeers & new & Hdials & Hhalf & Hbound & Hnew).
    subst d1. cbn [peers halfOpen dials] in *.
    split; [by etrans |].
    exists ((hostPort (Peer.IP p) (Peer.Port p), Peer.Source p) :: new).
    split; [by rewrite Hdials, <- app_assoc |].
    split; [rewrite Hhalf; cbn; set_solver |].
    split.
    { pose proof (size_insert_le (hostPort (Peer.IP p) (Peer.Port p))
                    (halfOpen d)). lia. }
    intros addr src [[= -> ->] | Hin]%elem_of_cons.
    + exists k, p. split; [done |]. split; [by apply Hgone | done].
    + apply Hnew in Hin as (k' & p' & Hk' & Hrest).
      exists k', p'. split; [by eapply lookup_weaken | done].
Qed.

Lemma openNewConnsLoop_spec (wants : bool) (dopp bad : gset string)
    (fuel : nat) :
  forall d,
  (size (peers d) < fuel)%nat ->
  exists d',
    openNewConnsLoop fuel wants dopp bad d = Some d' /\
    opened dopp bad d d' /\
    (peers d' = ∅ \/ wants = false \/
     halfOpenLimit <= Z.of_nat (size (halfOpen d'))).
Proof.
  induction fuel as [| fuel IH]; intros d Hfuel; [lia |].
  cbn [torrent.openNewConnsLoop].
  destruct (Z.eqb_spec (Z.of_nat (size (peers d))) 0) as [Hz | Hnz].
  { exists d. split; [done |]. split; [apply opened_refl |]. left.
    apply map_size_empty_iff. lia. }
  destruct wants; cbn [negb].
  2: { exists d. split; [done |]. split; [apply opened_refl | auto]. }
  destruct (Z.geb_spec (Z.of_nat (size (halfOpen d))) halfOpenLimit)
    as [Hfull | Hroom].
  { exists d. split; [done |]. split; [apply opened_refl |].
    right. right. lia. }
  pose proof (rangePeer_lookup (peers d) ltac:(lia)) as Hk.
  destruct (rangePeer (peers d)) as [k p]. cbn [fst snd] in Hk.
  set (d1 := mkDialing (delete k (peers d)) (halfOpen d) (dials d)).
  destruct (IH (initiateConn dopp bad p d1)) as (d' & Hrun & Hopened & Hexit).
  { assert (peers (initiateConn dopp bad p d1) = delete k (peers d)) as ->.
    { by destruct (initiateConn_cases dopp bad p d1)
        as [-> | (_ & _ & _ & ->)]. }
    rewrite map_size_delete_Some by eauto. lia. }
  exists d'. split; [done |]. split; [| done].
  by eapply opened_step.
Qed.


Hypothesis addrActive_halfOpen :
  forall d addr, addr ∈ halfOpen d -> addrActive d addr = true.

Lemma initiateConn_dials (dopp bad : gset string) (p : Peer.t)
    (d : dialing) :
  NoDup (dials d).*1 ->
  halfOpen d = list_to_set (dials d).*1 ->
  NoDup (dials (initiateConn dopp bad p d)).*1 /\
  halfOpen (initiateConn dopp bad p d)
  = list_to_set (dials (initiateConn dopp bad p d)).*1.
Proof.
  intros Hnd Hhalf.
  destruct (initiateConn_cases dopp bad p d)
    as [-> | (_ & _ & Hact & ->)]; [done |].
  cbn [dials halfOpen].
  assert (Hfresh : hostPort (Peer.IP p) (Peer.Port p) ∉ halfOpen d).
  { intros Hin. apply addrActive_halfOpen in Hin. congruence. }
  rewrite fmap_app. cbn. split.
  - apply list.NoDup_app. split; [done |]. split; [| apply NoDup_singleton].
    intros addr Hin ->%list_elem_of_singleton. apply Hfresh.
    rewrite Hhalf. by apply elem_of_list_to_set.
  - rewrite list_to_set_app_L, Hhalf. cbn. set_solver.
Qed.

Lemma openNewConnsLoop_dials (wants : bool) (dopp bad : gset string)
    (fuel : nat) :
  forall d d',
  openNewConnsLoop fuel wants dopp bad d = Some d' ->
  NoDup (dials d).*1 ->
  halfOpen d = list_to_set (dials d).*1 ->
  NoDup (dials d').*1 /\ halfOpen d' = list_to_set (dials d').*1.
Proof.
  induction fuel as [| fuel IH]; intros d d'; [discriminate |].
  cbn [torrent.openNewConnsLoop].
  destruct (Z.of_nat (size (peers d)) =? 0); [by intros [= <-] |].
  destruct wants; cbn [negb]; [| by intros [= <-]].
  destruct (Z.of_nat (size (halfOpen d)) >=? halfOpenLimit);
    [by intros [= <-] |].
  destruct (rangePeer (peers d)) as [k p].
  intros Hrun Hnd Hhalf.
  eapply IH; [exact Hrun | |];
    by apply (initiateConn_dials dopp bad p
                (mkDialing (delete k (peers d)) (halfOpen d) (dials d))).
Qed.

Lemma openNewConns_dials (wants : bool) (dopp bad : gset string)
    (d d' : dialing) :
  openNewConns wants dopp bad d = Some d' ->
  NoDup (dials d).*1 /\ halfOpen d = list_to_set (dials d).*1 /\
  Z.of_nat (size (halfOpen d)) <= Z.max 0 halfOpenLimit ->
  NoDup (dials d').*1 /\ halfOpen d' = list_to_set (dials d').*1 /\
  Z.of_nat (size (halfOpen d')) <= Z.max 0 halfOpenLimit.
Proof.
  intros Hrun (Hnd & Hhalf & Hbound).
  destruct (openNewConnsLoop_spec wants dopp bad (S (size (peers d))) d)
    as (d2 & Hrun2 & (_ & new & _ & _ & Hb2 & _) & _); [lia |].
  assert (d2 = d') as ->.
  { unfold torrent.openNewConns in Hrun. congruence. }
  destruct (openNewConnsLoop_dials _ _ _ _ _ _ Hrun Hnd Hhalf).
  split; [done |]. split; [done | lia].
Qed.

Lemma dialStep_dials (dopp bad : gset string) (d d' : dialing) :
  dialStep dopp bad d (Returns d') ->
  NoDup (dials d).*1 /\ halfOpen d = list_to_set (dials d).*1 /\
  Z.of_nat (size (halfOpen d)) <= Z.max 0 halfOpenLimit ->
  NoDup (dials d').*1 /\ halfOpen d' = list_to_set (dials d').*1 /\
  Z.of_nat (size (halfOpen d')) <= Z.max 0 halfOpenLimit.
Proof.
  intros Hstep (Hnd & Hhalf & Hbound).
  inversion Hstep
    as [wants d0 d0' Hrun | wants d0 before addr ps after out Hd Hrun
        | d0 ps]; subst.
  - by eapply openNewConns_dials.
  - unfold torrent.noLongerHalfOpen in Hrun.
    cbn [halfOpen peers dials] in Hrun.
    case_bool_decide as Hin; [| discriminate].
    destruct (openNewConns wants dopp bad _) as [d2 |] eqn:Hrun1 in Hrun;
      [| discriminate].
    injection Hrun as ->.
    eapply openNewConns_dials; [exact Hrun1 |].
    cbn [dials halfOpen].
    rewrite Hd, fmap_app, fmap_cons in Hnd. cbn [fst] in Hnd.
    apply list.NoDup_app in Hnd as (Hb & Hba & Ha).
    apply list.NoDup_cons in Ha as [Haddr Ha].
    assert (Haddr' : addr ∉ before.*1).
    { intros Hx. apply (Hba _ Hx). constructor. }
    split; [| split].
    + rewrite fmap_app. apply list.NoDup_app.
      split; [done |]. split; [| done].
      intros x Hx Hx'. apply (Hba _ Hx). by constructor.
    + rewrite Hhalf, Hd, !fmap_app, fmap_cons, !list_to_set_app_L.
      cbn [fst list_to_set].
      apply set_eq. intros x.
      rewrite elem_of_difference, !elem_of_union, elem_of_singleton,
        !elem_of_list_to_set.
      split; [naive_solver |].
      intros [Hx | Hx]; (split; [auto | congruence]).
    + pose proof (subseteq_size (halfOpen d ∖ {[addr]}) (halfOpen d)
                    ltac:(set_solver)). lia.
  - done.
Qed.

(** X16.  As long as [t.addrActive] answers true for the half-open
    addresses: in every state that a torrent's dials reach from none
    under way, through calls of [openNewConns], dials that end with
    [noLongerHalfOpen] and changes of [t.peers], the half-open addresses
    are exactly the addresses of the dials under way, one dial each, and
    their number is within the half-open limit; so [noLongerHalfOpen]
    finds the address it is given and never panics. *)
Theorem halfOpen_matches_dials (d : dialing) :
  dialReachable d ->
  NoDup (dials d).*1 /\
  halfOpen d = list_to_set (dials d).*1 /\
  Z.of_nat (size (halfOpen d)) <= Z.max 0 halfOpenLimit /\
  forall dopp bad out, dialStep dopp bad d out -> exists d', out = Returns d'.
Proof.
  intros Hreach.
  assert (Hinv : NoDup (dials d).*1 /\
                 halfOpen d = list_to_set (dials d).*1 /\
                 Z.of_nat (size (halfOpen d)) <= Z.max 0 halfOpenLimit).
  { induction Hreach as [ps | dopp bad d d' _ IH Hstep].
    - cbn. split; [constructor |]. split; [done |].
      rewrite size_empty. lia.
    - by eapply dialStep_dials. }
  destruct Hinv as (Hnd & Hhalf & Hbound).
  split; [done |]. split; [done |]. split; [done |].
  intros dopp bad out Hstep.
  inversion Hstep
    as [wants d0 d0' Hrun | wants d0 before addr ps after out0 Hd Hrun
        | d0 ps]; subst; [eauto | | eauto].
  unfold torrent.noLongerHalfOpen in Hrun.
  cbn [halfOpen peers dials] in Hrun.
  rewrite bool_decide_eq_true_2 in Hrun.
  - destruct (openNewConns wants dopp bad _) as [d2 |]; [| discriminate].
    injection Hrun as <-. eauto.
  - rewrite Hhalf, Hd. apply elem_of_list_to_set.
    rewrite fmap_app, fmap_cons. set_solver.
Qed.

End DialingFacts.

(** ** client.go: banned peers stay away *)

Section BannedFacts.

Import torrent.

Variable hostPort : string -> Z -> string.
Variable To4 : string -> option string.
Variable ipBlockList : option (string -> Range * bool).
Variable addPeer : dialing -> Peer.t -> dialing.
Variable clientPeerID : string.
Variable addrActive : dialing -> string -> bool.
Variable completePiece : world -> Z -> world.
Variable pieceChanged : world -> Z -> world.

Local Abbreviation badPeerIPPort :=
  (badPeerIPPort hostPort To4 ipBlockList).
Local Abbreviation addPeers := (addPeers hostPort To4 ipBlockList addPeer).
Local Abbreviation initiateConn :=
  (initiateConn hostPort To4 ipBlockList clientPeerID addrActive).

Lemma failed_hash_bans_toucher (w w' : world) (i : Z) (c : connRef) :
  (forall w i, sameScores w (pieceChanged w i)) ->
  pieceHashed completePiece pieceChanged w i false = Returns w' ->
  c ∈ conns (torrent w) ->
  i ∈ peerTouchedPieces (heap w c) ->
  remoteIP (heap w c) ∈ badPeerIPs w'.
Proof.
  intros Hframe. unfold pieceHashed.
  destruct (index (pieces (torrent w)) i) as [p |]; [| discriminate].
  unfold reapPieceTouches. cbn [conns set_pieces].
  set (x := set_pieces _ (torrent w)).
  destruct (reapPieceTouchesFrom_spec i (conns (torrent w)) (heap w) [])
    as (ts & Hret & Hnd & Hin & Hsame).
  destruct (reapPieceTouchesFrom (heap w) (conns (torrent w)) i [])
    as [touchers h].
  cbn [fst snd app] in Hret, Hsame. subst touchers.
  intros Hw' Hc Hi.
  assert (Hcts : c ∈ ts) by (by apply Hin).
  assert (Hlen : (len ts =? 0) = false).
  { destruct ts; [by apply elem_of_nil in Hcts |].
    unfold len. cbn. done. }
  cbn [negb heap badPeerIPs torrent vars] in Hw'. rewrite Hlen in Hw'.
  cbn [negb] in Hw'. injection Hw' as <-.
  destruct (Hframe (scoreBad (mkWorld h (badPeerIPs w) x
                       (if EverHashed p
                        then mkExpvars (pieceHashedCorrect (vars w))
                               (pieceHashedNotCorrect (vars w) + 1)
                               (duplicateClientConns (vars w))
                        else vars w)) ts) i)
    as (_ & -> & _).
  apply (scoreBad_spec ts _ Hnd). right. exists c. split; [done |].
  cbn [heap]. symmetry.
  by destruct (untouched_fields _ _ (Hsame c)) as (_ & _ & ?).
Qed.

(** X17.  After a hash check that failed, a peer that had touched the
    piece stays away: whatever its port, [badPeerIPPort] turns its
    address away, so [initiateConn] starts no dial to it and [addPeers]
    does not add it again.  (What [cl.pieceChanged] calls outside
    [client.go] is taken not to change the banned addresses.) *)
Theorem banned_toucher_is_turned_away (w w' : world) (i : Z)
    (c : connRef) :
  (forall w i, sameScores w (pieceChanged w i)) ->
  pieceHashed completePiece pieceChanged w i false = Returns w' ->
  c ∈ conns (torrent w) ->
  i ∈ peerTouchedPieces (heap w c) ->
  forall dopp p d,
    Peer.IP p = remoteIP (heap w c) ->
    badPeerIPPort dopp (badPeerIPs w') (Peer.IP p) (Peer.Port p) = true /\
    initiateConn dopp (badPeerIPs w') p d = d /\
    addPeers dopp (badPeerIPs w') d [p] = d.
Proof.
  intros Hframe Hw' Hc Hi dopp p d Hip.
  pose proof (failed_hash_bans_toucher w w' i c Hframe Hw' Hc Hi) as Hban.
  rewrite <- Hip in Hban.
  assert (Hbad : badPeerIPPort dopp (badPeerIPs w') (Peer.IP p) (Peer.Port p)
                 = true).
  { unfold torrent.badPeerIPPort.
    destruct (Peer.Port p =? 0); [done |].
    destruct (dopplegangerAddr _ _); [done |].
    destruct (ipBlockRange _ _ _).2; [done |].
    by rewrite bool_decide_eq_true_2. }
  split; [done |]. split.
  - unfold torrent.initiateConn. case_bool_decide; [done |]. by rewrite Hbad.
  - unfold torrent.addPeers. cbn [foldl]. by rewrite Hbad.
Qed.

End BannedFacts.

(** ** client.go: one verifier per piece *)

Section VerifyFacts.

Import torrent.

Variable pieceComplete : Torrent -> Z -> bool.
Variable storageNil : Torrent -> bool.
Variable torrentClosed : Torrent -> bool.
Variable completePiece : world -> Z -> world.
Variable pieceChanged : world -> Z -> world.

Local Abbreviation queueFirstHash := (queueFirstHash pieceComplete).
Local Abbreviation verifyPieceBegin :=
  (verifyPieceBegin pieceComplete storageNil torrentClosed).
Local Abbreviation verifyPieceEnd :=
  (verifyPieceEnd completePiece pieceChanged).
Local Abbreviation verifyStep :=
  (verifyStep pieceComplete storageNil torrentClosed completePiece
              pieceChanged).
Local Abbreviation verifyReachable :=
  (verifyReachable pieceComplete storageNil torrentClosed completePiece
                   pieceChanged).

Lemma index_Some {A} (l : list A) (i : Z) (a : A) :
  index l i = Some a <-> 0 <= i /\ l !! Z.to_nat i = Some a.
Proof.
  unfold index. destruct (Z.ltb_spec i 0); [| naive_solver lia].
  split; [discriminate | lia].
Qed.

Lemma index_None {A} (l : list A) (i : Z) :
  index l i = None <-> i < 0 \/ len l <= i.
Proof.
  unfold index, len. destruct (Z.ltb_spec i 0); [naive_solver |].
  rewrite lookup_ge_None. lia.
Qed.

Lemma index_setPiece (x : Torrent) (i : Z) (p q : piece) :
  index (pieces x) i = Some p ->
  index (pieces (setPiece x i q)) i = Some q.
Proof.
  intros [Hi Hp]%index_Some. apply index_Some. split; [done |].
  cbn. apply list_lookup_insert_eq. by eapply lookup_lt_Some.
Qed.

Lemma index_setPiece_ne (x : Torrent) (i j : Z) (q : piece) :
  0 <= i -> i <> j ->
  index (pieces (setPiece x i q)) j = index (pieces x) j.
Proof.
  intros Hi Hne. unfold index. destruct (j <? 0) eqn:Hj; [done |].
  apply Z.ltb_ge in Hj. cbn. apply list_lookup_insert_ne. lia.
Qed.

Lemma queuePieceCheck_inv (x x' : Torrent) (i : Z) (started : bool) :
  queuePieceCheck x i = Returns (x', started) ->
  exists p,
    index (pieces x) i = Some p /\
    started = negb (QueuedForHash p) /\
    index (pieces x') i = Some (set_QueuedForHash true p) /\
    (forall j, j <> i -> index (pieces x') j = index (pieces x) j) /\
    conns x' = conns x.
Proof.
  unfold queuePieceCheck.
  destruct (index (pieces x) i) as [p |] eqn:Hp; [| discriminate].
  destruct (QueuedForHash p) eqn:Hq.
  - intros [= <- <-]. exists p. split; [done |].
    split; [by rewrite Hq |].
    split; [| done]. rewrite Hp. f_equal. destruct p. cbn in *. by subst.
  - intros [= <- <-]. exists p. split; [done |].
    split; [by rewrite Hq |].
    split; [by eapply index_setPiece |]. split; [| done].
    intros j Hj. apply index_setPiece_ne; [| done].
    by apply index_Some in Hp as [? _].
Qed.

(** X18.  [queuePieceCheck] panics exactly on an index outside the
    pieces.  Otherwise it leaves the piece queued, starts a verifier
    exactly when the piece was not queued before, and touches no other
    piece; a second call, and a call of [queueFirstHash], then change
    nothing and start no verifier.  [queueFirstHash] starts a verifier
    only for a piece that was never hashed, is not being hashed, is not
    queued and is not complete. *)
Theorem queuePieceCheck_once (x : Torrent) (i : Z) :
  ((exists msg, queuePieceCheck x i = Panics msg) <->
   i < 0 \/ len (pieces x) <= i) /\
  (forall x' started,
     queuePieceCheck x i = Returns (x', started) ->
     (exists p,
        index (pieces x) i = Some p /\
        started = negb (QueuedForHash p) /\
        index (pieces x') i = Some (set_QueuedForHash true p)) /\
     (forall j, j <> i -> index (pieces x') j = index (pieces x) j) /\
     queuePieceCheck x' i = Returns (x', false) /\
     queueFirstHash x' i = Returns (x', false)) /\
  (forall x',
     queueFirstHash x i = Returns (x', true) ->
     exists p,
       index (pieces x) i = Some p /\
       EverHashed p = false /\ Hashing p = false /\
       QueuedForHash p = false /\ pieceComplete x i = false).
Proof.
  split; [| split].
  - rewrite <- index_None. unfold queuePieceCheck.
    destruct (index (pieces x) i) as [p |].
    + split; [| done]. destruct (QueuedForHash p); by intros [? [=]].
    + split; [done | eauto].
  - intros x' started Hq.
    destruct (queuePieceCheck_inv _ _ _ _ Hq)
      as (p & Hp & Hstarted & Hp' & Hother & _).
    split; [eauto |]. split; [done |].
    unfold torrent.queueFirstHash, queuePieceCheck. rewrite Hp'. cbn.
    by rewrite !orb_true_r.
  - intros x'. unfold torrent.queueFirstHash.
    destruct (index (pieces x) i) as [p |]; [| discriminate].
    destruct (EverHashed p) eqn:He, (Hashing p) eqn:Hh,
      (QueuedForHash p) eqn:Hq, (pieceComplete x i) eqn:Hc;
      cbn; try discriminate.
    intros _. exists p. done.
Qed.

Lemma pieces_scoreBad (ts : list connRef) :
  forall w, pieces (torrent (scoreBad w ts)) = pieces (torrent w).
Proof.
  induction ts as [| c ts IH]; intros w; [done |].
  rewrite scoreBad_cons, IH. done.
Qed.

Hypothesis completePiece_flags :
  forall w i j, sameFlags j (torrent w) (torrent (completePiece w i)).
Hypothesis pieceChanged_flags :
  forall w i j, sameFlags j (torrent w) (torrent (pieceChanged w i)).

Lemma pieceHashed_flags (w w' : world) (i : Z) (correct : bool) :
  pieceHashed completePiece pieceChanged w i correct = Returns w' ->
  sameFlags i (torrent w) (torrent w').
Proof.
  unfold pieceHashed.
  destruct (index (pieces (torrent w)) i) as [p |] eqn:Hp; [| discriminate].
  unfold reapPieceTouches.
  destruct (reapPieceTouchesFrom _ _ _ _) as [touchers h].
  cbn [heap badPeerIPs torrent vars].
  set (x := set_pieces _ (torrent w)).
  assert (Hx : index (pieces x) i = Some (set_EverHashed true p)).
  { apply (index_setPiece (torrent w) i p). done. }
  intros [= <-] p0 Hp0. assert (p0 = p) as -> by congruence.
  destruct correct.
  - destruct (completePiece_flags
                (mkWorld (scoreGood h touchers) (badPeerIPs w) x
                   (if EverHashed p
                    then mkExpvars (pieceHashedCorrect (vars w) + 1)
                           (pieceHashedNotCorrect (vars w))
                           (duplicateClientConns (vars w))
                    else vars w)) i i _ Hx) as (p1 & Hp1 & Hh1 & Hq1).
    destruct (pieceChanged_flags _ i i _ Hp1) as (p2 & Hp2 & Hh2 & Hq2).
    cbn in Hh1, Hq1.
    exists p2. split; [done |]. split; congruence.
  - set (w1 := mkWorld h (badPeerIPs w) x _).
    assert (Hw2 : index (pieces (torrent
                    (if negb (len touchers =? 0)
                     then scoreBad w1 touchers else w1))) i
                  = Some (set_EverHashed true p)).
    { destruct (negb _); [by rewrite pieces_scoreBad | done]. }
    destruct (pieceChanged_flags _ i i _ Hw2) as (p2 & Hp2 & Hh2 & Hq2).
    cbn in Hh2, Hq2.
    exists p2. split; [done |]. split; congruence.
Qed.

Lemma verifyStep_flags (i : Z) (s s' : world * verifiers) :
  verifyStep i s s' ->
  (exists p, index (pieces (torrent s.1)) i = Some p /\
     waiting s.2 = (if QueuedForHash p then 1 else 0)%nat /\
     hashing s.2 = (if Hashing p then 1 else 0)%nat) ->
  exists p, index (pieces (torrent s'.1)) i = Some p /\
    waiting s'.2 = (if QueuedForHash p then 1 else 0)%nat /\
    hashing s'.2 = (if Hashing p then 1 else 0)%nat.
Proof.
  intros Hstep (p & Hp & Hw & Hh).
  destruct Hstep
    as [w v x' started Hq | w v x' started Hq | w v x' goes Hpos Hb
        | w v sum w' Hpos He | w v w' Hsame]; cbn [fst snd] in *.
  - destruct (queuePieceCheck_inv _ _ _ _ Hq)
      as (p0 & Hp0 & -> & Hp' & _).
    assert (p0 = p) as -> by congruence.
    exists (set_QueuedForHash true p). split; [done |]. cbn.
    destruct (QueuedForHash p); cbn; split; lia || done.
  - unfold torrent.queueFirstHash in Hq. rewrite Hp in Hq.
    destruct (EverHashed p || Hashing p || QueuedForHash p
              || pieceComplete (torrent w) i).
    + injection Hq as <- <-. exists p. split; [done |]. cbn.
      split; lia || done.
    + destruct (queuePieceCheck_inv _ _ _ _ Hq)
        as (p0 & Hp0 & -> & Hp' & _).
      assert (p0 = p) as -> by congruence.
      exists (set_QueuedForHash true p). split; [done |]. cbn.
      destruct (QueuedForHash p); cbn; split; lia || done.
  - unfold torrent.verifyPieceBegin in Hb. rewrite Hp in Hb.
    destruct (Hashing p) eqn:Hhp; [discriminate |].
    destruct (storageNil (torrent w)); [discriminate |]. cbn [orb] in Hb.
    destruct (QueuedForHash p) eqn:Hqp; [| lia].
    pose proof (index_setPiece (torrent w) i p
                  (set_QueuedForHash false p) Hp) as Hp1.
    destruct (torrentClosed _ || pieceComplete _ i).
    + injection Hb as <- <-. eexists. split; [exact Hp1 |]. cbn.
      rewrite Hhp. split; lia.
    + injection Hb as <- <-. eexists.
      split; [eapply index_setPiece; exact Hp1 |]. cbn. split; lia.
  - unfold torrent.verifyPieceEnd in He. rewrite Hp in He.
    destruct (Hashing p) eqn:Hhp; [| lia].
    pose proof (index_setPiece (torrent w) i p (set_Hashing false p) Hp)
      as Hp1.
    destruct (pieceHashed_flags _ _ _ _ He _ Hp1) as (p2 & Hp2 & Hh2 & Hq2).
    exists p2. split; [done |]. rewrite Hh2, Hq2. cbn. split; [done | lia].
  - destruct (Hsame _ Hp) as (p' & Hp' & Hh' & Hq').
    exists p'. split; [done |]. by rewrite Hh', Hq'.
Qed.

(** X19.  As long as what [pieceHashed] calls outside [client.go]
    leaves the hashing and queued flags of pieces alone: in every state
    reached from a piece with both flags clear and no verifier, through
    calls of [queuePieceCheck] and [queueFirstHash], verifiers passing
    their wait and verifiers finishing, the piece is queued exactly when
    one verifier waits and is marked as hashing exactly when one
    verifier hashes it; never do two verifiers wait for, or two hash,
    the same piece. *)
Theorem one_verifier_per_piece (i : Z) (s : world * verifiers) :
  verifyReachable i s ->
  exists p,
    index (pieces (torrent s.1)) i = Some p /\
    waiting s.2 = (if QueuedForHash p then 1 else 0)%nat /\
    hashing s.2 = (if Hashing p then 1 else 0)%nat /\
    (waiting s.2 <= 1)%nat /\ (hashing s.2 <= 1)%nat.
Proof.
  intros Hreach.
  assert (Hinv : exists p, index (pieces (torrent s.1)) i = Some p /\
            waiting s.2 = (if QueuedForHash p then 1 else 0)%nat /\
            hashing s.2 = (if Hashing p then 1 else 0)%nat).
  { induction Hreach as [w p Hp Hh Hq | s s' _ IH Hstep].
    - exists p. cbn. by rewrite Hh, Hq.
    - by eapply verifyStep_flags. }
  destruct Hinv as (p & Hp & Hw & Hh). exists p.
  split; [done |]. split; [done |]. split; [done |].
  rewrite Hw, Hh. destruct (QueuedForHash p), (Hashing p); lia.
Qed.

End VerifyFacts.

(** ** client.go: the BitTorrent handshake *)

Section HandshakeFacts.

Import torrent.

Variable Protocol : list byte.

Local Abbreviation handshake := (handshake Protocol).

Lemma handshakeWriter_error (bb : list (list byte)) :
  forall results cause,
  (handshakeWriter results bb).2 = Some cause -> Some cause ∈ results.
Proof.
  induction bb as [| b bb IH]; intros results cause; cbn; [done |].
  destruct results as [| [err |] results].
  - destruct (handshakeWriter [] bb) as [written err] eqn:Hw. cbn.
    intros ->. specialize (IH [] cause). rewrite Hw in IH.
    by apply IH.
  - cbn. intros [= ->]. constructor.
  - destruct (handshakeWriter results bb) as [written err] eqn:Hw. cbn.
    intros ->. specialize (IH results cause). rewrite Hw in IH.
    constructor. by apply IH.
Qed.

Lemma postChunk_room (posted : list (list byte)) (bb : list byte) :
  (length posted < 4)%nat -> postChunk posted bb = Returns (posted ++ [bb]).
Proof.
  intros Hroom. unfold postChunk, len.
  destruct (Z.leb_spec 4 (Z.of_nat (length posted))); [lia | done].
Qed.

Lemma handshake_eq (s : sock) (ih : option (list byte))
    (ourID extensions : list byte) :
  handshake s ih ourID extensions
  = if len (incoming s) <? 68
    then Returns (zeroResult, false, None,
                  Protocol :: extensions ::
                  match ih with Some h => [h; ourID] | None => [] end)
    else if negb (bool_decide (take 20 (incoming s) = Protocol))
    then Returns (zeroResult, false, None,
                  Protocol :: extensions ::
                  match ih with Some h => [h; ourID] | None => [] end)
    else
      let b := take 68 (incoming s) in
      let res :=
        mkHandshakeResult (take 8 (drop 20 b)) (take 20 (drop 48 b))
                          (take 20 (drop 28 b)) in
      let posted :=
        Protocol :: extensions ::
        match ih with
        | Some h => [h; ourID]
        | None => [hash res; ourID]
        end in
      Returns (res, true,
               ErrWriting <$> (handshakeWriter (writes s) posted).2,
               posted).
Proof.
  unfold torrent.handshake.
  rewrite (postChunk_room []) by (cbn; lia). cbn [andThen app].
  rewrite (postChunk_room [Protocol]) by (cbn; lia). cbn [andThen app].
  rewrite take_take. change (20 `min` 68)%nat with 20%nat.
  destruct ih as [h |].
  - rewrite (postChunk_room [Protocol; extensions]) by (cbn; lia).
    cbn [andThen app].
    rewrite (postChunk_room [Protocol; extensions; h]) by (cbn; lia).
    cbn [andThen app].
    destruct (len (incoming s) <? 68); [done |].
    destruct (negb _); done.
  - cbn [andThen].
    destruct (len (incoming s) <? 68); [done |].
    destruct (negb _); [done |].
    rewrite (postChunk_room [Protocol; extensions]) by (cbn; lia).
    cbn [andThen app].
    rewrite (postChunk_room [Protocol; extensions; _]) by (cbn; lia).
    cbn [andThen app]. done.
Qed.

(** X20.  [handshake] never panics: it posts four chunks at most.  It
    answers [ok] exactly when 68 bytes arrive and the first twenty are
    the protocol string.  When it does not, the error is nil and the
    result is the zero value; an error can only be a failed write, and
    only with [ok] set.  An initiator (the info-hash is given) posts the
    protocol string, its extension bytes, the info-hash and its peer id
    before it reads; a receiver posts the first two, and the info-hash
    it read and its peer id only once the peer's handshake is
    accepted. *)
Theorem handshake_outcome (s : sock) (ih : option (list byte))
    (ourID extensions : list byte) :
  exists res ok err posted,
    handshake s ih ourID extensions = Returns (res, ok, err, posted) /\
    len posted <= 4 /\
    (ok = true <->
     68 <= len (incoming s) /\ take 20 (incoming s) = Protocol) /\
    (ok = false -> err = None /\ res = zeroResult) /\
    (forall cause, err = Some (ErrWriting cause) ->
                   Some cause ∈ writes s) /\
    posted = Protocol :: extensions ::
             match ih with
             | Some h => [h; ourID]
             | None => if ok then [hash res; ourID] else []
             end.
Proof.
  rewrite handshake_eq.
  assert (Herr : forall posted cause,
            ErrWriting <$> (handshakeWriter (writes s) posted).2
            = Some (ErrWriting cause) -> Some cause ∈ writes s).
  { intros posted cause Heq. apply (handshakeWriter_error posted).
    destruct (handshakeWriter (writes s) posted).2; [| done].
    by injection Heq as ->. }
  destruct (Z.ltb_spec (len (incoming s)) 68) as [Hshort | Hlong].
  { destruct ih; do 4 eexists; (split; [done |]);
      (split; [unfold len; cbn; lia |]);
      (split; [split; [done | intros []; lia] |]); done. }
  case_bool_decide as HP; cbn [negb].
  - destruct ih; do 4 eexists; (split; [done |]);
      (split; [unfold len; cbn; lia |]);
      (split; [done |]); (split; [done |]); (split; [apply Herr | done]).
  - destruct ih; do 4 eexists; (split; [done |]);
      (split; [unfold len; cbn; lia |]);
      (split; [split; [done | by intros [_ ?]] |]); done.
Qed.

Lemma wire_fields (ext h pid rest : list byte) :
  length Protocol = 20%nat -> length ext = 8%nat ->
  length h = 20%nat -> length pid = 20%nat ->
  let b := take 68 (Protocol ++ ext ++ h ++ pid ++ rest) in
  take 20 b = Protocol /\ take 8 (drop 20 b) = ext /\
  take 20 (drop 28 b) = h /\ take 20 (drop 48 b) = pid.
Proof.
  intros HP He Hh Hpid b.
  assert (Hb : b = Protocol ++ ext ++ h ++ pid).
  { unfold b. rewrite !app_assoc. apply take_app_length'.
    rewrite !length_app. lia. }
  rewrite Hb. split; [by apply take_app_length' |].
  split.
  { rewrite (drop_app_length' Protocol) by done.
    by apply take_app_length'. }
  split.
  { rewrite (app_assoc Protocol ext).
    rewrite (drop_app_length' (Protocol ++ ext))
      by (rewrite length_app; lia).
    by apply take_app_length'. }
  rewrite (app_assoc Protocol ext), (app_assoc (Protocol ++ ext) h).
  rewrite (drop_app_length' ((Protocol ++ ext) ++ h))
    by (rewrite !length_app; lia).
  apply take_ge. lia.
Qed.

(** X21.  What an initiator sends, a receiver reads back.  For a
    protocol string, an info-hash and a peer id of twenty bytes and
    extension bytes of eight, the chunks that [handshake] posts for an
    initiator make a message from which [handshake] on the receiving
    side takes these extension bytes, this peer id and this info-hash,
    with [ok] set; the receiver answers with its own extension bytes and
    peer id and with the same info-hash. *)
Theorem handshake_round_trip (si : sock) (h pid ext pid' ext' : list byte)
    (rest : list byte) (ws : list (option string))
    (res : handshakeResult) (ok : bool) (err : option handshakeError)
    (posted : list (list byte)) :
  len Protocol = 20 -> len ext = 8 -> len h = 20 -> len pid = 20 ->
  handshake si (Some h) pid ext = Returns (res, ok, err, posted) ->
  handshake (mkSock (concat posted ++ rest) ws) None pid' ext'
  = Returns (mkHandshakeResult ext pid h, true,
             ErrWriting <$> (handshakeWriter ws [Protocol; ext'; h; pid']).2,
             [Protocol; ext'; h; pid']).
Proof.
  unfold len. intros HP He Hh Hpid Hinit.
  assert (posted = [Protocol; ext; h; pid]) as ->.
  { revert Hinit. rewrite handshake_eq.
    destruct (_ <? 68); [by intros [= _ _ _ <-] |].
    destruct (negb _); cbn; by intros [= _ _ _ <-]. }
  destruct (wire_fields ext h pid rest) as (H1 & H2 & H3 & H4); try lia.
  rewrite handshake_eq. cbn [incoming writes concat].
  replace (Protocol ++ ext ++ h ++ pid ++ [])
    with (Protocol ++ ext ++ h ++ pid) by (by rewrite app_nil_r).
  rewrite <- !app_assoc.
  destruct (Z.ltb_spec (len (Protocol ++ ext ++ h ++ pid ++ rest)) 68)
    as [Hshort | _].
  { unfold len in Hshort. rewrite !length_app in Hshort. lia. }
  assert (H0 : take 20 (Protocol ++ ext ++ h ++ pid ++ rest) = Protocol).
  { apply take_app_length'. lia. }
  rewrite H0, bool_decide_eq_true_2 by done. cbn [negb].
  cbv zeta. cbn [hash]. rewrite H2, H3, H4. done.
Qed.

End HandshakeFacts.

(** ** client.go: more on the dial timeout *)

Section DialMore.

Import torrent.

Variable minDialTimeout : Z.

Local Abbreviation reducedDialTimeout :=
  (reducedDialTimeout minDialTimeout).

Lemma reducedDialTimeout_value (max halfOpenLimit pendingPeers : Z) :
  0 <= max <= maxInt64 ->
  0 < halfOpenLimit ->
  0 <= pendingPeers ->
  pendingPeers + halfOpenLimit <= maxInt64 ->
  reducedDialTimeout max halfOpenLimit pendingPeers
  = Returns (Z.max minDialTimeout
               (max / ((pendingPeers + halfOpenLimit) / halfOpenLimit))).
Proof.
  intros Hmax Hh Hp Hsum. unfold torrent.reducedDialTimeout.
  destruct (Z.eqb_spec halfOpenLimit 0) as [-> | _]; [lia |].
  assert (Hq : 1 <= (pendingPeers + halfOpenLimit) / halfOpenLimit
               <= pendingPeers + halfOpenLimit).
  { split.
    - apply Z.div_le_lower_bound; lia.
    - apply Z.div_le_upper_bound; nia. }
  rewrite (wrap64_id (pendingPeers + halfOpenLimit))
    by (unfold inInt64, minInt64, maxInt64 in *; lia).
  rewrite Z.quot_div_nonneg by lia.
  rewrite (wrap64_id (_ / halfOpenLimit))
    by (unfold inInt64, minInt64, maxInt64 in *; lia).
  destruct (Z.eqb_spec ((pendingPeers + halfOpenLimit) / halfOpenLimit) 0)
    as [E | _]; [lia |].
  rewrite Z.quot_div_nonneg by lia.
  assert (Hr : 0 <= max / ((pendingPeers + halfOpenLimit) / halfOpenLimit)
               <= max).
  { split.
    - apply Z.div_pos; lia.
    - apply Z.div_le_upper_bound; nia. }
  rewrite wrap64_id by (unfold inInt64, minInt64, maxInt64 in *; lia).
  f_equal.
  destruct (Z.ltb_spec
              (max / ((pendingPeers + halfOpenLimit) / halfOpenLimit))
              minDialTimeout); lia.
Qed.

(** X22.  While fewer peers are pending than the half-open limit
    allows, the dial timeout is not reduced: it is [max], or the floor
    if that is larger.  A half-open limit of zero is a division by
    zero: the function panics. *)
Theorem reducedDialTimeout_unreduced (max halfOpenLimit pendingPeers : Z) :
  (0 <= max <= maxInt64 ->
   0 <= pendingPeers < halfOpenLimit ->
   pendingPeers + halfOpenLimit <= maxInt64 ->
   reducedDialTimeout max halfOpenLimit pendingPeers
   = Returns (Z.max minDialTimeout max)) /\
  (halfOpenLimit = 0 ->
   exists msg, reducedDialTimeout max halfOpenLimit pendingPeers
               = Panics msg).
Proof.
  split.
  - intros Hmax Hp Hsum.
    rewrite reducedDialTimeout_value by lia.
    replace ((pendingPeers + halfOpenLimit) / halfOpenLimit) with 1.
    + by rewrite Z.div_1_r.
    + apply Z.div_unique with (r := pendingPeers); lia.
  - intros ->. unfold torrent.reducedDialTimeout. cbn. eauto.
Qed.

(** X23.  More pending peers never lengthen the dial timeout: for a
    non-negative [max] and a positive limit the timeout for the larger
    number of pending peers is at most the one for the smaller number,
    and both lie between the floor and the larger of [max] and the
    floor. *)
Theorem reducedDialTimeout_antitone (max halfOpenLimit p p' : Z) :
  0 <= max <= maxInt64 ->
  0 < halfOpenLimit ->
  0 <= p <= p' ->
  p' + halfOpenLimit <= maxInt64 ->
  exists r r',
    reducedDialTimeout max halfOpenLimit p = Returns r /\
    reducedDialTimeout max halfOpenLimit p' = Returns r' /\
    minDialTimeout <= r' <= r /\ r <= Z.max minDialTimeout max.
Proof.
  intros Hmax Hh Hp Hsum.
  rewrite !reducedDialTimeout_value by lia.
  do 2 eexists. split; [done |]. split; [done |].
  assert (Hq : 1 <= (p + halfOpenLimit) / halfOpenLimit).
  { apply Z.div_le_lower_bound; lia. }
  assert (Hqq : (p + halfOpenLimit) / halfOpenLimit
                <= (p' + halfOpenLimit) / halfOpenLimit).
  { apply Z.div_le_mono; lia. }
  assert (Hle : max / ((p' + halfOpenLimit) / halfOpenLimit)
                <= max / ((p + halfOpenLimit) / halfOpenLimit)).
  { apply Z.div_le_compat_l; lia. }
  assert (Hup : max / ((p + halfOpenLimit) / halfOpenLimit) <= max).
  { apply Z.div_le_upper_bound; nia. }
  lia.
Qed.

End DialMore.

(** ** client.go: more on adding connections *)

Section AddConnectionMore.

Import torrent.

Variable socketsPerTorrent : Z.
Variable clientClosed : bool.
Variable seeding needData : Torrent -> bool.
Variable worstBadConn : connHeap -> Torrent -> option connRef.

Local Abbreviation wantConns :=
  (wantConns socketsPerTorrent seeding needData worstBadConn).
Local Abbreviation addConnection :=
  (addConnection socketsPerTorrent clientClosed seeding needData
                 worstBadConn).
Local Abbreviation connStep :=
  (connStep socketsPerTorrent clientClosed seeding needData worstBadConn).
Local Abbreviation reachable :=
  (reachable socketsPerTorrent clientClosed seeding needData worstBadConn).


(** X24.  What [addConnection] answers.  It answers false, and changes
    neither the torrent nor any connection, when the client is closed,
    when the torrent wants no connection, when a connection with the
    same peer id is listed (the one case in which it counts a
    duplicate), and when the list is full and no connection can be
    evicted.  When it answers true the new connection is the last of the
    list and points to the torrent, and the counters are unchanged; if
    the list was full, the connection that [worstBadConn] named has been
    closed and taken out of the list, and otherwise the list is the old
    one with the new connection appended and no other object is
    written. *)
Theorem addConnection_answer (h : connHeap) (x : Torrent) (ev : expvars)
    (c : connRef) (b : bool) (h' : connHeap) (x' : Torrent)
    (ev' : expvars) :
  addConnection h x ev c = Returns (b, h', x', ev') ->
  (b = false ->
   h' = h /\ x' = x /\
   (ev' = ev \/
    clientClosed = false /\ wantConns h x = true /\
    PeerID (h c) ∈ peerIDs h x /\
    duplicateClientConns ev' = duplicateClientConns ev + 1)) /\
  (b = true ->
   clientClosed = false /\ wantConns h x = true /\ ev' = ev /\
   list.last (conns x') = Some c /\
   t (h' c) = Some (infoHash x) /\ infoHash x' = infoHash x /\
   (len (conns x) < socketsPerTorrent ->
    conns x' = conns x ++ [c] /\ forall r, r <> c -> h' r = h r) /\
   (socketsPerTorrent <= len (conns x) ->
    exists w,
      worstBadConn h x = Some w /\
      conns x' = filter (fun c0 => c0 <> w) (conns x) ++ [c] /\
      (w <> c -> closed (h' w) = true) /\
      forall r, r <> c -> r <> w -> h' r = h r)).
Proof.
  unfold torrent.addConnection.
  destruct clientClosed; [intros [= <- <- <- <-]; split; [auto | done] |].
  destruct (wantConns h x) eqn:Hwant; cbn [negb];
    [| intros [= <- <- <- <-]; split; [auto | done]].
  destruct (samePeerIDConn h x c) eqn:Hsame.
  { intros [= <- <- <- <-]. split; [| done]. intros _.
    split; [done |]. split; [done |]. right.
    split; [done |]. split; [done |]. split; [| done].
    by apply samePeerIDConn_spec. }
  destruct (Z.geb_spec (len (conns x)) socketsPerTorrent) as [Hfull | Hroom].
  - destruct (worstBadConn h x) as [w |] eqn:Hworst;
      [| intros [= <- <- <- <-]; split; [auto | done]].
    destruct (len (conns (deleteConnection x w)) >=? socketsPerTorrent);
      [discriminate |].
    intros [= <- <- <- <-]. split; [done |]. intros _.
    split; [done |]. split; [done |]. split; [done |].
    cbn [conns set_conns infoHash deleteConnection].
    split; [by rewrite last_snoc |].
    split; [by rewrite fn_lookup_insert |]. split; [done |].
    split; [lia |]. intros _. exists w. split; [done |]. split; [done |].
    split.
    + intros Hne. rewrite fn_lookup_insert_ne by done.
      unfold Close. by rewrite fn_lookup_insert.
    + intros r Hrc Hrw. rewrite fn_lookup_insert_ne by done.
      unfold Close. by rewrite fn_lookup_insert_ne.
  - destruct (Z.geb_spec (len (conns x)) socketsPerTorrent); [lia |].
    intros [= <- <- <- <-]. split; [done |]. intros _.
    split; [done |]. split; [done |]. split; [done |].
    cbn [conns set_conns infoHash].
    split; [by rewrite last_snoc |].
    split; [by rewrite fn_lookup_insert |]. split; [done |].
    split; [| lia]. intros _. split; [done |].
    intros r Hr. by rewrite fn_lookup_insert_ne.
Qed.



Hypothesis worstBadConn_listed :
  forall h x w, worstBadConn h x = Some w -> w ∈ conns x.


End AddConnectionMore.

(** ** client.go: reaping piece touches *)

Section ReapFacts.

Import torrent.

Lemma reapPieceTouchesFrom_touched (i : Z) (cs : list connRef) :
  forall (h : connHeap) (ret : list connRef) (c : connRef),
  peerTouchedPieces ((reapPieceTouchesFrom h cs i ret).2 c)
  = if decide (c ∈ cs)
    then peerTouchedPieces (h c) ∖ {[i]}
    else peerTouchedPieces (h c).
Proof.
  induction cs as [| c0 cs IH]; intros h ret c; cbn [reapPieceTouchesFrom].
  - by rewrite decide_False by apply not_elem_of_nil.
  - destruct (bool_decide_reflect (i ∈ peerTouchedPieces (h c0)))
      as [Ht | Ht]; rewrite IH.
    + destruct (decide (c0 = c)) as [-> | Hne].
      * rewrite fn_lookup_insert. cbn.
        rewrite (decide_True (P := c ∈ c :: cs)) by constructor.
        case_decide; set_solver.
      * rewrite fn_lookup_insert_ne by done.
        repeat case_decide; set_solver.
    + destruct (decide (c0 = c)) as [-> | Hne].
      * rewrite (decide_True (P := c ∈ c :: cs)) by constructor.
        case_decide; set_solver.
      * repeat case_decide; set_solver.
Qed.

(** X26.  [reapPieceTouches] returns, once each and in the order of the
    list, the connections of the torrent that had touched the piece.
    Afterwards no connection of the torrent has the piece among its
    touched pieces, the touches of other pieces and the connections of
    other torrents are as before, nothing but sets of touched pieces
    has changed, and a second call returns nothing. *)
Theorem reapPieceTouches_clears (h : connHeap) (x : Torrent) (i : Z) :
  let reaped := reapPieceTouches h x i in
  NoDup reaped.1 /\
  reaped.1 `sublist_of` conns x /\
  (forall c, c ∈ reaped.1 <->
             c ∈ conns x /\ i ∈ peerTouchedPieces (h c)) /\
  (forall c, c ∈ conns x -> i ∉ peerTouchedPieces (reaped.2 c)) /\
  (forall c j, j <> i ->
     j ∈ peerTouchedPieces (reaped.2 c) <-> j ∈ peerTouchedPieces (h c)) /\
  (forall c, c ∉ conns x ->
     peerTouchedPieces (reaped.2 c) = peerTouchedPieces (h c)) /\
  (forall c, untouched (reaped.2 c) = untouched (h c)) /\
  (reapPieceTouches reaped.2 x i).1 = [].
Proof.
  unfold reapPieceTouches. cbn zeta.
  destruct (reapPieceTouchesFrom_spec i (conns x) h [])
    as (ts & Hret & Hnd & Hin & Hsame).
  cbn [app] in Hret. rewrite Hret.
  pose proof (reapPieceTouchesFrom_touched i (conns x) h []) as Htouched.
  split; [done |]. split.
  { clear -Hret. rewrite <- Hret. clear Hret.
    assert (Hgen : forall cs h ret,
              exists ts, (reapPieceTouchesFrom h cs i ret).1 = ret ++ ts /\
                         ts `sublist_of` cs).
    { induction cs as [| c cs IH]; intros h0 ret; cbn.
      - exists []. by rewrite app_nil_r.
      - destruct (bool_decide _).
        + destruct (IH (<[c := set_peerTouchedPieces
                                 (peerTouchedPieces (h0 c) ∖ {[i]}) (h0 c)]>
                          h0) (ret ++ [c])) as (ts0 & -> & Hsub).
          exists (c :: ts0). rewrite <- app_assoc. split; [done |].
          by constructor.
        + destruct (IH h0 ret) as (ts0 & -> & Hsub).
          exists ts0. split; [done |]. by constructor. }
    destruct (Hgen (conns x) h []) as (ts0 & -> & Hsub). done. }
  split; [done |]. split.
  { intros c Hc. rewrite Htouched, decide_True by done. set_solver. }
  split.
  { intros c j Hj. rewrite Htouched. case_decide; set_solver. }
  split.
  { intros c Hc. by rewrite Htouched, decide_False. }
  split; [done |].
  destruct (reapPieceTouchesFrom_spec i (conns x)
              (reapPieceTouchesFrom h (conns x) i []).2 [])
    as (ts2 & Hret2 & _ & Hin2 & _).
  cbn [app] in Hret2. rewrite Hret2.
  destruct ts2 as [| c ts2]; [done |].
  destruct (proj1 (Hin2 c) ltac:(constructor)) as [Hc Hi].
  rewrite Htouched, decide_True in Hi by done. set_solver.
Qed.

End ReapFacts.

(** ** client.go: more on ut_metadata messages *)

Section MetadataMore.

Import torrent.

Variable bdecode : list byte -> option (gmap string Z).
Variable requestedMetadataPiece : connection -> Z -> bool.
Variable metadataPieceSize : Z -> Z -> Z.
Variable saveMetadataPiece : Torrent -> Z -> list byte -> Torrent.
Variable maybeMetadataCompleted : Torrent -> Torrent.
Variable haveMetadataPiece : Torrent -> Z -> bool.
Variable torrentMetadataPieceSize : Torrent -> Z -> Z.
Variable newMetadataExtensionMessage :
  Torrent -> connection -> Z -> Z -> list byte -> pp.Message.

Local Abbreviation gotMetadataExtensionMsg :=
  (gotMetadataExtensionMsg bdecode requestedMetadataPiece metadataPieceSize
     saveMetadataPiece maybeMetadataCompleted haveMetadataPiece
     torrentMetadataPieceSize newMetadataExtensionMessage).
Local Abbreviation gotMetadataExtended :=
  (gotMetadataExtended bdecode requestedMetadataPiece metadataPieceSize
     saveMetadataPiece maybeMetadataCompleted haveMetadataPiece
     torrentMetadataPieceSize newMetadataExtensionMessage).

(** X27.  A metadata message that [gotMetadataExtensionMsg] answers with
    an error changes nothing in the torrent, posts nothing and counts no
    useful chunk.  The connection is untouched too, except when the
    error is the bad offset of a data message: then the piece is no
    longer marked as requested. *)
Theorem metadata_error_changes_nothing (payload : list byte) (x x' : Torrent)
    (c c' : connection) (e : error) :
  gotMetadataExtensionMsg payload x c = Returns (x', c', Some e) ->
  x' = x /\
  post c' = post c /\
  UsefulChunksReceived c' = UsefulChunksReceived c /\
  (c' = c \/
   exists begin reqs piece,
     e = ErrBadOffset begin /\
     store (metadataRequests c) piece false = Some reqs /\
     c' = set_metadataRequests reqs c).
Proof.
  unfold torrent.gotMetadataExtensionMsg, at0.
  destruct (bdecode payload) as [d |]; [| intros [= <- <- <-]; auto].
  destruct (d !! "msg_type"%string) as [msgType |];
    [| intros [= <- <- <-]; auto].
  destruct (msgType =? pp.DataMetadataExtensionMsgType).
  { destruct (requestedMetadataPiece c _); cbn [negb];
      [| intros [= <- <- <-]; auto].
    destruct (store (metadataRequests c) _ false) as [reqs |] eqn:Hstore;
      [| discriminate].
    destruct (_ || _); [| discriminate].
    intros [= <- <- <-]. split; [done |]. split; [done |]. split; [done |].
    right. do 3 eexists. split; [done |]. split; [exact Hstore | done]. }
  destruct (msgType =? pp.RequestMetadataExtensionMsgType).
  { destruct (haveMetadataPiece x _); cbn [negb]; [| discriminate].
    destruct (slice _ _ _); discriminate. }
  destruct (msgType =? pp.RejectMetadataExtensionMsgType); [discriminate |].
  intros [= <- <- <-]. auto.
Qed.

(** X28.  A metadata request never returns an error and never changes
    the torrent: what it returns is the connection with one more message
    posted.  For a piece the torrent does not have the message is a
    reject.  For a piece it has, with [start = 16384 * piece] and
    [stop = start + t.metadataPieceSize(piece)] as Go computes them, the
    call panics exactly when [0 <= start <= stop <= cap(t.metadataBytes)]
    fails; otherwise the message is a data message that carries
    [stop - start] bytes, those of the backing array of the metadata from
    [start] on: they are bytes of the metadata itself when [stop] is
    within its length, and may lie beyond it otherwise. *)
Theorem metadata_request_answered (payload : list byte) (x : Torrent)
    (c : connection) (d : gmap string Z) :
  bdecode payload = Some d ->
  d !! "msg_type"%string = Some pp.RequestMetadataExtensionMsgType ->
  let piece := default 0 (d !! "piece"%string) in
  let start := wrap64 (2 ^ 14 * piece) in
  let stop := wrap64 (start + torrentMetadataPieceSize x piece) in
  let have := elems (metadataBytes x) in
  (forall x' c' err,
     gotMetadataExtensionMsg payload x c = Returns (x', c', err) ->
     err = None /\ x' = x /\ exists m, c' = Post m c) /\
  (haveMetadataPiece x piece = false ->
   gotMetadataExtensionMsg payload x c
   = Returns (x,
              Post (newMetadataExtensionMessage
                      x c pp.RejectMetadataExtensionMsgType piece []) c,
              None)) /\
  (haveMetadataPiece x piece = true ->
   0 <= start -> start <= stop -> stop <= cap (metadataBytes x) ->
   exists b,
     gotMetadataExtensionMsg payload x c
     = Returns (x,
                Post (newMetadataExtensionMessage
                        x c pp.DataMetadataExtensionMsgType piece b) c,
                None) /\
     len b = stop - start /\
     b = take (Z.to_nat (stop - start))
              (drop (Z.to_nat start) (have ++ spare (metadataBytes x))) /\
     (stop <= len have ->
      b = take (Z.to_nat (stop - start)) (drop (Z.to_nat start) have))) /\
  ((exists msg, gotMetadataExtensionMsg payload x c = Panics msg) <->
   haveMetadataPiece x piece = true /\
   (start < 0 \/ stop < start \/ cap (metadataBytes x) < stop)).
Proof.
  intros Hd Hty piece start stop have.
  unfold torrent.gotMetadataExtensionMsg, at0. rewrite Hd, Hty.
  change (pp.RequestMetadataExtensionMsgType
          =? pp.DataMetadataExtensionMsgType) with false.
  change (pp.RequestMetadataExtensionMsgType
          =? pp.RequestMetadataExtensionMsgType) with true.
  cbv iota. fold piece. fold start. fold stop.
  unfold slice. fold have.
  pose proof (len_nonneg have) as Hhave.
  pose proof (len_nonneg (spare (metadataBytes x))) as Hspare.
  destruct (haveMetadataPiece x piece); cbn [negb].
  2: { split; [intros x' c' err [= <- <- <-]; eauto |].
       split; [done |]. split; [done |].
       split; [by intros [? [=]] | by intros [[=] _]]. }
  destruct (Z.ltb_spec start 0) as [H0 | H0]; cbn [orb].
  { split; [done |]. split; [done |]. split; [lia |].
    split; [auto | eauto]. }
  destruct (Z.ltb_spec stop start) as [H1 | H1]; cbn [orb].
  { split; [done |]. split; [done |]. split; [lia |].
    split; [auto | eauto]. }
  destruct (Z.ltb_spec (cap (metadataBytes x)) stop) as [H2 | H2].
  { split; [done |]. split; [done |]. split; [lia |].
    split; [auto | eauto]. }
  split; [intros x' c' err [= <- <- <-]; eauto |].
  split; [done |]. split.
  - intros _ _ _ _. eexists. split; [reflexivity |].
    unfold cap in H2. fold have in H2. split; [| split; [done |]].
    + unfold len in *.
      rewrite length_take, length_drop, length_app. lia.
    + intros Hin. unfold len in Hin.
      rewrite drop_app_le by lia.
      rewrite take_app_le; [done |]. rewrite length_drop. lia.
  - split; [by intros [? [=]] | lia].
Qed.

End MetadataMore.

(** ** client.go: the extended handshake message *)

Section ExtendedHandshakeFacts.

Import torrent.

Variable bdecodeAny : list byte -> option (gmap string value).
Variable rangeItems : gmap string item -> list (string * item).
Variable setMetadataSize : Torrent -> Z -> Torrent * option error.

Local Abbreviation gotExtendedHandshake :=
  (gotExtendedHandshake bdecodeAny rangeItems setMetadataSize).

(** The extension id that is recorded for a name after the peer's
    dictionary [m] has been gone through. *)
Local Abbreviation noted :=
  (fun (m : gmap string item) (ids : gmap string Z) (name : string) =>
     match m !! name with
     | Some (ItemInt id) => if id =? 0 then None else Some (id mod 256)
     | _ => ids !! name
     end).

Lemma noteExtension_lookup (ids : gmap string Z) (k name : string)
    (it : item) :
  noteExtension ids (k, it) !! name
  = if decide (k = name)
    then match it with
         | ItemInt id => if id =? 0 then None else Some (id mod 256)
         | ItemOther => ids !! name
         end
    else ids !! name.
Proof.
  unfold noteExtension. cbn [fst snd].
  destruct it as [id |]; [| by case_decide].
  destruct (id =? 0); case_decide; subst.
  - by rewrite lookup_delete_eq.
  - by rewrite lookup_delete_ne.
  - by rewrite lookup_insert_eq.
  - by rewrite lookup_insert_ne.
Qed.

Lemma foldl_noteExtension (l : list (string * item)) :
  forall ids name,
  NoDup l.*1 ->
  foldl noteExtension ids l !! name
  = noted (list_to_map l : gmap string item) ids name.
Proof.
  induction l as [| [k it] l IH]; intros ids name Hnd; cbn [foldl].
  - cbn. by rewrite lookup_empty.
  - rewrite fmap_cons in Hnd. cbn [fst] in Hnd.
    apply list.NoDup_cons in Hnd as [Hk Hnd].
    rewrite IH by done. cbn [list_to_map foldr uncurry].
    change (foldr (fun p => <[p.1:=p.2]>) ∅ l)
      with (list_to_map l : gmap string item).
    rewrite noteExtension_lookup.
    destruct (decide (k = name)) as [-> | Hne].
    + rewrite lookup_insert_eq.
      rewrite (not_elem_of_list_to_map_1 (M := gmap string) l name Hk).
      done.
    + by rewrite lookup_insert_ne.
Qed.

(** X30.  The extended handshake of a peer whose payload decodes and
    whose ["m"] is a dictionary, wherever the loop over that dictionary
    starts: an extension announced with id zero is withdrawn, one
    announced with another integer is recorded with that integer modulo
    256, and every other name keeps what was recorded; the call asks for
    pending metadata exactly when [ut_metadata] is then recorded and no
    error is returned.  A ["v"] that is not a string makes the arm
    panic. *)
Theorem extended_handshake_notes_extensions (payload : list byte)
    (x : Torrent) (c : peerExtensions) (d : gmap string value)
    (m : gmap string item) :
  bdecodeAny payload = Some d ->
  d !! "m"%string = Some (VDict m) ->
  rangeItems m ≡ₚ map_to_list m ->
  ((forall s, d !! "v"%string <> Some (VString s)) ->
   d !! "v"%string <> None ->
   exists msg, gotExtendedHandshake payload x c = Panics msg) /\
  (d !! "v"%string = None \/ (exists s, d !! "v"%string = Some (VString s)) ->
   exists x' c' asks err,
     gotExtendedHandshake payload x c = Returns (x', c', asks, err) /\
     (forall name,
        PeerExtensionIDs c' !! name = noted m (PeerExtensionIDs c) name) /\
     (asks = true <->
      err = None /\ is_Some (PeerExtensionIDs c' !! "ut_metadata"%string))).
Proof.
  intros Hd Hm Hperm. unfold torrent.gotExtendedHandshake. rewrite Hd, Hm.
  assert (Hids : forall ids name,
            foldl noteExtension ids (rangeItems m) !! name = noted m ids name).
  { intros ids name. rewrite foldl_noteExtension.
    - assert (list_to_map (rangeItems m) = m) as ->; [| done].
      rewrite (list_to_map_proper (M := gmap string)
                 (rangeItems m) (map_to_list m)); [| | done].
      + apply list_to_map_to_list.
      + rewrite Hperm. apply NoDup_fst_map_to_list.
    - rewrite Hperm. apply NoDup_fst_map_to_list. }
  set (c0 := match d !! "reqq"%string with
             | Some (VInt i) =>
               mkPeerExtensions i (PeerClientName c) (PeerExtensionIDs c)
             | _ => c
             end).
  assert (Hc0 : PeerExtensionIDs c0 = PeerExtensionIDs c).
  { subst c0. by destruct (d !! "reqq"%string) as [[] |]. }
  clearbody c0.
  split.
  - intros Hv Hsome.
    destruct (d !! "v"%string) as [[i | s | m0 |] |]; eauto; [| done].
    by destruct (Hv s).
  - intros Hv.
    assert (Hasks : forall (ids : gmap string Z) (e : option extendedError)
                      (b : bool),
              b = match e with
                  | Some _ => false
                  | None =>
                    bool_decide (is_Some (ids !! "ut_metadata"%string))
                  end ->
              b = true <-> e = None /\ is_Some (ids !! "ut_metadata"%string)).
    { intros ids [e |] b ->; [naive_solver |].
      rewrite bool_decide_eq_true. naive_solver. }
    assert (Hdone : forall (x' : Torrent) (c1 : peerExtensions) (asks : bool)
                      (err : option extendedError),
              PeerExtensionIDs c1
              = foldl noteExtension (PeerExtensionIDs c0) (rangeItems m) ->
              asks = match err with
                     | Some _ => false
                     | None =>
                       bool_decide
                         (is_Some (PeerExtensionIDs c1
                                   !! "ut_metadata"%string))
                     end ->
              exists x'' c' asks' err',
                Returns (x', c1, asks, err) = Returns (x'', c', asks', err') /\
                (forall name,
                   PeerExtensionIDs c' !! name
                   = noted m (PeerExtensionIDs c) name) /\
                (asks' = true <->
                 err' = None /\
                 is_Some (PeerExtensionIDs c' !! "ut_metadata"%string))).
    { intros x' c1 asks err Hc1 Hask. exists x', c1, asks, err.
      split; [done |]. split; [| by apply Hasks].
      intros name. by rewrite Hc1, Hids, Hc0. }
    destruct (d !! "v"%string) as [[i | s | m0 |] |];
      try (destruct Hv as [[=] | [s0 [=]]]; fail);
      (destruct (d !! "metadata_size"%string) as [[size | | |] |];
       [destruct (setMetadataSize x size) as [x1 [e |]] | ..]);
      by apply Hdone.
Qed.

End ExtendedHandshakeFacts.

(** ** Instances of the further properties of client.go *)

Lemma shuffleTier_permutation_witness :
  exists out,
    torrent.shuffleTier (fun _ => 0) ["a"; "b"; "c"]%string = Returns out /\
    out ≡ₚ ["a"; "b"; "c"]%string.
Proof.
  apply (shuffleTier_permutation (fun _ => 0)). intros k Hk. lia.
Defined.

Lemma activeAddr_halfOpen (d : torrent.dialing) (addr : string) :
  addr ∈ torrent.halfOpen d -> samples.activeAddr d addr = true.
Proof. intros Hin. by apply bool_decide_eq_true. Qed.

(** The state with one dial under way is reached by one call of
    [openNewConns]. *)
Lemma dialOne_reachable :
  torrent.dialReachable samples.hostOf samples.to4 None "-TR2940-self" 2
                        samples.activeAddr samples.firstPeer samples.dialOne.
Proof.
  apply (torrent.dial_step _ _ _ _ _ _ _ ∅ ∅ samples.dialNone).
  - apply torrent.dial_new.
  - apply (torrent.dial_open _ _ _ _ _ _ _ _ _ true). vm_compute.
    reflexivity.
Defined.

Lemma halfOpen_matches_dials_witness :
  NoDup (torrent.dials samples.dialOne).*1 /\
  torrent.halfOpen samples.dialOne
  = list_to_set (torrent.dials samples.dialOne).*1 /\
  Z.of_nat (size (torrent.halfOpen samples.dialOne)) <= Z.max 0 2 /\
  forall dopp bad out,
    torrent.dialStep samples.hostOf samples.to4 None "-TR2940-self" 2
                     samples.activeAddr samples.firstPeer dopp bad
                     samples.dialOne out ->
    exists d', out = Returns d'.
Proof.
  exact (halfOpen_matches_dials samples.hostOf samples.to4 None
           "-TR2940-self" 2 samples.activeAddr samples.firstPeer
           activeAddr_halfOpen samples.dialOne dialOne_reachable).
Defined.

(** The peer that touched piece 0 before its check failed. *)
Lemma banned_toucher_is_turned_away_witness :
  exists w',
    torrent.pieceHashed samples.keep samples.keep samples.worldFirstHash
                        0 false = Returns w' /\
    torrent.badPeerIPPort samples.hostOf samples.to4 None ∅
                          (torrent.badPeerIPs w') "10.0.0.1" 6881 = true /\
    torrent.initiateConn samples.hostOf samples.to4 None "-TR2940-self"
                         samples.activeAddr ∅ (torrent.badPeerIPs w')
                         samples.peerA samples.dialNone
    = samples.dialNone /\
    torrent.addPeers samples.hostOf samples.to4 None samples.keepPeers ∅
                     (torrent.badPeerIPs w') samples.dialNone
                     [samples.peerA]
    = samples.dialNone.
Proof.
  eexists. split; [reflexivity |].
  refine (banned_toucher_is_turned_away samples.hostOf samples.to4 None
            samples.keepPeers "-TR2940-self" samples.activeAddr
            samples.keep samples.keep samples.worldFirstHash _ 0 O
            keep_frame eq_refl _ _ ∅ samples.peerA samples.dialNone
            eq_refl).
  - apply list_elem_of_here.
  - vm_compute. reflexivity.
Defined.

Lemma keep_flags (w : torrent.world) (i j : Z) :
  torrent.sameFlags j (torrent.torrent w)
                    (torrent.torrent (samples.keep w i)).
Proof. intros p Hp. exists p. done. Qed.

(** Piece 0 after one call of [queuePieceCheck]: one verifier waits. *)
Lemma queued_reachable :
  torrent.verifyReachable samples.notComplete samples.never samples.never
                          samples.keep samples.keep 0
                          (samples.worldQueued, torrent.mkVerifiers 1 0).
Proof.
  apply (torrent.verify_step _ _ _ _ _ 0
           (samples.worldFirstHash, torrent.mkVerifiers 0 0)).
  - apply (torrent.verify_new _ _ _ _ _ 0 samples.worldFirstHash
             (torrent.mkPiece "digest-0" false false false));
      reflexivity.
  - apply (torrent.verify_queue _ _ _ _ _ 0 samples.worldFirstHash
             (torrent.mkVerifiers 0 0)
             (torrent.torrent samples.worldQueued) true).
    reflexivity.
Defined.

Lemma one_verifier_per_piece_witness :
  exists p,
    torrent.index (torrent.pieces (torrent.torrent samples.worldQueued)) 0
    = Some p /\
    1%nat = (if torrent.QueuedForHash p then 1 else 0)%nat /\
    0%nat = (if torrent.Hashing p then 1 else 0)%nat /\
    (1 <= 1)%nat /\ (0 <= 1)%nat.
Proof.
  exact (one_verifier_per_piece samples.notComplete samples.never
           samples.never samples.keep samples.keep keep_flags keep_flags 0
           (samples.worldQueued, torrent.mkVerifiers 1 0) queued_reachable).
Defined.

(** What an initiator posts while nothing arrives, read by a receiver. *)
Lemma handshake_round_trip_witness :
  torrent.handshake samples.protocol
    (torrent.mkSock
       (concat [samples.protocol; samples.noExtensions; samples.hashA;
                samples.idA] ++ [])
       [])
    None samples.idB samples.noExtensions
  = Returns (torrent.mkHandshakeResult samples.noExtensions samples.idA
                                       samples.hashA,
             true, None,
             [samples.protocol; samples.noExtensions; samples.hashA;
              samples.idB]).
Proof.
  apply (handshake_round_trip samples.protocol samples.silent samples.hashA
           samples.idA samples.noExtensions samples.idB
           samples.noExtensions [] [] torrent.zeroResult false None
           [samples.protocol; samples.noExtensions; samples.hashA;
            samples.idA]); reflexivity.
Defined.

Lemma reducedDialTimeout_antitone_witness :
  exists r r',
    torrent.reducedDialTimeout (5 * samples.second) (30 * samples.second)
                               40 41 = Returns r /\
    torrent.reducedDialTimeout (5 * samples.second) (30 * samples.second)
                               40 200 = Returns r' /\
    5 * samples.second <= r' <= r /\
    r <= Z.max (5 * samples.second) (30 * samples.second).
Proof.
  apply (reducedDialTimeout_antitone (5 * samples.second)
           (30 * samples.second) 40 41 200);
    vm_compute; intuition discriminate.
Defined.

Lemma addConnection_answer_witness :
  list.last (torrent.conns samples.torrentAdded) = Some O /\
  torrent.t (samples.heapAdded O) = Some "infohash-1"%string.
Proof.
  destruct (addConnection_answer 80 false (samples.always false)
              (samples.always true) samples.noWorst samples.heapAAB
              samples.torrentNew samples.noExpvars O true samples.heapAdded
              samples.torrentAdded samples.noExpvars eq_refl)
    as [_ Htrue].
  destruct (Htrue eq_refl) as (_ & _ & _ & Hlast & Ht & _).
  split; [exact Hlast | exact Ht].
Defined.



(** A payload that does not decode. *)
Lemma metadata_error_changes_nothing_witness :
  samples.torrentNew = samples.torrentNew /\
  torrent.post samples.connAsking = torrent.post samples.connAsking /\
  torrent.UsefulChunksReceived samples.connAsking
  = torrent.UsefulChunksReceived samples.connAsking /\
  (samples.connAsking = samples.connAsking \/
   exists begin reqs piece,
     torrent.ErrUnmarshal = torrent.ErrBadOffset begin /\
     torrent.store (torrent.metadataRequests samples.connAsking) piece false
     = Some reqs /\
     samples.connAsking = torrent.set_metadataRequests reqs samples.connAsking).
Proof.
  apply (metadata_error_changes_nothing samples.decodeFails
           samples.requested samples.pieceSizeOf samples.savePiece
           samples.sameTorrent samples.hasPiece samples.sizeOf
           samples.message samples.payloadShort samples.torrentNew
           samples.torrentNew samples.connAsking samples.connAsking
           torrent.ErrUnmarshal).
  reflexivity.
Defined.

(** A request for the piece of a metadata of three bytes in a backing
    array of four, from a torrent that takes the piece to have four
    bytes: the reply carries the byte behind the metadata. *)
Lemma metadata_request_answered_witness :
  exists b,
    torrent.gotMetadataExtensionMsg samples.decodeRequest samples.requested
      samples.pieceSizeOf samples.savePiece samples.sameTorrent
      samples.hasEvery samples.sizeFour samples.message samples.payloadShort
      samples.torrentMeta samples.connAsking
    = Returns (samples.torrentMeta,
               torrent.Post (pp.Extended 2 b) samples.connAsking, None) /\
    len b = 4 /\
    b = [Byte.x0a; Byte.x0b; Byte.x0c; Byte.x0d].
Proof.
  destruct (proj1 (proj2 (proj2
              (metadata_request_answered samples.decodeRequest
                 samples.requested samples.pieceSizeOf samples.savePiece
                 samples.sameTorrent samples.hasEvery samples.sizeFour
                 samples.message samples.payloadShort samples.torrentMeta
                 samples.connAsking samples.requestDict eq_refl eq_refl)))
              eq_refl
              ltac:(vm_compute; discriminate)
              ltac:(vm_compute; discriminate)
              ltac:(vm_compute; discriminate))
    as (b & Hgot & Hlen & Hb & _).
  exists b. split; [exact Hgot |]. split; [exact Hlen | exact Hb].
Defined.

(** The same request when the torrent takes the piece to have five
    bytes, one more than the backing array holds: the call panics. *)
Lemma metadata_request_beyond_capacity :
  torrent.gotMetadataExtensionMsg samples.decodeRequest samples.requested
    samples.pieceSizeOf samples.savePiece samples.sameTorrent
    samples.hasEvery samples.sizeFive samples.message samples.payloadShort
    samples.torrentMeta samples.connAsking
  = Panics "slice bounds out of range".
Proof. reflexivity. Qed.

(** A peer that announces [ut_metadata] with id 2 and withdraws
    [ut_pex]. *)
Lemma extended_handshake_notes_extensions_witness :
  exists x' c' asks err,
    torrent.gotExtendedHandshake samples.decodeExtended samples.itemsOf
      samples.sizeAccepted samples.payloadShort samples.torrentNew
      samples.noPeerExtensions
    = Returns (x', c', asks, err) /\
    (forall name,
       torrent.PeerExtensionIDs c' !! name
       = match samples.announced !! name with
         | Some (torrent.ItemInt id) =>
           if id =? 0 then None else Some (id mod 256)
         | _ => torrent.PeerExtensionIDs samples.noPeerExtensions !! name
         end) /\
    (asks = true <->
     err = None /\
     is_Some (torrent.PeerExtensionIDs c' !! "ut_metadata"%string)).
Proof.
  apply (extended_handshake_notes_extensions samples.decodeExtended
           samples.itemsOf samples.sizeAccepted samples.payloadShort
           samples.torrentNew samples.noPeerExtensions samples.extendedDict
           samples.announced).
  - reflexivity.
  - reflexivity.
  - reflexivity.
  - right. exists "client 1.0"%string. reflexivity.
Defined.
